(** * Data-clock consensus core: frame syncing, proving and peer scores

    A shallow embedding of

    - [node/consensus/data/consensus_frames.go]: [collect], [prove],
      [GetAheadPeers] and [sync] of [DataClockConsensusEngine];
    - [node/p2p/blossomsub.go]: [GetPeerScore], [SetPeerScore] and
      [AddPeerScore] of [BlossomSub]; and, further down, [withDefaults],
      [getNetworkNamespace], the limits of [resourceManager], the bootstrap
      peers of [NewBlossomSub] with [initDHT], [Subscribe] and
      [Unsubscribe], and the dialer of [GetDirectChannel].

    Conventions.  A Go [uint64] or [int64] is a [Z] together with the
    wrap-around of the operation that produced it.  A Go [[]byte] and a Go
    [string] are both byte sequences and are both a Rocq [string].  A Go
    pointer that may be [nil] is an [option].  A Go map is a [gmap].  A
    [(value, error)] pair whose value is only read when the error is [nil]
    is a [res].  A Go [float64] is an IEEE 754 binary64 number, a
    [spec_float] at precision 53.  Logging has no effect on any result and
    is left out. *)

From Stdlib Require Import ZArith Lia SpecFloat.
From stdpp Require Import base option list gmap strings pretty.

Local Open Scope Z_scope.

(** ** Machine integers *)

Definition uint64_wrap (z : Z) : Z := z mod 2 ^ 64.
Definition uint64_add (a b : Z) : Z := uint64_wrap (a + b).
Definition uint64_sub (a b : Z) : Z := uint64_wrap (a - b).
Definition is_uint64 (z : Z) : Prop := 0 <= z < 2 ^ 64.

Definition int64_wrap (z : Z) : Z := (z + 2 ^ 63) mod 2 ^ 64 - 2 ^ 63.
Definition int64_add (a b : Z) : Z := int64_wrap (a + b).
Definition is_int64 (z : Z) : Prop := - 2 ^ 63 <= z < 2 ^ 63.

(** ** Byte slices *)

(** [bytes.Compare]: lexicographic order on the byte values. *)
Fixpoint bytes_compare (a b : string) : comparison :=
  match a, b with
  | EmptyString, EmptyString => Eq
  | EmptyString, String _ _ => Lt
  | String _ _, EmptyString => Gt
  | String x a', String y b' =>
      match N.compare (Ascii.N_of_ascii x) (Ascii.N_of_ascii y) with
      | Eq => bytes_compare a' b'
      | c => c
      end
  end.

(** [expand[0]] of a buffer made by [make([]byte, n)]: a byte the reader did
    not fill is still zero. *)
Definition first_byte (buf : string) : Z :=
  match buf with
  | EmptyString => 0
  | String c _ => Z.of_N (Ascii.N_of_ascii c)
  end.

(** ** Errors *)

(** [errors.Wrap(err, tag)] keeps the cause under a tag. *)
Inductive error : Type :=
  | ErrorString (msg : string)
  | Wrap (cause : error) (tag : string).

Inductive res (A : Type) : Type :=
  | Ok (a : A)
  | Failed (err : error).
Arguments Ok {A} a.
Arguments Failed {A} err.

(** What a Go call leaves behind: its results, or a run-time panic (here
    always a nil pointer dereference or an index out of range). *)
Inductive outcome (A : Type) : Type :=
  | Returns (a : A)
  | Panics.
Arguments Returns {A} a.
Arguments Panics {A}.

(** ** Peer scores of the pub/sub overlay ([blossomsub.go]) *)

Module P2P.

Record BlossomSub : Type := {
  peerScore : gmap string Z;   (* map[string]int64, guarded by peerScoreMx *)
  network : Z
}.

(** Both constructors build the map with [make(map[string]int64)]. *)
Definition newBlossomSub (net : Z) : BlossomSub :=
  {| peerScore := ∅; network := net |}.

(** Reading an absent key of a Go map gives the zero value. *)
Definition GetPeerScore (b : BlossomSub) (peerId : string) : Z :=
  default 0 (peerScore b !! peerId).

Definition SetPeerScore (b : BlossomSub) (peerId : string) (score : Z)
  : BlossomSub :=
  {| peerScore := <[peerId := score]> (peerScore b); network := network b |}.

Definition AddPeerScore (b : BlossomSub) (peerId : string) (scoreDelta : Z)
  : BlossomSub :=
  match peerScore b !! peerId with
  | None =>
      {| peerScore := <[peerId := scoreDelta]> (peerScore b);
         network := network b |}
  | Some old =>
      {| peerScore := <[peerId := int64_add old scoreDelta]> (peerScore b);
         network := network b |}
  end.

(** A history of score mutations, applied oldest first. *)
Inductive score_op : Type :=
  | OpSet (peerId : string) (score : Z)
  | OpAdd (peerId : string) (scoreDelta : Z).

Definition op_peer (o : score_op) : string :=
  match o with OpSet p _ => p | OpAdd p _ => p end.

Definition op_value (o : score_op) : Z :=
  match o with OpSet _ s => s | OpAdd _ d => d end.

Definition apply_op (b : BlossomSub) (o : score_op) : BlossomSub :=
  match o with
  | OpSet p s => SetPeerScore b p s
  | OpAdd p d => AddPeerScore b p d
  end.

Definition apply_ops (b : BlossomSub) (ops : list score_op) : BlossomSub :=
  foldl apply_op b ops.

End P2P.

(** ** Wire messages ([protobufs]) *)

Record Ed448PublicKey : Type := { KeyValue : string }.

Record Ed448Signature : Type := {
  PublicKey : option Ed448PublicKey;
  Signature : string
}.

Record InclusionCommitment : Type := {
  ic_Filter : string;
  ic_FrameNumber : Z;
  TypeUrl : string;
  Commitment : string;
  Data : string;
  Position : Z
}.

Record InclusionAggregateProof : Type := {
  iap_Filter : string;
  iap_FrameNumber : Z;
  InclusionCommitments : list InclusionCommitment;
  iap_Proof : string
}.

Record ClockFrame : Type := {
  Filter : string;
  FrameNumber : Z;                                  (* uint64 *)
  Timestamp : Z;                                    (* int64, milliseconds *)
  Difficulty : Z;
  Input : string;
  Output : string;
  AggregateProofs : list InclusionAggregateProof;
  PublicKeySignatureEd448 : option Ed448Signature   (* nil for another kind *)
}.

Record IntrinsicExecutionOutput : Type := {
  Address : string;
  ieo_Output : string;
  ieo_Proof : string
}.

Record DataFrameResponse : Type := {
  df_ClockFrame : option ClockFrame;
  df_Proof : string
}.

Definition IntrinsicExecutionOutputType : string :=
  "types.quilibrium.com/quilibrium.node.node.pb.IntrinsicExecutionOutput".

(** [frame.GetPublicKeySignatureEd448().PublicKey.KeyValue]: the getter is
    nil-safe, the two field selections after it are not. *)
Definition producerKeyValue (frame : ClockFrame) : outcome string :=
  match PublicKeySignatureEd448 frame with
  | None => Panics
  | Some sig =>
      match PublicKey sig with
      | None => Panics
      | Some pk => Returns (KeyValue pk)
      end
  end.

Record TokenRequests (T : Type) : Type := { Requests : list T }.
Arguments Requests {T} _.

(** ** Collaborators

    The engine reaches the rest of the node through interfaces
    ([crypto.FrameProver], [crypto.InclusionProver], [store.ClockStore]) and
    package functions ([application], [proto], [sha3], [config]).  None of
    them is part of the files embedded here: each is an operation of a class,
    and every theorem below holds for all instances. *)

Abbreviation ProverTrie := (gset string).

Class FrameProver : Type := {
  ProveDataClockFrame :
    ClockFrame -> list string -> list InclusionAggregateProof ->
    string -> Z -> Z -> res ClockFrame;
  VerifyDataClockFrame : ClockFrame -> option error
}.

Class InclusionProver : Type := {
  CommitRaw : string -> Z -> res string;
  ProveRaw : string -> Z -> Z -> res string
}.

(** [GetDataClockFrame] answers [(frame, tries, err)]; all three are kept
    because [prove] reads the second whatever the third is. *)
Class ClockStore : Type := {
  GetDataClockFrame :
    string -> Z -> bool -> option ClockFrame * list ProverTrie * option error
}.

(** Package [application], with the coin store, clock store, pub/sub handle
    and logger it is given fixed once and for all. *)
Class TokenApplicationPkg : Type := {
  TokenRequest : Type;
  TokenApplication : Type;
  TokenOutputs : Type;
  TOKEN_ADDRESS : string;
  MaterializeApplicationFromFrame :
    string -> ClockFrame -> list ProverTrie -> res TokenApplication;
  ApplyTransitions :
    TokenApplication -> Z -> TokenRequests TokenRequest -> bool ->
    res (TokenApplication * TokenRequests TokenRequest
         * TokenRequests TokenRequest);
  MaterializeStateFromApplication : TokenApplication -> res TokenOutputs;
  (* proto.Marshal at the three types prove uses *)
  MarshalTokenOutputs : TokenOutputs -> res string;
  MarshalTokenRequests : TokenRequests TokenRequest -> res string;
  MarshalExecutionOutput : IntrinsicExecutionOutput -> res string
}.

(** [sha3.NewShake256]: [Write] absorbs the data, [Read] squeezes [n] bytes. *)
Class Shake256 : Type := {
  ShakeWrite : string -> option error;
  ShakeRead : string -> nat -> res string
}.

(** Package [config]: [GetMinimumVersionCutoff().UnixMilli()] and
    [GetMinimumVersion()]; and the engine method [IsInProverTrie], which is
    declared in another file of the package. *)
Class NodeConfig : Type := {
  MinimumVersionCutoff : Z;
  MinimumVersion : string;
  IsInProverTrie : list ProverTrie -> string -> bool
}.

(** ** Go's [float64]

    IEEE 754 binary64, as the Standard Library specifies it: 53 bits of
    precision, exponents below 1024, every operation rounded to the nearest
    representable number, ties to even.  [GetAheadPeers] converts two
    [uint64] and divides them. *)
Definition float64 : Type := spec_float.

Definition float64_of_uint64 (z : Z) : float64 :=
  binary_normalize 53 1024 z 0 false.

Definition float64_div : float64 -> float64 -> float64 := SFdiv 53 1024.

Definition float64_leb : float64 -> float64 -> bool := SFleb.

Definition float64_zero : float64 := S754_zero false.

(** [1.0] is [2^52 * 2^-52]. *)
Definition float64_one : float64 := S754_finite false 4503599627370496 (-52).

(** ** Package [internal]: peer candidates *)

Record PeerCandidate : Type := {
  PeerID : string;
  MaxFrame : Z
}.

Record WeightedPeerCandidate : Type := {
  Candidate : PeerCandidate;     (* the embedded PeerCandidate *)
  Weight : float64
}.

(** Modelled from the spec: [internal.WeightedSampleWithoutReplacement] is
    not among the embedded files.  The spec says the candidates are ordered
    by [U^(1/weight)], [U] uniform on (0,1], descending; asked for as many
    samples as there are candidates it therefore returns every candidate
    once, in an order that the random draws decide.  The operation is one
    such draw; the law is all that is known of it. *)
Class PeerSampler : Type := {
  WeightedSampleWithoutReplacement :
    list WeightedPeerCandidate -> nat -> list PeerCandidate;
  sample_all :
    forall cs : list WeightedPeerCandidate,
    WeightedSampleWithoutReplacement cs (length cs) ≡ₚ map Candidate cs
}.

(** ** The engine *)

Record peerInfo : Type := {
  peerId : string;
  maxFrame : Z;      (* uint64 *)
  timestamp : Z;     (* int64, milliseconds *)
  version : string
}.

(** [info.timestamp = now] *)
Definition stampedAt (now : Z) (info : peerInfo) : peerInfo :=
  {| peerId := peerId info;
     maxFrame := maxFrame info;
     timestamp := now;
     version := version info |}.

Inductive SyncStatusType : Type :=
  | SyncStatusNotSyncing
  | SyncStatusSynchronizing.

(** The calls the engine makes on what it does not own (the staging mutex,
    its collaborators, the peer, the time reel), in program order.  The log is
    not a field of the Go struct: it records what an observer of those
    collaborators sees. *)
Inductive Call : Type :=
  | CallLock                                   (* stagedTransactionsMx.Lock *)
  | CallUnlock                                 (* stagedTransactionsMx.Unlock *)
  | CallGetDataClockFrame (frameNumber : Z)
  | CallMaterializeApplicationFromFrame
  | CallApplyTransitions (frameNumber : Z)
  | CallMaterializeStateFromApplication
  | CallCommitRaw
  | CallProveRaw (position : Z)
  | CallProveDataClockFrame
  | CallGetDirectChannel (peer : string)
  | CallGetDataFrame (peer : string) (frameNumber : Z)
  | CallVerifyDataClockFrame (frame : ClockFrame)
  | CallInsert (frame : ClockFrame) (trustedSource : bool)
  | CallClose (peer : string).

Section Engine.

Context `{TokenApplicationPkg}.

Record DataClockConsensusEngine : Type := {
  lastProven : Z;
  stagedTransactions : option (TokenRequests TokenRequest);
  stagedTransactionsMx : bool;                 (* is the mutex held? *)
  latestFrameReceived : Z;
  peerMap : gmap string peerInfo;
  uncooperativePeersMap : gmap string peerInfo;
  syncingStatus : SyncStatusType;
  frameProverTries : list ProverTrie;          (* GetFrameProverTries() *)
  provingKey : string;
  provingKeyAddress : string;
  filter : string;
  difficulty : Z;
  calls : list Call
}.

Definition set_lastProven (v : Z) (e : DataClockConsensusEngine) :=
  {| lastProven := v;
     stagedTransactions := stagedTransactions e;
     stagedTransactionsMx := stagedTransactionsMx e;
     latestFrameReceived := latestFrameReceived e;
     peerMap := peerMap e;
     uncooperativePeersMap := uncooperativePeersMap e;
     syncingStatus := syncingStatus e;
     frameProverTries := frameProverTries e;
     provingKey := provingKey e;
     provingKeyAddress := provingKeyAddress e;
     filter := filter e;
     difficulty := difficulty e;
     calls := calls e |}.

Definition set_stagedTransactions (v : option (TokenRequests TokenRequest))
  (e : DataClockConsensusEngine) :=
  {| lastProven := lastProven e;
     stagedTransactions := v;
     stagedTransactionsMx := stagedTransactionsMx e;
     latestFrameReceived := latestFrameReceived e;
     peerMap := peerMap e;
     uncooperativePeersMap := uncooperativePeersMap e;
     syncingStatus := syncingStatus e;
     frameProverTries := frameProverTries e;
     provingKey := provingKey e;
     provingKeyAddress := provingKeyAddress e;
     filter := filter e;
     difficulty := difficulty e;
     calls := calls e |}.

Definition set_stagedTransactionsMx (v : bool) (e : DataClockConsensusEngine) :=
  {| lastProven := lastProven e;
     stagedTransactions := stagedTransactions e;
     stagedTransactionsMx := v;
     latestFrameReceived := latestFrameReceived e;
     peerMap := peerMap e;
     uncooperativePeersMap := uncooperativePeersMap e;
     syncingStatus := syncingStatus e;
     frameProverTries := frameProverTries e;
     provingKey := provingKey e;
     provingKeyAddress := provingKeyAddress e;
     filter := filter e;
     difficulty := difficulty e;
     calls := calls e |}.

Definition set_peerMaps (cooperative uncooperative : gmap string peerInfo)
  (e : DataClockConsensusEngine) :=
  {| lastProven := lastProven e;
     stagedTransactions := stagedTransactions e;
     stagedTransactionsMx := stagedTransactionsMx e;
     latestFrameReceived := latestFrameReceived e;
     peerMap := cooperative;
     uncooperativePeersMap := uncooperative;
     syncingStatus := syncingStatus e;
     frameProverTries := frameProverTries e;
     provingKey := provingKey e;
     provingKeyAddress := provingKeyAddress e;
     filter := filter e;
     difficulty := difficulty e;
     calls := calls e |}.

Definition set_syncingStatus (v : SyncStatusType)
  (e : DataClockConsensusEngine) :=
  {| lastProven := lastProven e;
     stagedTransactions := stagedTransactions e;
     stagedTransactionsMx := stagedTransactionsMx e;
     latestFrameReceived := latestFrameReceived e;
     peerMap := peerMap e;
     uncooperativePeersMap := uncooperativePeersMap e;
     syncingStatus := v;
     frameProverTries := frameProverTries e;
     provingKey := provingKey e;
     provingKeyAddress := provingKeyAddress e;
     filter := filter e;
     difficulty := difficulty e;
     calls := calls e |}.

Definition set_calls (v : list Call) (e : DataClockConsensusEngine) :=
  {| lastProven := lastProven e;
     stagedTransactions := stagedTransactions e;
     stagedTransactionsMx := stagedTransactionsMx e;
     latestFrameReceived := latestFrameReceived e;
     peerMap := peerMap e;
     uncooperativePeersMap := uncooperativePeersMap e;
     syncingStatus := syncingStatus e;
     frameProverTries := frameProverTries e;
     provingKey := provingKey e;
     provingKeyAddress := provingKeyAddress e;
     filter := filter e;
     difficulty := difficulty e;
     calls := v |}.

(** One more call, after those already made. *)
Definition call (c : Call) (e : DataClockConsensusEngine) :=
  set_calls (calls e ++ [c]) e.

Definition Lock (e : DataClockConsensusEngine) :=
  call CallLock (set_stagedTransactionsMx true e).

Definition Unlock (e : DataClockConsensusEngine) :=
  call CallUnlock (set_stagedTransactionsMx false e).

(** [&protobufs.TokenRequests{}] *)
Definition emptyTokenRequests : TokenRequests TokenRequest :=
  {| Requests := [] |}.

End Engine.

(** The [(frame, err)] pair that [prove], [sync] and [collect] return. *)
Definition GoResult : Type := option ClockFrame * option error.

(** ** [prove] *)

Section Prove.

Context `{TokenApplicationPkg} `{FrameProver} `{InclusionProver}
  `{store : ClockStore} `{Shake256}.

(** The part of [prove] that runs without the mutex: every step either goes
    on or stops with the error that [prove] will wrap. *)
Definition Step (A : Type) : Type :=
  DataClockConsensusEngine -> DataClockConsensusEngine * res A.

Definition step_ret {A} (a : A) : Step A := fun e => (e, Ok a).

Definition step_bind {A B} (m : Step A) (k : A -> Step B) : Step B :=
  fun e =>
    match m e with
    | (e', Ok a) => k a e'
    | (e', Failed err) => (e', Failed err)
    end.

(** A collaborator is called and answers [r]. *)
Definition calling {A} (c : Call) (r : res A) : Step A :=
  fun e => (call c e, r).

(** A library function answers [r]. *)
Definition pure {A} (r : res A) : Step A := fun e => (e, r).

Definition reading {A} (f : DataClockConsensusEngine -> A) : Step A :=
  fun e => (e, Ok (f e)).

Notation "x <- m ;; k" := (step_bind m (fun x => k))
  (at level 100, m at next level, right associativity).

(** Lines 115-203: from [MaterializeStateFromApplication] to
    [ProveDataClockFrame]. *)
Definition prove_unlocked (now : Z) (previousFrame : ClockFrame)
  (app : TokenApplication) (validTransactions : TokenRequests TokenRequest)
  : Step ClockFrame :=
  outputState <- calling CallMaterializeStateFromApplication
                   (MaterializeStateFromApplication app) ;;
  output <- pure (MarshalTokenOutputs outputState) ;;
  proofBytes <- pure (MarshalTokenRequests validTransactions) ;;
  data <- pure (MarshalExecutionOutput
                  {| Address := TOKEN_ADDRESS;
                     ieo_Output := output;
                     ieo_Proof := proofBytes |}) ;;
  _ <- pure (match ShakeWrite data with
             | Some err => Failed err
             | None => Ok tt
             end) ;;
  expand <- pure (ShakeRead data 1024) ;;
  commitment <- calling CallCommitRaw (CommitRaw expand 16) ;;
  proof <- calling (CallProveRaw (first_byte expand mod 16))
             (ProveRaw expand (first_byte expand mod 16) 16) ;;
  flt <- reading filter ;;
  key <- reading provingKey ;;
  diff <- reading difficulty ;;
  calling CallProveDataClockFrame
    (ProveDataClockFrame previousFrame [proof]
       [ {| iap_Filter := flt;
            iap_FrameNumber := uint64_add (FrameNumber previousFrame) 1;
            InclusionCommitments :=
              [ {| ic_Filter := flt;
                   ic_FrameNumber := uint64_add (FrameNumber previousFrame) 1;
                   TypeUrl := IntrinsicExecutionOutputType;
                   Commitment := commitment;
                   Data := data;
                   Position := 0 |} ];
            iap_Proof := proof |} ]
       key now diff).

(** Lines 71-213: [prove] once the clock store has answered [loaded].  The
    [err] of that answer is assigned again by the next statement before
    anything reads it.  The last log line slices [frame.Input[516:]], which
    panics on a shorter input. *)
Definition prove_loaded (now : Z) (previousFrame : ClockFrame)
  (loaded : option ClockFrame * list ProverTrie * option error)
  (e : DataClockConsensusEngine)
  : DataClockConsensusEngine * outcome GoResult :=
  let tries := snd (fst loaded) in
  let e := call CallMaterializeApplicationFromFrame e in
  match MaterializeApplicationFromFrame (provingKey e) previousFrame tries with
  | Failed err => (Unlock e, Returns (None, Some (Wrap err "prove")))
  | Ok app =>
      let e := match stagedTransactions e with
               | None => set_stagedTransactions (Some emptyTokenRequests) e
               | Some _ => e
               end in
      let staged := default emptyTokenRequests (stagedTransactions e) in
      let next := uint64_add (FrameNumber previousFrame) 1 in
      let e := call (CallApplyTransitions next) e in
      match ApplyTransitions app next staged true with
      | Failed err =>
          (Unlock (set_stagedTransactions (Some emptyTokenRequests) e),
           Returns (None, Some (Wrap err "prove")))
      | Ok (app', validTransactions, invalidTransactions) =>
          let e := Unlock (set_stagedTransactions (Some emptyTokenRequests) e) in
          match prove_unlocked now previousFrame app' validTransactions e with
          | (e, Failed err) => (e, Returns (None, Some (Wrap err "prove")))
          | (e, Ok frame) =>
              let e := set_lastProven (FrameNumber previousFrame) e in
              if (String.length (Input frame) <? 516)%nat
              then (e, Panics)
              else (e, Returns (Some frame, None))
          end
      end
  end.

(** [now] is what [time.Now().UnixMilli()] answers during the call. *)
Definition prove (now : Z) (previousFrame : ClockFrame)
  (e : DataClockConsensusEngine)
  : DataClockConsensusEngine * outcome GoResult :=
  if (FrameNumber previousFrame <=? lastProven e) && negb (lastProven e =? 0)
  then (e, Returns (Some previousFrame, None))
  else
    let e := Lock e in
    let e := call (CallGetDataClockFrame (FrameNumber previousFrame)) e in
    prove_loaded now previousFrame
      (GetDataClockFrame (filter e) (FrameNumber previousFrame) false) e.

End Prove.

(** ** [GetAheadPeers], [sync] and [collect] *)

(** What [client.GetDataFrame] hands back: [(nil, err)], or [(response, nil)]
    with a response that may itself be nil. *)
Inductive GetDataFrameResult : Type :=
  | RpcFailed (err : error)
  | RpcReturned (response : option DataFrameResponse).

(** Everything outside the engine that one call of [sync] meets: the error of
    [GetDirectChannel], the answers to the successive [GetDataFrame] requests,
    the error of [Close], and the clock read by the deferred demotion.  The
    loop condition [GetState() < EngineStateStopping] holds as long as an
    answer is left: a session that stops early has a shorter list. *)
Record SyncSession : Type := {
  dialError : option error;
  replies : list GetDataFrameResult;
  closeError : option error;
  demotedAt : Z
}.

(** How the body of [sync] is left: the results (or a panic), and the local
    [cooperative] that the deferred function reads. *)
Record SyncExit : Type := {
  exit_result : outcome GoResult;
  exit_cooperative : bool
}.

Section Sync.

Context `{TokenApplicationPkg} `{FrameProver} `{NodeConfig} `{PeerSampler}.

(** Lines 231-258: one turn of the loop over [e.peerMap]. *)
Definition scanPeer (frameNumber : Z) (e : DataClockConsensusEngine)
  (acc : list WeightedPeerCandidate * Z) (v : peerInfo)
  : list WeightedPeerCandidate * Z :=
  if maxFrame v <=? frameNumber then acc
  else if bool_decide (is_Some (uncooperativePeersMap e !! peerId v)) then acc
  else if timestamp v <=? MinimumVersionCutoff then acc
  else if bool_decide (bytes_compare (version v) MinimumVersion = Lt) then acc
  else
    (fst acc ++ [ {| Candidate := {| PeerID := peerId v;
                                     MaxFrame := maxFrame v |};
                     Weight := float64_zero |} ],
     Z.max (snd acc) (uint64_sub (maxFrame v) frameNumber)).

(** Go visits the entries of a map in an order of its own choosing;
    [map_to_list] is one such order.  Nothing below depends on which. *)
Definition scanPeers (frameNumber : Z) (e : DataClockConsensusEngine)
  : list WeightedPeerCandidate * Z :=
  foldl (scanPeer frameNumber e) ([], 0) (map snd (map_to_list (peerMap e))).

(** Lines 265-267. *)
Definition setWeight (frameNumber maxDiff : Z) (c : WeightedPeerCandidate)
  : WeightedPeerCandidate :=
  {| Candidate := Candidate c;
     Weight :=
       float64_div
         (float64_of_uint64 (uint64_sub (MaxFrame (Candidate c)) frameNumber))
         (float64_of_uint64 maxDiff) |}.

(** The slice [candidates] as it is handed to the sampler on line 268. *)
Definition weightedCandidates (frameNumber : Z) (e : DataClockConsensusEngine)
  : list WeightedPeerCandidate :=
  map (setWeight frameNumber (snd (scanPeers frameNumber e)))
      (fst (scanPeers frameNumber e)).

Definition GetAheadPeers (frameNumber : Z) (e : DataClockConsensusEngine)
  : outcome (list PeerCandidate) :=
  match frameProverTries e with
  | [] => Panics                                (* GetFrameProverTries()[0] *)
  | trie0 :: _ =>
      if bool_decide (provingKeyAddress e ∈ trie0) then Returns []
      else
        let candidates := weightedCandidates frameNumber e in
        if (length candidates =? 0)%nat then Returns []
        else Returns (WeightedSampleWithoutReplacement candidates
                        (length candidates))
  end.

(** Lines 321-370: one turn of the pull loop, entered with a reply to the
    request it sends.  It answers the calls it made and either the next
    [latest] and [cooperative] or the way [sync] is left. *)
Definition sync_body (peer : string) (maxFrame : Z)
  (e : DataClockConsensusEngine) (reply : GetDataFrameResult)
  (latest : ClockFrame) (cooperative : bool)
  : list Call * (ClockFrame * bool + SyncExit) :=
  let request := CallGetDataFrame peer (uint64_add (FrameNumber latest) 1) in
  match reply with
  | RpcFailed err =>
      ([request],
       inr {| exit_result := Returns (Some latest, Some (Wrap err "sync"));
              exit_cooperative := false |})
  | RpcReturned None =>
      ([request],
       inr {| exit_result := Returns (Some latest, None);
              exit_cooperative := cooperative |})
  | RpcReturned (Some response) =>
      match df_ClockFrame response with
      | None =>
          ([request],
           inr {| exit_result := Returns (Some latest, None);
                  exit_cooperative := false |})
      | Some frame =>
          if negb (FrameNumber frame =? uint64_add (FrameNumber latest) 1)
             || (Timestamp frame <? Timestamp latest)
          then
            ([request],
             inr {| exit_result := Returns (Some latest, None);
                    exit_cooperative := false |})
          else
            match producerKeyValue frame with
            | Panics =>
                ([request],
                 inr {| exit_result := Panics;
                        exit_cooperative := cooperative |})
            | Returns key =>
                let cooperative :=
                  if IsInProverTrie (frameProverTries e) key
                  then cooperative else false in
                match VerifyDataClockFrame frame with
                | Some err =>
                    ([request; CallVerifyDataClockFrame frame],
                     inr {| exit_result :=
                              Returns (None, Some (Wrap err "sync"));
                            exit_cooperative := cooperative |})
                | None =>
                    ([request; CallVerifyDataClockFrame frame;
                      CallInsert frame true],
                     if maxFrame <=? FrameNumber frame
                     then inr {| exit_result := Returns (Some frame, None);
                                 exit_cooperative := cooperative |}
                     else inl (frame, cooperative))
                end
            end
      end
  end.

(** Lines 320-372: the pull loop. *)
Fixpoint sync_loop (peer : string) (maxFrame : Z)
  (e : DataClockConsensusEngine) (replies : list GetDataFrameResult)
  (latest : ClockFrame) (cooperative : bool) : list Call * SyncExit :=
  match replies with
  | [] =>
      ([], {| exit_result := Returns (Some latest, None);
              exit_cooperative := cooperative |})
  | reply :: rest =>
      match sync_body peer maxFrame e reply latest cooperative with
      | (made, inr exit) => (made, exit)
      | (made, inl (latest', cooperative')) =>
          let r := sync_loop peer maxFrame e rest latest' cooperative' in
          (made ++ fst r, snd r)
      end
  end.

(** Lines 286-297: the deferred demotion, when [cooperative] is false. *)
Definition demote (peer : string) (now : Z) (e : DataClockConsensusEngine)
  : DataClockConsensusEngine :=
  match peerMap e !! peer with
  | None => e
  | Some info =>
      set_peerMaps
        (delete peer (peerMap e))
        (<[peer := stampedAt now info]> (uncooperativePeersMap e))
        e
  end.

(** The deferred functions run on every exit, a panic included, the last
    registered first: [Close], the demotion, the status. *)
Definition sync (s : SyncSession) (currentLatest : ClockFrame) (maxFrame : Z)
  (peer : string) (e : DataClockConsensusEngine)
  : DataClockConsensusEngine * outcome GoResult :=
  let e := set_syncingStatus SyncStatusSynchronizing e in
  let e := call (CallGetDirectChannel peer) e in
  let body :=
    match dialError s with
    | Some err =>
        (e, {| exit_result :=
                 Returns (Some currentLatest, Some (Wrap err "sync"));
               exit_cooperative := false |})
    | None =>
        let r := sync_loop peer maxFrame e (replies s) currentLatest true in
        (set_calls (calls e ++ fst r ++ [CallClose peer]) e, snd r)
    end in
  let e := fst body in
  let e := if exit_cooperative (snd body) then e
           else demote peer (demotedAt s) e in
  (set_syncingStatus SyncStatusNotSyncing e, exit_result (snd body)).

(** Lines 36-46: the loop over the candidates of one pass.  [sessions n] is
    what the [n]-th call of [sync] meets; [n] counts the calls made.
    [latest.FrameNumber] dereferences [latest]. *)
Fixpoint collect_candidates (sessions : nat -> SyncSession)
  (candidates : list PeerCandidate) (n : nat) (latest : option ClockFrame)
  (e : DataClockConsensusEngine)
  : outcome (nat * option ClockFrame * DataClockConsensusEngine) :=
  match candidates with
  | [] => Returns (n, latest, e)
  | candidate :: rest =>
      match latest with
      | None => Panics
      | Some frame =>
          if MaxFrame candidate
             <=? Z.max (FrameNumber frame) (latestFrameReceived e)
          then collect_candidates sessions rest n latest e
          else
            match sync (sessions n) frame (MaxFrame candidate)
                    (PeerID candidate) e with
            | (_, Panics) => Panics
            | (e', Returns (latest', _)) =>
                (* err != nil: log, continue; err == nil: next candidate *)
                collect_candidates sessions rest (S n) latest' e'
            end
      end
  end.

(** Lines 31-47: the outer loop has no bound of its own; [fuel] counts its
    passes and [None] means that they were not enough. *)
Fixpoint collect_loop (fuel : nat) (sessions : nat -> SyncSession) (n : nat)
  (latest : option ClockFrame) (e : DataClockConsensusEngine)
  : option (DataClockConsensusEngine * outcome GoResult) :=
  match fuel with
  | O => None
  | S fuel' =>
      match latest with
      | None => Some (e, Panics)
      | Some frame =>
          match GetAheadPeers
                  (Z.max (FrameNumber frame) (latestFrameReceived e)) e with
          | Panics => Some (e, Panics)
          | Returns [] => Some (e, Returns (Some frame, None))
          | Returns candidates =>
              match collect_candidates sessions candidates n latest e with
              | Panics => Some (e, Panics)
              | Returns (n', latest', e') =>
                  collect_loop fuel' sessions n' latest' e'
              end
          end
      end
  end.

Definition collect (fuel : nat) (sessions : nat -> SyncSession)
  (enqueuedFrame : ClockFrame) (e : DataClockConsensusEngine)
  : option (DataClockConsensusEngine * outcome GoResult) :=
  collect_loop fuel sessions 0 (Some enqueuedFrame) e.

End Sync.

(** ** Reading the call log *)

(** The frames handed to [dataTimeReel.Insert], oldest first. *)
Definition insertedFrames (cs : list Call) : list ClockFrame :=
  omap (fun c => match c with CallInsert f _ => Some f | _ => None end) cs.

(** The frame numbers asked of a peer with [GetDataFrame], oldest first. *)
Definition requestedFrames (cs : list Call) : list Z :=
  omap (fun c => match c with CallGetDataFrame _ n => Some n | _ => None end)
       cs.

(** The calls made between two states of the engine. *)
Definition newCalls `{TokenApplicationPkg}
  (before after : DataClockConsensusEngine) : list Call :=
  drop (length (calls before)) (calls after).

(** Each frame is numbered one more than the frame held before it, and is
    not older. *)
Fixpoint consecutiveFrom (latest : ClockFrame) (frames : list ClockFrame)
  : Prop :=
  match frames with
  | [] => True
  | frame :: frames' =>
      FrameNumber frame = FrameNumber latest + 1 /\
      Timestamp latest <= Timestamp frame /\
      consecutiveFrom frame frames'
  end.

(** The same with the successor that the code computes, which wraps from
    [2^64 - 1] to 0. *)
Fixpoint consecutiveFromWrapping (latest : ClockFrame)
  (frames : list ClockFrame) : Prop :=
  match frames with
  | [] => True
  | frame :: frames' =>
      FrameNumber frame = uint64_add (FrameNumber latest) 1 /\
      Timestamp latest <= Timestamp frame /\
      consecutiveFromWrapping frame frames'
  end.

(** The commitment, the opening and the frame proof. *)
Definition isCrypto (c : Call) : bool :=
  match c with
  | CallCommitRaw | CallProveRaw _ | CallProveDataClockFrame => true
  | _ => false
  end.

(** Whether the staging mutex is held after the calls [cs], when it was
    [held] before them. *)
Definition heldAfter (held : bool) (cs : list Call) : bool :=
  foldl (fun h c => match c with
                    | CallLock => true
                    | CallUnlock => false
                    | _ => h
                    end) held cs.

(** No commitment, opening or frame proof is started with the mutex held. *)
Definition cryptoOutsideMutex (held : bool) (cs : list Call) : Prop :=
  forall before c after,
    cs = before ++ c :: after -> isCrypto c = true ->
    heldAfter held before = false.

(** The same, as a check that runs. *)
Fixpoint cryptoOutsideMutexb (held : bool) (cs : list Call) : bool :=
  match cs with
  | [] => true
  | CallLock :: cs' => cryptoOutsideMutexb true cs'
  | CallUnlock :: cs' => cryptoOutsideMutexb false cs'
  | c :: cs' => (if isCrypto c then negb held else true)
                && cryptoOutsideMutexb held cs'
  end.

(** ** The turns of the pull loop *)

Section Turns.

Context `{TokenApplicationPkg} `{FrameProver} `{NodeConfig}.

(** The check of lines 344-346, passed. *)
Definition follows (latest frame : ClockFrame) : Prop :=
  FrameNumber frame = uint64_add (FrameNumber latest) 1 /\
  Timestamp latest <= Timestamp frame.

(** The [cooperative] of lines 356-360. *)
Definition afterTrieCheck (e : DataClockConsensusEngine) (key : string)
  (cooperative : bool) : bool :=
  if IsInProverTrie (frameProverTries e) key then cooperative else false.

(** The seven ways through one turn of the loop. *)
Inductive Turn (peer : string) (maxFrame : Z)
  (e : DataClockConsensusEngine) (latest : ClockFrame) (cooperative : bool)
  : GetDataFrameResult -> list Call -> ClockFrame * bool + SyncExit -> Prop :=
  | TurnTransport err :
      Turn peer maxFrame e latest cooperative (RpcFailed err)
        [CallGetDataFrame peer (uint64_add (FrameNumber latest) 1)]
        (inr {| exit_result := Returns (Some latest, Some (Wrap err "sync"));
                exit_cooperative := false |})
  | TurnNoResponse :
      Turn peer maxFrame e latest cooperative (RpcReturned None)
        [CallGetDataFrame peer (uint64_add (FrameNumber latest) 1)]
        (inr {| exit_result := Returns (Some latest, None);
                exit_cooperative := cooperative |})
  | TurnInvalid response :
      (forall frame, df_ClockFrame response = Some frame ->
                     ~ follows latest frame) ->
      Turn peer maxFrame e latest cooperative (RpcReturned (Some response))
        [CallGetDataFrame peer (uint64_add (FrameNumber latest) 1)]
        (inr {| exit_result := Returns (Some latest, None);
                exit_cooperative := false |})
  | TurnPanic response frame :
      df_ClockFrame response = Some frame -> follows latest frame ->
      producerKeyValue frame = Panics ->
      Turn peer maxFrame e latest cooperative (RpcReturned (Some response))
        [CallGetDataFrame peer (uint64_add (FrameNumber latest) 1)]
        (inr {| exit_result := Panics; exit_cooperative := cooperative |})
  | TurnRejected response frame key err :
      df_ClockFrame response = Some frame -> follows latest frame ->
      producerKeyValue frame = Returns key ->
      VerifyDataClockFrame frame = Some err ->
      Turn peer maxFrame e latest cooperative (RpcReturned (Some response))
        [CallGetDataFrame peer (uint64_add (FrameNumber latest) 1);
         CallVerifyDataClockFrame frame]
        (inr {| exit_result := Returns (None, Some (Wrap err "sync"));
                exit_cooperative := afterTrieCheck e key cooperative |})
  | TurnLast response frame key :
      df_ClockFrame response = Some frame -> follows latest frame ->
      producerKeyValue frame = Returns key ->
      VerifyDataClockFrame frame = None ->
      maxFrame <= FrameNumber frame ->
      Turn peer maxFrame e latest cooperative (RpcReturned (Some response))
        [CallGetDataFrame peer (uint64_add (FrameNumber latest) 1);
         CallVerifyDataClockFrame frame; CallInsert frame true]
        (inr {| exit_result := Returns (Some frame, None);
                exit_cooperative := afterTrieCheck e key cooperative |})
  | TurnNext response frame key :
      df_ClockFrame response = Some frame -> follows latest frame ->
      producerKeyValue frame = Returns key ->
      VerifyDataClockFrame frame = None ->
      FrameNumber frame < maxFrame ->
      Turn peer maxFrame e latest cooperative (RpcReturned (Some response))
        [CallGetDataFrame peer (uint64_add (FrameNumber latest) 1);
         CallVerifyDataClockFrame frame; CallInsert frame true]
        (inl (frame, afterTrieCheck e key cooperative)).

(** The local [cooperative] when [sync] is left. *)
Definition leftCooperative (s : SyncSession) (latest : ClockFrame)
  (maxFrame : Z) (peer : string) (e : DataClockConsensusEngine) : bool :=
  match dialError s with
  | Some _ => false
  | None =>
      exit_cooperative (snd (sync_loop peer maxFrame e (replies s) latest true))
  end.

End Turns.

(** ** Steps of [prove] that only log *)

Section LogsOnly.

Context `{TokenApplicationPkg}.

(** A step that touches nothing of the engine but the call log, and adds to
    it only calls that are not [Lock]. *)
Definition logsOnly {A} (m : Step A) : Prop :=
  forall e e' r, m e = (e', r) ->
  exists tr, e' = set_calls (calls e ++ tr) e /\
             Forall (fun c => c <> CallLock) tr.

End LogsOnly.

(** ** The peers that are ahead *)

Section AheadPeers.

Context `{TokenApplicationPkg} `{NodeConfig}.

(** A peer that [GetAheadPeers head] keeps: ahead of [head], not in the
    uncooperative map, heard of after the version cutoff, and at the minimum
    version or later. *)
Definition eligible (head : Z) (e : DataClockConsensusEngine) (v : peerInfo)
  : bool :=
  (head <? maxFrame v)
  && bool_decide (uncooperativePeersMap e !! peerId v = None)
  && (MinimumVersionCutoff <? timestamp v)
  && negb (bool_decide (bytes_compare (version v) MinimumVersion = Lt)).

Definition aheadPeers (head : Z) (e : DataClockConsensusEngine)
  : list peerInfo :=
  List.filter (eligible head e) (map snd (map_to_list (peerMap e))).

Definition candidateOf (v : peerInfo) : PeerCandidate :=
  {| PeerID := peerId v; MaxFrame := maxFrame v |}.

(** The largest [MaxFrame - head] among candidates. *)
Definition maxDifference (head : Z) (cs : list PeerCandidate) : Z :=
  foldr Z.max 0 (map (fun c => MaxFrame c - head) cs).

(** A candidate as line 252 appends it, its weight not yet set. *)
Definition unweighted (v : peerInfo) : WeightedPeerCandidate :=
  {| Candidate := candidateOf v; Weight := float64_zero |}.

End AheadPeers.

(** ** Reading binary64 results *)

(** [2 * m0 = m * 2^(k+1) + r * 2^k + t] with [0 <= t < 2^k], and the sticky
    bit says whether [t] is not zero. *)
Definition shifted (m0 k : Z) (mrs : shr_record) : Prop :=
  0 <= shr_m mrs /\
  exists t, 0 <= t < 2 ^ k /\
    2 * m0 = shr_m mrs * 2 ^ (k + 1) + (if shr_r mrs then 2 ^ k else 0) + t /\
    (shr_s mrs = true <-> t <> 0).

(** The rounded mantissa of a shifted record. *)
Definition rounded (mrs : shr_record) : Z :=
  round_nearest_even (shr_m mrs) (loc_of_shr_record mrs).

(** The second half of [binary_round_aux]: a rounded mantissa that reached
    [2^53] is renormalised. *)
Definition finish (m0 e : Z) : spec_float :=
  let '(mrs, e') := shr_fexp 53 1024 m0 e loc_Exact in
  match shr_m mrs with
  | Z0 => S754_zero false
  | Zpos m => if e' <=? 1024 - 53 then S754_finite false m e'
              else S754_infinity false
  | Zneg _ => S754_nan
  end.

(** What the conversion of [a] gives: the mantissa [M] and exponent [E]. *)
Definition convSpec (a M E : Z) : Prop :=
  exists p, a = Zpos p /\
    ((Zpos (digits2_pos p) <= 53 /\ E = Zpos (digits2_pos p) - 53 /\
      M = a * 2 ^ (53 - Zpos (digits2_pos p))) \/
     (53 < Zpos (digits2_pos p) /\
      exists mrs, shifted a (Zpos (digits2_pos p) - 53) mrs /\
        ((rounded mrs < 2 ^ 53 /\ M = rounded mrs /\
          E = Zpos (digits2_pos p) - 53) \/
         (rounded mrs = 2 ^ 53 /\ M = 2 ^ 52 /\
          E = Zpos (digits2_pos p) - 52)))).

(** At most one: below [2^0] by the exponent, or [1] itself. *)
Definition atMostOne (M : positive) (E : Z) : Prop :=
  2 ^ 52 <= Zpos M < 2 ^ 53 /\ (E < -52 \/ (E = -52 /\ Zpos M = 2 ^ 52)).

(** ** A small node, to run the definitions on *)

Module Scenario.

Definition zeroBytes (n : nat) : string :=
  Nat.iter n (String Ascii.zero) EmptyString.

(** A frame prover that refuses difficulty 0 and otherwise numbers the new
    frame one after the previous; a verifier that refuses an empty output. *)
Definition frameProver : FrameProver := {|
  ProveDataClockFrame prev witness aggregates key now diff :=
    if diff =? 0 then Failed (ErrorString "difficulty")
    else Ok {| Filter := Filter prev;
               FrameNumber := uint64_add (FrameNumber prev) 1;
               Timestamp := now;
               Difficulty := diff;
               Input := zeroBytes (516 + 74 * length aggregates);
               Output := "vdf";
               AggregateProofs := aggregates;
               PublicKeySignatureEd448 :=
                 Some {| PublicKey := Some {| KeyValue := key |};
                         Signature := "signature" |} |};
  VerifyDataClockFrame frame :=
    if String.eqb (Output frame) "" then Some (ErrorString "invalid proof")
    else None
|}.

Definition inclusionProver : InclusionProver := {|
  CommitRaw data chunk := Ok "commitment";
  ProveRaw data position chunk := Ok "opening"
|}.

(** A clock store that never finds the tries. *)
Definition clockStore : ClockStore := {|
  GetDataClockFrame flt n truncate :=
    (None, [], Some (ErrorString "not found"))
|}.

(** An application over strings: the empty request is invalid, a frame
    numbered 0 cannot be built, and no proving key means no application. *)
Definition tokenApplication : TokenApplicationPkg := {|
  TokenRequest := string;
  TokenApplication := list string;
  TokenOutputs := list string;
  TOKEN_ADDRESS := "token";
  MaterializeApplicationFromFrame key prev tries :=
    if String.eqb key "" then Failed (ErrorString "no proving key")
    else Ok [];
  ApplyTransitions app n staged commit :=
    if n =? 0 then Failed (ErrorString "frame number")
    else
      Ok (app ++ List.filter (fun r => negb (String.eqb r "")) (Requests staged),
          {| Requests :=
               List.filter (fun r => negb (String.eqb r "")) (Requests staged) |},
          {| Requests := List.filter (fun r => String.eqb r "") (Requests staged) |});
  MaterializeStateFromApplication app := Ok app;
  MarshalTokenOutputs outputs := Ok (String.concat "," outputs);
  MarshalTokenRequests requests := Ok (String.concat ";" (Requests requests));
  MarshalExecutionOutput o :=
    Ok (Address o ++ "|" ++ ieo_Output o ++ "|" ++ ieo_Proof o)%string
|}.

Definition shake256 : Shake256 := {|
  ShakeWrite data := None;
  ShakeRead data n := Ok (zeroBytes n)
|}.

Definition nodeConfig : NodeConfig := {|
  MinimumVersionCutoff := 1000;
  MinimumVersion := "202";
  IsInProverTrie tries key :=
    existsb (fun trie : ProverTrie => bool_decide (key ∈ trie)) tries
|}.

(** A clock store that finds an empty list of tries. *)
Definition emptyClockStore : ClockStore := {|
  GetDataClockFrame flt n truncate := (None, [], None)
|}.

Definition signedBy (key : string) : option Ed448Signature :=
  Some {| PublicKey := Some {| KeyValue := key |}; Signature := "signature" |}.

(** The frame numbered [n] of the clock ["filter"], stamped [n] seconds. *)
Definition frameAt (n : Z) (key output : string) : ClockFrame := {|
  Filter := "filter";
  FrameNumber := n;
  Timestamp := 1000 * n;
  Difficulty := 1;
  Input := zeroBytes 516;
  Output := output;
  AggregateProofs := [];
  PublicKeySignatureEd448 := signedBy key
|}.

Definition genesis : ClockFrame := frameAt 0 "prover" "vdf".

Definition peer (id : string) (head : Z) : peerInfo := {|
  peerId := id;
  maxFrame := head;
  timestamp := 2000;
  version := "202"
|}.

Definition staged : TokenRequests (@TokenRequest tokenApplication) :=
  Build_TokenRequests (@TokenRequest tokenApplication) ["mint"; ""].

(** An engine that has proven up to [proven], with two staged requests and
    the one prover ["prover"], which is not its own address. *)
Definition engine (proven diff : Z) (peers : gmap string peerInfo)
  : @DataClockConsensusEngine tokenApplication := {|
  lastProven := proven;
  stagedTransactions := Some staged;
  stagedTransactionsMx := false;
  latestFrameReceived := 0;
  peerMap := peers;
  uncooperativePeersMap := ∅;
  syncingStatus := SyncStatusNotSyncing;
  frameProverTries := [ {[ "prover" ]} ];
  provingKey := "key";
  provingKeyAddress := "address";
  filter := "filter";
  difficulty := diff;
  calls := []
|}.

(** A peer's answer that carries [frame]. *)
Definition answer (frame : ClockFrame) : GetDataFrameResult :=
  RpcReturned (Some {| df_ClockFrame := Some frame; df_Proof := "" |}).

(** A call of [sync] whose channel opens and whose peer gives [answers]. *)
Definition session (answers : list GetDataFrameResult) : SyncSession :=
  {| dialError := None; replies := answers; closeError := None;
     demotedAt := 9000 |}.

Definition onePeer : gmap string peerInfo := {[ "peer1" := peer "peer1" 8 ]}.

Definition twoPeers : gmap string peerInfo :=
  {[ "peer1" := peer "peer1" 8; "peer2" := peer "peer2" 11 ]}.

(** A peer map with a peer that is behind, a peer of an old version, a peer
    heard of before the cutoff and a peer that was demoted. *)
Definition manyPeers : gmap string peerInfo :=
  {[ "peer1" := peer "peer1" 8;
     "peer2" := peer "peer2" 11;
     "behind" := peer "behind" 4;
     "old" := {| peerId := "old"; maxFrame := 9; timestamp := 2000;
                 version := "201" |};
     "stale" := {| peerId := "stale"; maxFrame := 9; timestamp := 1000;
                   version := "202" |};
     "demoted" := peer "demoted" 12 ]}.

Definition registry : @DataClockConsensusEngine tokenApplication := {|
  lastProven := 0;
  stagedTransactions := None;
  stagedTransactionsMx := false;
  latestFrameReceived := 0;
  peerMap := manyPeers;
  uncooperativePeersMap := {[ "demoted" := peer "demoted" 12 ]};
  syncingStatus := SyncStatusNotSyncing;
  frameProverTries := [ {[ "prover" ]} ];
  provingKey := "key";
  provingKeyAddress := "address";
  filter := "filter";
  difficulty := 1;
  calls := []
|}.

(** A frame by the prover, with a proof the verifier accepts. *)
Definition goodFrame (n : Z) : ClockFrame := frameAt n "prover" "vdf".

(** A node at frame 5 that has heard of one peer at frame 8. *)
Definition node : @DataClockConsensusEngine tokenApplication :=
  engine 0 1 onePeer.

(** The peer hands over frames 6, 7 and 8. *)
Definition threeFrames : SyncSession :=
  session [answer (goodFrame 6); answer (goodFrame 7); answer (goodFrame 8)].

(** Frame 6 is by a producer that is no prover; frame 7 is by the prover. *)
Definition strangerFirst : SyncSession :=
  session [answer (frameAt 6 "stranger" "vdf"); answer (goodFrame 7)].

(** The only response is nil. *)
Definition nilFirst : SyncSession := session [RpcReturned None].


(** A peer whose frame 6 has an empty output, which the verifier refuses. *)
Definition badProof (n : nat) : SyncSession :=
  session [answer (frameAt 6 "prover" "")].

(** The frame number a call returned, when it returned a frame. *)
Definition returnedFrameNumber (r : outcome GoResult) : option Z :=
  match r with
  | Returns (Some frame, _) => Some (FrameNumber frame)
  | _ => None
  end.

Definition returnedError (r : outcome GoResult) : option error :=
  match r with
  | Returns (_, err) => err
  | Panics => None
  end.

End Scenario.

(** * More of the two files

    ** The overlay: namespace, settings and resource limits
    ([blossomsub.go]) *)

Module Overlay.

Definition ANNOUNCE_PREFIX : string := "quilibrium-2.0.2-dusk-".

(** [fmt.Sprintf("network-%d", network)] prints the [uint8] in decimal. *)
Definition getNetworkNamespace (network : Z) : string :=
  let network_name :=
    if network =? 0 then "mainnet"
    else if network =? 1 then "testnet-primary"
    else "network-" +:+ pretty network in
  ANNOUNCE_PREFIX +:+ network_name.

(** ** Overlay settings ([blossomsub.go])

    [config.P2PConfig] is declared in package [config]; the fields here are
    those that [blossomsub.go] reads.  The tunables are integers: counts, or
    a [time.Duration] in nanoseconds. *)
Record P2PConfig : Type := {
  ListenMultiaddr : string;
  PeerPrivKey : string;
  TraceLogFile : string;
  Network : Z;                         (* uint8 *)
  BootstrapPeers : list string;
  DirectPeers : list string;
  D : Z;
  DLo : Z;
  DHi : Z;
  DScore : Z;
  DOut : Z;
  HistoryLength : Z;
  HistoryGossip : Z;
  DLazy : Z;
  GossipRetransmission : Z;
  HeartbeatInitialDelay : Z;
  HeartbeatInterval : Z;
  FanoutTTL : Z;
  PrunePeers : Z;
  PruneBackoff : Z;
  UnsubscribeBackoff : Z;
  Connectors : Z;
  MaxPendingConnections : Z;
  ConnectionTimeout : Z;
  DirectConnectTicks : Z;
  DirectConnectInitialDelay : Z;
  OpportunisticGraftTicks : Z;
  OpportunisticGraftPeers : Z;
  GraftFloodThreshold : Z;
  MaxIHaveLength : Z;
  MaxIHaveMessages : Z;
  IWantFollowupTime : Z;
  LowWatermarkConnections : Z;
  HighWatermarkConnections : Z;
  MinBootstrapPeers : Z;
  BootstrapParallelism : Z;
  DiscoveryParallelism : Z;
  DiscoveryPeerLookupLimit : Z;
  PingTimeout : Z;
  PingPeriod : Z;
  PingAttempts : Z;
  ValidateQueueSize : Z;
  ValidateWorkers : Z
}.

(** The defaults that package [blossomsub] exports, and
    [qruntime.WorkerCount]. *)
Class BlossomSubDefaults : Type := {
  BlossomSubD : Z;
  BlossomSubDlo : Z;
  BlossomSubDhi : Z;
  BlossomSubDscore : Z;
  BlossomSubDout : Z;
  BlossomSubHistoryLength : Z;
  BlossomSubHistoryGossip : Z;
  BlossomSubDlazy : Z;
  BlossomSubGossipRetransmission : Z;
  BlossomSubHeartbeatInitialDelay : Z;
  BlossomSubHeartbeatInterval : Z;
  BlossomSubFanoutTTL : Z;
  BlossomSubPrunePeers : Z;
  BlossomSubPruneBackoff : Z;
  BlossomSubUnsubscribeBackoff : Z;
  BlossomSubConnectors : Z;
  BlossomSubMaxPendingConnections : Z;
  BlossomSubConnectionTimeout : Z;
  BlossomSubDirectConnectTicks : Z;
  BlossomSubDirectConnectInitialDelay : Z;
  BlossomSubOpportunisticGraftTicks : Z;
  BlossomSubOpportunisticGraftPeers : Z;
  BlossomSubGraftFloodThreshold : Z;
  BlossomSubMaxIHaveLength : Z;
  BlossomSubMaxIHaveMessages : Z;
  BlossomSubIWantFollowupTime : Z;
  DefaultValidateQueueSize : Z;
  WorkerCount : Z -> bool -> Z
}.

Definition second : Z := 1000000000.    (* time.Second, in nanoseconds *)

Definition defaultLowWatermarkConnections : Z := 160.
Definition defaultHighWatermarkConnections : Z := 192.
Definition defaultMinBootstrapPeers : Z := 3.
Definition defaultBootstrapParallelism : Z := 10.
Definition defaultDiscoveryParallelism : Z := 50.
Definition defaultDiscoveryPeerLookupLimit : Z := 1000.
Definition defaultPingTimeout : Z := 5 * second.
Definition defaultPingPeriod : Z := 30 * second.
Definition defaultPingAttempts : Z := 3.

(** [if p2pConfig.X == 0 { p2pConfig.X = d }] *)
Definition orDefault (d x : Z) : Z := if x =? 0 then d else x.

(** [withDefaults] works on a copy and returns it. *)
Definition withDefaults `{BlossomSubDefaults} (p2pConfig : P2PConfig)
  : P2PConfig :=
  {| ListenMultiaddr := ListenMultiaddr p2pConfig;
     PeerPrivKey := PeerPrivKey p2pConfig;
     TraceLogFile := TraceLogFile p2pConfig;
     Network := Network p2pConfig;
     BootstrapPeers := BootstrapPeers p2pConfig;
     DirectPeers := DirectPeers p2pConfig;
     D := orDefault BlossomSubD (D p2pConfig);
     DLo := orDefault BlossomSubDlo (DLo p2pConfig);
     DHi := orDefault BlossomSubDhi (DHi p2pConfig);
     DScore := orDefault BlossomSubDscore (DScore p2pConfig);
     DOut := orDefault BlossomSubDout (DOut p2pConfig);
     HistoryLength := orDefault BlossomSubHistoryLength (HistoryLength p2pConfig);
     HistoryGossip := orDefault BlossomSubHistoryGossip (HistoryGossip p2pConfig);
     DLazy := orDefault BlossomSubDlazy (DLazy p2pConfig);
     GossipRetransmission := orDefault BlossomSubGossipRetransmission (GossipRetransmission p2pConfig);
     HeartbeatInitialDelay := orDefault BlossomSubHeartbeatInitialDelay (HeartbeatInitialDelay p2pConfig);
     HeartbeatInterval := orDefault BlossomSubHeartbeatInterval (HeartbeatInterval p2pConfig);
     FanoutTTL := orDefault BlossomSubFanoutTTL (FanoutTTL p2pConfig);
     PrunePeers := orDefault BlossomSubPrunePeers (PrunePeers p2pConfig);
     PruneBackoff := orDefault BlossomSubPruneBackoff (PruneBackoff p2pConfig);
     UnsubscribeBackoff := orDefault BlossomSubUnsubscribeBackoff (UnsubscribeBackoff p2pConfig);
     Connectors := orDefault BlossomSubConnectors (Connectors p2pConfig);
     MaxPendingConnections := orDefault BlossomSubMaxPendingConnections (MaxPendingConnections p2pConfig);
     ConnectionTimeout := orDefault BlossomSubConnectionTimeout (ConnectionTimeout p2pConfig);
     DirectConnectTicks := orDefault BlossomSubDirectConnectTicks (DirectConnectTicks p2pConfig);
     DirectConnectInitialDelay := orDefault BlossomSubDirectConnectInitialDelay (DirectConnectInitialDelay p2pConfig);
     OpportunisticGraftTicks := orDefault BlossomSubOpportunisticGraftTicks (OpportunisticGraftTicks p2pConfig);
     OpportunisticGraftPeers := orDefault BlossomSubOpportunisticGraftPeers (OpportunisticGraftPeers p2pConfig);
     GraftFloodThreshold := orDefault BlossomSubGraftFloodThreshold (GraftFloodThreshold p2pConfig);
     MaxIHaveLength := orDefault BlossomSubMaxIHaveLength (MaxIHaveLength p2pConfig);
     MaxIHaveMessages := orDefault BlossomSubMaxIHaveMessages (MaxIHaveMessages p2pConfig);
     IWantFollowupTime := orDefault BlossomSubIWantFollowupTime (IWantFollowupTime p2pConfig);
     LowWatermarkConnections := orDefault defaultLowWatermarkConnections (LowWatermarkConnections p2pConfig);
     HighWatermarkConnections := orDefault defaultHighWatermarkConnections (HighWatermarkConnections p2pConfig);
     MinBootstrapPeers := orDefault defaultMinBootstrapPeers (MinBootstrapPeers p2pConfig);
     BootstrapParallelism := orDefault defaultBootstrapParallelism (BootstrapParallelism p2pConfig);
     DiscoveryParallelism := orDefault defaultDiscoveryParallelism (DiscoveryParallelism p2pConfig);
     DiscoveryPeerLookupLimit := orDefault defaultDiscoveryPeerLookupLimit (DiscoveryPeerLookupLimit p2pConfig);
     PingTimeout := orDefault defaultPingTimeout (PingTimeout p2pConfig);
     PingPeriod := orDefault defaultPingPeriod (PingPeriod p2pConfig);
     PingAttempts := orDefault defaultPingAttempts (PingAttempts p2pConfig);
     ValidateQueueSize := orDefault DefaultValidateQueueSize (ValidateQueueSize p2pConfig);
     ValidateWorkers := orDefault (WorkerCount 0 false) (ValidateWorkers p2pConfig) |}.

(** The tunables, each with the default that [withDefaults] gives it. *)
Definition tunables `{BlossomSubDefaults} : list ((P2PConfig -> Z) * Z) :=
  [ (D, BlossomSubD);
    (DLo, BlossomSubDlo);
    (DHi, BlossomSubDhi);
    (DScore, BlossomSubDscore);
    (DOut, BlossomSubDout);
    (HistoryLength, BlossomSubHistoryLength);
    (HistoryGossip, BlossomSubHistoryGossip);
    (DLazy, BlossomSubDlazy);
    (GossipRetransmission, BlossomSubGossipRetransmission);
    (HeartbeatInitialDelay, BlossomSubHeartbeatInitialDelay);
    (HeartbeatInterval, BlossomSubHeartbeatInterval);
    (FanoutTTL, BlossomSubFanoutTTL);
    (PrunePeers, BlossomSubPrunePeers);
    (PruneBackoff, BlossomSubPruneBackoff);
    (UnsubscribeBackoff, BlossomSubUnsubscribeBackoff);
    (Connectors, BlossomSubConnectors);
    (MaxPendingConnections, BlossomSubMaxPendingConnections);
    (ConnectionTimeout, BlossomSubConnectionTimeout);
    (DirectConnectTicks, BlossomSubDirectConnectTicks);
    (DirectConnectInitialDelay, BlossomSubDirectConnectInitialDelay);
    (OpportunisticGraftTicks, BlossomSubOpportunisticGraftTicks);
    (OpportunisticGraftPeers, BlossomSubOpportunisticGraftPeers);
    (GraftFloodThreshold, BlossomSubGraftFloodThreshold);
    (MaxIHaveLength, BlossomSubMaxIHaveLength);
    (MaxIHaveMessages, BlossomSubMaxIHaveMessages);
    (IWantFollowupTime, BlossomSubIWantFollowupTime);
    (LowWatermarkConnections, defaultLowWatermarkConnections);
    (HighWatermarkConnections, defaultHighWatermarkConnections);
    (MinBootstrapPeers, defaultMinBootstrapPeers);
    (BootstrapParallelism, defaultBootstrapParallelism);
    (DiscoveryParallelism, defaultDiscoveryParallelism);
    (DiscoveryPeerLookupLimit, defaultDiscoveryPeerLookupLimit);
    (PingTimeout, defaultPingTimeout);
    (PingPeriod, defaultPingPeriod);
    (PingAttempts, defaultPingAttempts);
    (ValidateQueueSize, DefaultValidateQueueSize);
    (ValidateWorkers, WorkerCount 0 false) ].

(** Lines 263-264 of [NewBlossomSub]: the connection manager and the
    resource manager are set up unless a watermark is [-1]. *)
Definition managesConnections (p2pConfig : P2PConfig) : bool :=
  negb (LowWatermarkConnections p2pConfig =? -1)
  && negb (HighWatermarkConnections p2pConfig =? -1).

(** ** Resource limits ([resourceManager])

    [rcmgr.LimitVal] is an [int] and [uint] has 64 bits, as on the
    platforms the node is built for.  A limit of 0 is [rcmgr.DefaultLimit]:
    the default is not changed. *)
Record ResourceLimits : Type := {
  Streams : Z;
  StreamsInbound : Z;
  StreamsOutbound : Z;
  Conns : Z;
  ConnsInbound : Z;
  ConnsOutbound : Z;
  FD : Z;
  Memory : Z                          (* LimitVal64 *)
}.

(** The scopes of [rcmgr.PartialLimitConfig] that [resourceManager] sets. *)
Record PartialLimitConfig : Type := {
  System : ResourceLimits;
  ServiceDefault : ResourceLimits;
  ProtocolDefault : ResourceLimits
}.

(** [bits.Len(x)]: the number of bits needed to write [x]; 0 for 0. *)
Definition bits_Len (x : Z) : Z := if x =? 0 then 0 else Z.log2 x + 1.

(** [rcmgr.LimitVal(1 << bits.Len(k*maxconns))]: the product is a [uint],
    the shift is done in [LimitVal]. *)
Definition limitFor (k maxconns : Z) : Z :=
  int64_wrap (2 ^ bits_Len (uint64_wrap (k * maxconns))).

(** Lines 505-545: [changes], from the high watermark and the [System] scope
    of [defaultLimitConfig.ToPartialLimitConfig()]. *)
Definition limitChanges (highWatermark : Z) (defaults : ResourceLimits)
  : PartialLimitConfig :=
  let memory := if 2 * 2 ^ 30 <? Memory defaults then 2 * 2 ^ 30 else 0 in
  let maxconns := uint64_wrap highWatermark in
  if ConnsInbound defaults <? int64_wrap (uint64_wrap (3 * maxconns)) then
    {| System :=
         {| Streams := limitFor 216 maxconns;
            StreamsInbound := limitFor 36 maxconns;
            StreamsOutbound := limitFor 216 maxconns;
            Conns := limitFor 6 maxconns;
            ConnsInbound := limitFor 3 maxconns;
            ConnsOutbound := limitFor 3 maxconns;
            FD := if FD defaults <? int64_wrap (uint64_wrap (3 * maxconns))
                  then limitFor 3 maxconns else 0;
            Memory := memory |};
       ServiceDefault :=
         {| Streams := limitFor 48 maxconns;
            StreamsInbound := limitFor 12 maxconns;
            StreamsOutbound := limitFor 48 maxconns;
            Conns := 0; ConnsInbound := 0; ConnsOutbound := 0;
            FD := 0; Memory := 0 |};
       ProtocolDefault :=
         {| Streams := limitFor 48 maxconns;
            StreamsInbound := limitFor 12 maxconns;
            StreamsOutbound := limitFor 48 maxconns;
            Conns := 0; ConnsInbound := 0; ConnsOutbound := 0;
            FD := 0; Memory := 0 |} |}
  else
    {| System :=
         {| Streams := 0; StreamsInbound := 0; StreamsOutbound := 0;
            Conns := 0; ConnsInbound := 0; ConnsOutbound := 0;
            FD := 0; Memory := memory |};
       ServiceDefault :=
         {| Streams := 0; StreamsInbound := 0; StreamsOutbound := 0;
            Conns := 0; ConnsInbound := 0; ConnsOutbound := 0;
            FD := 0; Memory := 0 |};
       ProtocolDefault :=
         {| Streams := 0; StreamsInbound := 0; StreamsOutbound := 0;
            Conns := 0; ConnsInbound := 0; ConnsOutbound := 0;
            FD := 0; Memory := 0 |} |}.

End Overlay.

Module Bootstrap.

Import Overlay.

(** ** Bootstrap peers and the DHT ([NewBlossomSub], [initDHT]) *)

Record AddrInfo : Type := {
  ID : string;                        (* peer.ID *)
  Addrs : list string
}.

(** [peer.AddrInfoFromString] and the list [config.BootstrapPeers], neither
    of them part of the files embedded here. *)
Class PeerAddresses : Type := {
  AddrInfoFromString : string -> res AddrInfo;
  config_BootstrapPeers : list string
}.

Section WithAddresses.

Context `{PeerAddresses}.

(** Lines 194-204 and 206-216: the loop that looks for the node's own peer
    ID among the bootstrap peers; a malformed address met on the way
    panics. *)
Fixpoint findBootstrapPeer (peerId : string) (addrs : list string)
  : outcome bool :=
  match addrs with
  | [] => Returns false
  | peerAddr :: rest =>
      match AddrInfoFromString peerAddr with
      | Failed _ => Panics
      | Ok peerinfo =>
          if String.eqb (ID peerinfo) peerId then Returns true
          else findBootstrapPeer peerId rest
      end
  end.

(** Lines 227-234: every bootstrap address is parsed. *)
Fixpoint parseBootstrappers (addrs : list string) : outcome (list AddrInfo) :=
  match addrs with
  | [] => Returns []
  | peerAddr :: rest =>
      match AddrInfoFromString peerAddr with
      | Failed _ => Panics
      | Ok peerinfo =>
          match parseBootstrappers rest with
          | Panics => Panics
          | Returns infos => Returns (peerinfo :: infos)
          end
      end
  end.

(** Lines 190-234 of [NewBlossomSub], after [getPeerID] has given [peerId]:
    [isBootstrapPeer] and [bootstrappers]. *)
Definition bootstrapSetup (peerId : string) (p2pConfig : P2PConfig)
  : outcome (bool * list AddrInfo) :=
  let found :=
    if Network p2pConfig =? 0
    then findBootstrapPeer peerId config_BootstrapPeers
    else findBootstrapPeer peerId (BootstrapPeers p2pConfig) in
  match found with
  | Panics => Panics
  | Returns isBootstrapPeer =>
      let defaultBootstrapPeers :=
        if Network p2pConfig =? 0 then config_BootstrapPeers
        else BootstrapPeers p2pConfig in
      match parseBootstrappers defaultBootstrapPeers with
      | Panics => Panics
      | Returns bootstrappers => Returns (isBootstrapPeer, bootstrappers)
      end
  end.

End WithAddresses.

Inductive ModeOpt : Type := ModeServer | ModeClient.

(** The options that [initDHT] hands to [dht.New]. *)
Record DHTOptions : Type := {
  Mode : ModeOpt;
  DHTBootstrapPeers : list AddrInfo;
  ProtocolPrefix : option string
}.

(** Lines 721-733 of [initDHT]. *)
Definition initDHT (isBootstrapPeer : bool) (bootstrappers : list AddrInfo)
  (network : Z) : DHTOptions :=
  {| Mode := if isBootstrapPeer || negb (network =? 0)
             then ModeServer else ModeClient;
     DHTBootstrapPeers := bootstrappers;
     ProtocolPrefix := if negb (network =? 0) then Some "/testnet" else None |}.

End Bootstrap.

(** ** Reading scores, weights and roundings *)

(** The score a peer would have if scores were unbounded integers: the last
    value set for it (or the starting score) plus all that was added
    since. *)
Definition exactScore (start : Z) (ops : list P2P.score_op) (p : string) : Z :=
  foldl (fun acc o =>
           if decide (P2P.op_peer o = p)
           then match o with
                | P2P.OpSet _ s => s
                | P2P.OpAdd _ d => acc + d
                end
           else acc) start ops.

(** The [maxDiff] of [GetAheadPeers]: the largest lead of an eligible peer. *)
Definition largestLead `{TokenApplicationPkg} `{NodeConfig} (head : Z)
  (e : DataClockConsensusEngine) : Z :=
  foldr Z.max 0
    (map (fun v => uint64_sub (maxFrame v) head) (aheadPeers head e)).

(** [mrs] holds [N] in units of [Y]: [2 * N = m * 2Y + r * Y + t] with
    [0 <= t < Y], and the sticky bit says whether [t] is not zero. *)
Definition roundedAt (Y N : Z) (mrs : shr_record) : Prop :=
  0 <= shr_m mrs /\
  exists t, 0 <= t < Y /\
    2 * N = shr_m mrs * (2 * Y) + (if shr_r mrs then Y else 0) + t /\
    (shr_s mrs = true <-> t <> 0).

Module Bitmasks.

(** ** Subscriptions ([Subscribe], [Unsubscribe])

    A [*blossomsub.Bitmask] is a handle of the pub/sub library: [handle]
    tells two handles apart, [Bitmask()] gives its bytes, and [Subscribe()]
    gives a subscription or fails. *)
Record Bitmask : Type := {
  handle : nat;
  bitmaskBytes : string;              (* Bitmask() *)
  subscribeResult : res nat           (* Subscribe(): a subscription *)
}.

(** What [Subscribe] and [Unsubscribe] touch of a [BlossomSub]: the map of
    handles, and the subscriptions that a goroutine reads from. *)
Record Subscriptions : Type := {
  bitmaskMap : gmap string Bitmask;
  readers : list nat
}.

(** Lines 610-622: the loop over the joined handles.  A handle is recorded
    under its bytes unless the key is taken. *)
Fixpoint subscribeAll (bits : list Bitmask) (known : gmap string Bitmask)
  (subs : list nat) : gmap string Bitmask * res (list nat) :=
  match bits with
  | [] => (known, Ok subs)
  | bit :: rest =>
      match subscribeResult bit with
      | Failed err => (known, Failed (Wrap err "subscribe"))
      | Ok sub =>
          let known :=
            match known !! bitmaskBytes bit with
            | Some _ => known
            | None => <[bitmaskBytes bit := bit]> known
            end in
          subscribeAll rest known (subs ++ [sub])
      end
  end.

(** [joined] is what [b.ps.Join(bitmask)] answers.  The readers are started
    after the loop, one for each subscription. *)
Definition Subscribe (joined : res (list Bitmask)) (b : Subscriptions)
  : Subscriptions * option error :=
  match joined with
  | Failed err => (b, Some (Wrap err "subscribe"))
  | Ok bm =>
      match subscribeAll bm (bitmaskMap b) [] with
      | (known, Failed err) =>
          ({| bitmaskMap := known; readers := readers b |}, Some err)
      | (known, Ok subs) =>
          ({| bitmaskMap := known; readers := readers b ++ subs |}, None)
      end
  end.

(** [append([]byte{b.network}, bitmask...)] *)
Definition networkBitmask (network : Z) (bitmask : string) : string :=
  String (Ascii.ascii_of_N (Z.to_N network)) bitmask.

(** [Unsubscribe] answers the handle it closes, if any; the flag [raw] is
    not read. *)
Definition Unsubscribe (network : Z) (bitmask : string) (raw : bool)
  (b : Subscriptions) : Subscriptions * option Bitmask :=
  (b, bitmaskMap b !! networkBitmask network bitmask).

End Bitmasks.

Module DirectChannel.

(** ** Direct channels ([GetDirectChannel], [extraCloseConn]) *)

(** [network.Connectedness] *)
Inductive Connectedness : Type :=
  | NotConnected | Connected | CanConnect | CannotConnect | Limited.

(** What the dialer and [Close] do to the host and to the stream. *)
Inductive HostCall : Type :=
  | HostConnect (id : string)                       (* b.h.Connect *)
  | StreamDial (id : string) (protocol : string)    (* gostream.Dial *)
  | ConnClose                                       (* c.Conn.Close *)
  | HostClosePeer (id : string).                    (* b.h.Network().ClosePeer *)

(** The [net.Conn] that the dialer hands to gRPC: the stream itself, or an
    [extraCloseConn] around it whose [extraClose] closes the peer. *)
Inductive DirectConn : Type :=
  | Stream
  | ExtraCloseConn (id : string).

(** Lines 899-931: the dialer that [GetDirectChannel] gives to gRPC.
    [idString] is [id.String()]; [connect] and [dial] are what [b.h.Connect]
    and [gostream.Dial] answer. *)
Definition dialer (idString : string) (id purpose : string)
  (connectedness : Connectedness) (connect dial : option error)
  : list HostCall * res DirectConn :=
  let alreadyConnected :=
    match connectedness with
    | Connected | Limited => true
    | _ => false
    end in
  let protocol := "/p2p/direct-channel/" +:+ idString +:+ purpose in
  let connected :=
    if alreadyConnected then ([], None)
    else ([HostConnect id], connect) in
  match snd connected with
  | Some err => (fst connected, Failed (Wrap err "connect"))
  | None =>
      match dial with
      | Some err =>
          (fst connected ++ [StreamDial id protocol],
           Failed (Wrap err "dial direct channel"))
      | None =>
          (fst connected ++ [StreamDial id protocol],
           Ok (if alreadyConnected then Stream else ExtraCloseConn id))
      end
  end.

(** [Close] of what the dialer returned; lines 877-881 for an
    [extraCloseConn].  [closed] is what [Conn.Close] answers. *)
Definition Close (c : DirectConn) (closed : option error)
  : list HostCall * option error :=
  match c with
  | Stream => ([ConnClose], closed)
  | ExtraCloseConn id => ([ConnClose; HostClosePeer id], closed)
  end.

End DirectChannel.

(** ** More cases for the small node *)

Module Cases.

Import Scenario Overlay Bootstrap.

(** A frame prover whose frames have an empty input. *)
Definition shortInputProver : FrameProver := {|
  ProveDataClockFrame prev witness aggregates key now diff :=
    Ok {| Filter := Filter prev;
          FrameNumber := uint64_add (FrameNumber prev) 1;
          Timestamp := now;
          Difficulty := diff;
          Input := "";
          Output := "vdf";
          AggregateProofs := aggregates;
          PublicKeySignatureEd448 := signedBy key |};
  VerifyDataClockFrame frame := None
|}.

(** Frame [n] without a signature. *)
Definition unsignedFrame (n : Z) : ClockFrame := {|
  Filter := "filter";
  FrameNumber := n;
  Timestamp := 1000 * n;
  Difficulty := 1;
  Input := zeroBytes 516;
  Output := "vdf";
  AggregateProofs := [];
  PublicKeySignatureEd448 := None
|}.

Definition unsignedFirst : SyncSession := session [answer (unsignedFrame 6)].

(** A peer that cannot be dialled. *)
Definition unreachable : SyncSession :=
  {| dialError := Some (ErrorString "no route"); replies := [];
     closeError := None; demotedAt := 9000 |}.

(** Frame 6, then a request that times out. *)
Definition brokenStream : SyncSession :=
  session [answer (goodFrame 6); RpcFailed (ErrorString "deadline exceeded")].

(** The node of [Scenario], as one of the provers. *)
Definition leader : @DataClockConsensusEngine tokenApplication := {|
  lastProven := 0;
  stagedTransactions := Some staged;
  stagedTransactionsMx := false;
  latestFrameReceived := 0;
  peerMap := onePeer;
  uncooperativePeersMap := ∅;
  syncingStatus := SyncStatusNotSyncing;
  frameProverTries := [ {[ "prover" ]} ];
  provingKey := "key";
  provingKeyAddress := "prover";
  filter := "filter";
  difficulty := 1;
  calls := []
|}.

(** An engine without a proving key: the application cannot be
    materialised. *)
Definition keyless : @DataClockConsensusEngine tokenApplication := {|
  lastProven := 3;
  stagedTransactions := Some staged;
  stagedTransactionsMx := false;
  latestFrameReceived := 0;
  peerMap := ∅;
  uncooperativePeersMap := ∅;
  syncingStatus := SyncStatusNotSyncing;
  frameProverTries := [ {[ "prover" ]} ];
  provingKey := "";
  provingKeyAddress := "address";
  filter := "filter";
  difficulty := 1;
  calls := []
|}.

(** The default system limits of a small machine. *)
Definition smallMachine : ResourceLimits := {|
  Streams := 4096; StreamsInbound := 2048; StreamsOutbound := 4096;
  Conns := 256; ConnsInbound := 128; ConnsOutbound := 256;
  FD := 512; Memory := 2 ^ 32
|}.

(** Addresses that name their peer; the empty address does not parse. *)
Definition addresses : PeerAddresses := {|
  AddrInfoFromString a :=
    if String.eqb a "" then Failed (ErrorString "invalid p2p multiaddr")
    else Ok {| ID := a; Addrs := [a] |};
  config_BootstrapPeers := ["boot1"; "boot2"]
|}.

(** A configuration that sets nothing but the network and its bootstrap
    peers. *)
Definition bare (network : Z) (peers : list string) : P2PConfig :=
  {| ListenMultiaddr := "/ip4/0.0.0.0/udp/8336/quic-v1";
     PeerPrivKey := "";
     TraceLogFile := "";
     Network := network;
     BootstrapPeers := peers;
     DirectPeers := [];
     D := 0;
     DLo := 0;
     DHi := 0;
     DScore := 0;
     DOut := 0;
     HistoryLength := 0;
     HistoryGossip := 0;
     DLazy := 0;
     GossipRetransmission := 0;
     HeartbeatInitialDelay := 0;
     HeartbeatInterval := 0;
     FanoutTTL := 0;
     PrunePeers := 0;
     PruneBackoff := 0;
     UnsubscribeBackoff := 0;
     Connectors := 0;
     MaxPendingConnections := 0;
     ConnectionTimeout := 0;
     DirectConnectTicks := 0;
     DirectConnectInitialDelay := 0;
     OpportunisticGraftTicks := 0;
     OpportunisticGraftPeers := 0;
     GraftFloodThreshold := 0;
     MaxIHaveLength := 0;
     MaxIHaveMessages := 0;
     IWantFollowupTime := 0;
     LowWatermarkConnections := 0;
     HighWatermarkConnections := 0;
     MinBootstrapPeers := 0;
     BootstrapParallelism := 0;
     DiscoveryParallelism := 0;
     DiscoveryPeerLookupLimit := 0;
     PingTimeout := 0;
     PingPeriod := 0;
     PingAttempts := 0;
     ValidateQueueSize := 0;
     ValidateWorkers := 0 |}.

End Cases.

(** * Theorems *)

(** ** Machine integers *)

Lemma uint64_wrap_id z : is_uint64 z -> uint64_wrap z = z.
Proof. unfold is_uint64, uint64_wrap. intros Hz. apply Z.mod_small. lia. Qed.

Lemma uint64_wrap_range z : is_uint64 (uint64_wrap z).
Proof. unfold is_uint64, uint64_wrap. apply Z.mod_pos_bound. lia. Qed.

Lemma int64_wrap_id z : is_int64 z -> int64_wrap z = z.
Proof.
  unfold is_int64, int64_wrap. intros Hz.
  rewrite Z.mod_small by lia. lia.
Qed.

Lemma int64_wrap_range z : is_int64 (int64_wrap z).
Proof.
  unfold is_int64, int64_wrap.
  pose proof (Z.mod_pos_bound (z + 2 ^ 63) (2 ^ 64)). lia.
Qed.

(** ** Peer scores *)

Section PeerScores.

Import P2P.

Implicit Types (b : BlossomSub) (p q : string) (s d : Z).

Lemma GetPeerScore_Set b p s : GetPeerScore (SetPeerScore b p s) p = s.
Proof. unfold GetPeerScore, SetPeerScore; simpl. by rewrite lookup_insert_eq. Qed.

Lemma GetPeerScore_Set_other b p q s :
  p <> q -> GetPeerScore (SetPeerScore b p s) q = GetPeerScore b q.
Proof.
  intros Hpq. unfold GetPeerScore, SetPeerScore; simpl.
  by rewrite lookup_insert_ne.
Qed.

Lemma GetPeerScore_Add_absent b p d :
  peerScore b !! p = None -> GetPeerScore (AddPeerScore b p d) p = d.
Proof.
  intros Hp. unfold GetPeerScore, AddPeerScore. rewrite Hp; simpl.
  by rewrite lookup_insert_eq.
Qed.

Lemma GetPeerScore_Add_present b p d old :
  peerScore b !! p = Some old ->
  GetPeerScore (AddPeerScore b p d) p = int64_add old d.
Proof.
  intros Hp. unfold GetPeerScore, AddPeerScore. rewrite Hp; simpl.
  by rewrite lookup_insert_eq.
Qed.

Lemma GetPeerScore_Add_other b p q d :
  p <> q -> GetPeerScore (AddPeerScore b p d) q = GetPeerScore b q.
Proof.
  intros Hpq. unfold GetPeerScore, AddPeerScore.
  destruct (peerScore b !! p); simpl; by rewrite lookup_insert_ne.
Qed.

Lemma GetPeerScore_apply_op_other b o q :
  op_peer o <> q -> GetPeerScore (apply_op b o) q = GetPeerScore b q.
Proof.
  destruct o; simpl; intros Hq.
  - by apply GetPeerScore_Set_other.
  - by apply GetPeerScore_Add_other.
Qed.

Lemma GetPeerScore_untouched ops : forall b q,
  Forall (fun o => op_peer o <> q) ops ->
  GetPeerScore (apply_ops b ops) q = GetPeerScore b q.
Proof.
  induction ops as [|o ops IH]; intros b q Hops; [done|].
  inversion Hops as [|? ? Ho Hrest]; subst.
  unfold apply_ops in *. simpl. rewrite IH by done.
  by apply GetPeerScore_apply_op_other.
Qed.

(** C10.  The peer score operations are total and behave as [int64] counters
    in which an absent peer reads as zero: a peer that no [SetPeerScore] or
    [AddPeerScore] of the history names has score 0; [GetPeerScore] after
    [SetPeerScore p s] is [s]; and [AddPeerScore p d] leaves the previous
    score (0 for an absent peer) plus [d], the sum being Go's [int64] sum,
    which is the exact sum whenever that fits 64 bits. *)
Theorem peer_score_counters ops net b p s d :
  Forall (fun o => op_peer o <> p) ops ->
  is_int64 d ->
  GetPeerScore (apply_ops (newBlossomSub net) ops) p = 0 /\
  GetPeerScore (SetPeerScore b p s) p = s /\
  GetPeerScore (AddPeerScore b p d) p = int64_add (GetPeerScore b p) d /\
  (is_int64 (GetPeerScore b p + d) ->
   GetPeerScore (AddPeerScore b p d) p = GetPeerScore b p + d).
Proof.
  intros Hops Hd.
  assert (Hadd : GetPeerScore (AddPeerScore b p d) p
                 = int64_add (GetPeerScore b p) d).
  { destruct (peerScore b !! p) as [old|] eqn:Hp.
    - rewrite (GetPeerScore_Add_present _ _ _ _ Hp).
      unfold GetPeerScore. by rewrite Hp.
    - rewrite (GetPeerScore_Add_absent _ _ _ Hp).
      unfold GetPeerScore. rewrite Hp. simpl.
      unfold int64_add. by rewrite int64_wrap_id. }
  split; [|split; [|split]].
  - rewrite GetPeerScore_untouched by done.
    unfold GetPeerScore, newBlossomSub; simpl. by rewrite lookup_empty.
  - apply GetPeerScore_Set.
  - exact Hadd.
  - intros Hfit. rewrite Hadd. unfold int64_add. by apply int64_wrap_id.
Qed.

(** A history that never names ["carol"], then a score set and raised. *)
Lemma peer_score_counters_witness :
  GetPeerScore
    (apply_ops (newBlossomSub 0) [OpSet "alice" 5; OpAdd "bob" (-3)])
    "carol" = 0 /\
  GetPeerScore (SetPeerScore (newBlossomSub 0) "carol" 7) "carol" = 7 /\
  GetPeerScore
    (AddPeerScore (SetPeerScore (newBlossomSub 0) "carol" 7) "carol" 4)
    "carol"
  = int64_add (GetPeerScore (SetPeerScore (newBlossomSub 0) "carol" 7) "carol")
      4 /\
  (is_int64
     (GetPeerScore (SetPeerScore (newBlossomSub 0) "carol" 7) "carol" + 4) ->
   GetPeerScore
     (AddPeerScore (SetPeerScore (newBlossomSub 0) "carol" 7) "carol" 4)
     "carol"
   = GetPeerScore (SetPeerScore (newBlossomSub 0) "carol" 7) "carol" + 4).
Proof.
  apply (peer_score_counters [OpSet "alice" 5; OpAdd "bob" (-3)] 0
           (SetPeerScore (newBlossomSub 0) "carol" 7) "carol" 7 4).
  - repeat constructor; simpl; discriminate.
  - unfold is_int64. lia.
Defined.

End PeerScores.

(** ** The call log *)

Section CallLog.

Context `{TokenApplicationPkg}.

Implicit Types (e : DataClockConsensusEngine) (c : Call) (cs tr : list Call).

Lemma set_calls_id e : set_calls (calls e) e = e.
Proof. by destruct e. Qed.

Lemma set_calls_nil e : set_calls (calls e ++ []) e = e.
Proof. rewrite app_nil_r. apply set_calls_id. Qed.

Lemma set_calls_twice e tr tr' :
  set_calls (calls (set_calls (calls e ++ tr) e) ++ tr')
    (set_calls (calls e ++ tr) e)
  = set_calls (calls e ++ tr ++ tr') e.
Proof. unfold set_calls; simpl. by rewrite app_assoc. Qed.

Lemma call_as_set_calls c e : call c e = set_calls (calls e ++ [c]) e.
Proof. done. Qed.

Lemma newCalls_app e e' tr : calls e' = calls e ++ tr -> newCalls e e' = tr.
Proof. intros Hcalls. unfold newCalls. by rewrite Hcalls, drop_app_length. Qed.

Lemma newCalls_refl e : newCalls e e = [].
Proof. apply newCalls_app. by rewrite app_nil_r. Qed.

Lemma heldAfter_app held cs cs' :
  heldAfter held (cs ++ cs') = heldAfter (heldAfter held cs) cs'.
Proof. unfold heldAfter. by rewrite foldl_app. Qed.

Lemma heldAfter_no_lock cs :
  Forall (fun c => c <> CallLock) cs -> heldAfter false cs = false.
Proof.
  induction 1 as [|c cs Hc _ IH]; [done|].
  destruct c; simpl in *; try done.
Qed.

Lemma Forall_prefix_of {A} (P : A -> Prop) (l before after : list A) :
  l = before ++ after -> Forall P l -> Forall P before.
Proof. intros -> Hl. by apply Forall_app in Hl as [? _]. Qed.

(** Calls that are no commitment, opening or frame proof and end with the
    mutex free, followed by calls that never take the mutex. *)
Lemma cryptoOutsideMutex_app held pre tr :
  Forall (fun c => isCrypto c = false) pre ->
  heldAfter held pre = false ->
  Forall (fun c => c <> CallLock) tr ->
  cryptoOutsideMutex held (pre ++ tr).
Proof.
  intros Hpre Hheld Htr before c after Heq Hc.
  destruct (decide (length pre <= length before)%nat) as [Hle|Hgt].
  - (* the call is among [tr] *)
    assert (Hb : before = pre ++ drop (length pre) before).
    { rewrite <- (take_drop (length pre) before) at 1. f_equal.
      apply (f_equal (take (length pre))) in Heq.
      rewrite take_app_length, take_app_le in Heq by lia. done. }
    rewrite Hb, heldAfter_app, Hheld.
    apply heldAfter_no_lock.
    rewrite Hb, <- app_assoc in Heq. apply app_inv_head in Heq.
    eapply Forall_prefix_of; [exact Heq|done].
  - (* the call would be among [pre] *)
    exfalso.
    assert (Hin : In c pre).
    { assert (Hlk : (pre ++ tr) !! length before = Some c).
      { rewrite Heq. by rewrite list_lookup_middle. }
      rewrite lookup_app_l in Hlk by lia.
      apply list_elem_of_In. eapply list_elem_of_lookup_2. exact Hlk. }
    rewrite Forall_forall in Hpre.
    apply list_elem_of_In in Hin. specialize (Hpre _ Hin). congruence.
Qed.

End CallLog.

(** ** [prove] *)

Section ProveTheorems.

Context `{TokenApplicationPkg} `{FrameProver} `{InclusionProver}
  `{ClockStore} `{Shake256}.

Implicit Types (e : DataClockConsensusEngine) (prev frame : ClockFrame).

Lemma logsOnly_pure {A} (r : res A) : logsOnly (pure r).
Proof.
  intros e e' r' [= <- <-]. exists []. by rewrite set_calls_nil.
Qed.

Lemma logsOnly_reading {A} (f : DataClockConsensusEngine -> A) :
  logsOnly (reading f).
Proof.
  intros e e' r' [= <- <-]. exists []. by rewrite set_calls_nil.
Qed.

Lemma logsOnly_calling {A} c (r : res A) :
  c <> CallLock -> logsOnly (calling c r).
Proof.
  intros Hc e e' r' [= <- <-]. exists [c]. split; [done|]. by constructor.
Qed.

Lemma logsOnly_bind {A B} (m : Step A) (k : A -> Step B) :
  logsOnly m -> (forall a, logsOnly (k a)) -> logsOnly (step_bind m k).
Proof.
  intros Hm Hk e e' r. unfold step_bind.
  destruct (m e) as [e1 [a|err]] eqn:Hme.
  - intros Hka. destruct (Hm _ _ _ Hme) as (tr & -> & Htr).
    destruct (Hk a _ _ _ Hka) as (tr' & -> & Htr').
    exists (tr ++ tr'). split; [apply set_calls_twice|].
    by apply Forall_app.
  - intros [= <- <-]. by apply (Hm _ _ _ Hme).
Qed.

Lemma logsOnly_prove_unlocked now prev app valid :
  logsOnly (prove_unlocked now prev app valid).
Proof.
  unfold prove_unlocked.
  repeat first
    [ apply logsOnly_bind; [|intros ?]
    | apply logsOnly_pure
    | apply logsOnly_reading
    | apply logsOnly_calling; discriminate ].
Qed.

(** The frame around [prove_unlocked]. *)
Lemma prove_unlocked_frame now prev app valid e e' r :
  prove_unlocked now prev app valid e = (e', r) ->
  lastProven e' = lastProven e /\
  stagedTransactions e' = stagedTransactions e /\
  stagedTransactionsMx e' = stagedTransactionsMx e /\
  exists tr, calls e' = calls e ++ tr /\ Forall (fun c => c <> CallLock) tr.
Proof.
  intros Hrun.
  destruct (logsOnly_prove_unlocked _ _ _ _ _ _ _ Hrun) as (tr & -> & Htr).
  repeat split; eauto.
Qed.

(** What [prove_loaded] does when [ApplyTransitions] is reached. *)
Lemma prove_loaded_spec now prev loaded e :
  let next := uint64_add (FrameNumber prev) 1 in
  let e' := fst (prove_loaded now prev loaded e) in
  let result := snd (prove_loaded now prev loaded e) in
  match MaterializeApplicationFromFrame (provingKey e) prev (snd (fst loaded))
  with
  | Failed err =>
      e' = Unlock (call CallMaterializeApplicationFromFrame e) /\
      result = Returns (None, Some (Wrap err "prove"))
  | Ok _ =>
      stagedTransactions e' = Some emptyTokenRequests /\
      stagedTransactionsMx e' = false /\
      (exists tr,
         calls e' = calls e ++
           [CallMaterializeApplicationFromFrame; CallApplyTransitions next;
            CallUnlock] ++ tr /\
         Forall (fun c => c <> CallLock) tr) /\
      match result with
      | Returns (_, Some _) => lastProven e' = lastProven e
      | Returns (Some _, None) | Panics => lastProven e' = FrameNumber prev
      | Returns (None, None) => False
      end
  end.
Proof.
  intros next e' result. subst e' result. unfold prove_loaded.
  assert (Hkey : provingKey (call CallMaterializeApplicationFromFrame e)
                 = provingKey e) by done.
  rewrite Hkey.
  destruct (MaterializeApplicationFromFrame _ _ _) as [app|err]; [|done].
  fold next.
  set (e1 := match stagedTransactions _ with None => _ | Some _ => _ end).
  assert (Hcalls1 : calls e1 = calls e ++ [CallMaterializeApplicationFromFrame]).
  { subst e1. by destruct (stagedTransactions _). }
  assert (Hlast1 : lastProven e1 = lastProven e).
  { subst e1. by destruct (stagedTransactions _). }
  destruct (ApplyTransitions _ _ _ _) as [[[app' valid] invalid]|err].
  - destruct (prove_unlocked _ _ _ _ _) as [e2 r] eqn:Hrun.
    apply prove_unlocked_frame in Hrun
      as (Hlast & Hstaged & Hmx & tr & Hcalls & Htr).
    simpl in Hlast, Hstaged, Hmx, Hcalls.
    assert (Hlog : calls e2 = calls e ++
              [CallMaterializeApplicationFromFrame; CallApplyTransitions next;
               CallUnlock] ++ tr).
    { rewrite Hcalls, Hcalls1, <- !app_assoc. done. }
    destruct r as [frame|err].
    + destruct (String.length (Input frame) <? 516)%nat; simpl;
        (split; [done|split; [done|split; [by exists tr|done]]]).
    + simpl. split; [done|split; [done|split; [by exists tr|]]].
      by rewrite Hlast.
  - simpl. split; [done|split; [done|split]]; [|done].
    exists []. split; [|done]. by rewrite Hcalls1, <- !app_assoc.
Qed.

Lemma prove_short_circuits now prev e :
  FrameNumber prev <= lastProven e -> lastProven e <> 0 ->
  prove now prev e = (e, Returns (Some prev, None)).
Proof.
  intros Hle Hnz. unfold prove.
  destruct (Z.leb_spec (FrameNumber prev) (lastProven e)); [|lia].
  destruct (Z.eqb_spec (lastProven e) 0); [lia|]. done.
Qed.

(** C5, as amended.  With [lastProven >= prev.FrameNumber] and
    [lastProven <> 0], [prove prev] returns [prev] and leaves the engine as it
    was.  Hence after a [prove prev] that returned a frame, a second
    [prove prev] returns [prev] itself and changes nothing, provided
    [prev.FrameNumber <> 0]. *)
Theorem prove_idempotent_short_circuit now now' prev e :
  (FrameNumber prev <= lastProven e -> lastProven e <> 0 ->
   prove now prev e = (e, Returns (Some prev, None))) /\
  (FrameNumber prev <> 0 ->
   forall e' frame,
     prove now prev e = (e', Returns (Some frame, None)) ->
     prove now' prev e' = (e', Returns (Some prev, None))).
Proof.
  split; [apply prove_short_circuits|].
  intros Hnz e' frame Hrun. unfold prove in Hrun.
  destruct ((FrameNumber prev <=? lastProven e) && negb (lastProven e =? 0))
    eqn:Hshort.
  - injection Hrun as <- _.
    apply andb_true_iff in Hshort as [Hle Hne].
    apply prove_short_circuits; [lia|].
    apply negb_true_iff in Hne. lia.
  - match type of Hrun with
    | prove_loaded ?n ?p ?l ?e1 = _ =>
        pose proof (prove_loaded_spec n p l e1) as Hspec
    end.
    cbv zeta in Hspec. rewrite Hrun in Hspec. simpl fst in Hspec.
    simpl snd in Hspec.
    destruct (MaterializeApplicationFromFrame _ _ _) as [app|err].
    + destruct Hspec as (_ & _ & _ & Hlast).
      apply prove_short_circuits; lia.
    + destruct Hspec as [_ [=]].
Qed.

(** C8.  Whenever [prove prev] returns an error, whichever step it comes
    from, [lastProven] is what it was before the call. *)
Theorem prove_error_keeps_lastProven now prev e e'
  (returned : option ClockFrame) (err : error) :
  prove now prev e = (e', Returns (returned, Some err)) ->
  lastProven e' = lastProven e.
Proof.
  intros Hrun. unfold prove in Hrun.
  destruct ((FrameNumber prev <=? lastProven e) && negb (lastProven e =? 0)).
  - by injection Hrun as <-.
  - match type of Hrun with
    | prove_loaded ?n ?p ?l ?e1 = _ =>
        pose proof (prove_loaded_spec n p l e1) as Hspec
    end.
    cbv zeta in Hspec. rewrite Hrun in Hspec. simpl fst in Hspec.
    simpl snd in Hspec.
    destruct (MaterializeApplicationFromFrame _ _ _) as [app|merr].
    + destruct Hspec as (_ & _ & _ & Hlast). by destruct returned.
    + by destruct Hspec as [-> _].
Qed.

(** C7.  An invocation of [prove] that reaches [ApplyTransitions] leaves the
    staging buffer a fresh empty request list, whether the transitions were
    applied or not, and the mutex free; and every commitment, opening and
    frame proof of that invocation starts after the mutex was released. *)
Theorem prove_resets_staging now prev e :
  In (CallApplyTransitions (uint64_add (FrameNumber prev) 1))
     (newCalls e (fst (prove now prev e))) ->
  stagedTransactions (fst (prove now prev e)) = Some emptyTokenRequests /\
  Requests (default emptyTokenRequests
              (stagedTransactions (fst (prove now prev e)))) = [] /\
  stagedTransactionsMx (fst (prove now prev e)) = false /\
  cryptoOutsideMutex (stagedTransactionsMx e)
    (newCalls e (fst (prove now prev e))).
Proof.
  unfold prove.
  destruct ((FrameNumber prev <=? lastProven e) && negb (lastProven e =? 0)).
  { simpl. rewrite newCalls_refl. intros []. }
  match goal with
  | |- context [prove_loaded ?n ?p ?l ?e1] =>
      pose proof (prove_loaded_spec n p l e1) as Hspec;
      set (run := prove_loaded n p l e1) in *
  end.
  cbv zeta in Hspec.
  destruct (MaterializeApplicationFromFrame _ _ _) as [app|merr].
  - destruct Hspec as (Hstaged & Hmx & (tr & Hcalls & Htr) & _).
    intros _.
    assert (Hnew : newCalls e (fst run)
                   = [CallLock; CallGetDataClockFrame (FrameNumber prev);
                      CallMaterializeApplicationFromFrame;
                      CallApplyTransitions (uint64_add (FrameNumber prev) 1);
                      CallUnlock] ++ tr).
    { apply newCalls_app. rewrite Hcalls. simpl. by rewrite <- !app_assoc. }
    rewrite Hstaged, Hmx, Hnew. repeat split; try done.
    apply cryptoOutsideMutex_app; [|done|done].
    repeat constructor.
  - destruct Hspec as [He' _]. rewrite He'.
    erewrite newCalls_app by (simpl; rewrite <- !app_assoc; reflexivity).
    simpl. intros Hin. exfalso.
    repeat (destruct Hin as [Hin|Hin]; [discriminate Hin|]). done.
Qed.

End ProveTheorems.

Section ClockStoreError.

Context `{TokenApplicationPkg} `{FrameProver} `{InclusionProver} `{Shake256}.

Lemma prove_loaded_ext now prev loaded loaded' e :
  snd (fst loaded) = snd (fst loaded') ->
  prove_loaded now prev loaded e = prove_loaded now prev loaded' e.
Proof. intros Htries. unfold prove_loaded. by rewrite Htries. Qed.

(** C9.  The error that the clock store returns with the tries of
    [prev.FrameNumber] never reaches the caller of [prove]: two stores that
    hand out the same tries give the same run of [prove], whatever errors
    they report, and a run that gets past the short-circuit stops at this
    stage exactly when [MaterializeApplicationFromFrame] fails, with that
    failure as its error. *)
Theorem prove_overwrites_store_error (store store' : ClockStore)
  now prev (e : DataClockConsensusEngine) :
  (forall flt n truncate,
     snd (fst (GetDataClockFrame (ClockStore := store) flt n truncate))
     = snd (fst (GetDataClockFrame (ClockStore := store') flt n truncate))) ->
  prove (store := store) now prev e = prove (store := store') now prev e /\
  ((FrameNumber prev <=? lastProven e) && negb (lastProven e =? 0) = false ->
   match MaterializeApplicationFromFrame (provingKey e) prev
           (snd (fst (GetDataClockFrame (ClockStore := store)
                        (filter e) (FrameNumber prev) false)))
   with
   | Failed err =>
       snd (prove (store := store) now prev e)
       = Returns (None, Some (Wrap err "prove"))
   | Ok _ =>
       In (CallApplyTransitions (uint64_add (FrameNumber prev) 1))
          (newCalls e (fst (prove (store := store) now prev e)))
   end).
Proof.
  intros Hsame. split.
  - unfold prove.
    destruct ((FrameNumber prev <=? lastProven e) && negb (lastProven e =? 0));
      [done|].
    apply prove_loaded_ext, Hsame.
  - intros Hlong. unfold prove. rewrite Hlong.
    match goal with
    | |- context [prove_loaded ?n ?p ?l ?e1] =>
        pose proof (prove_loaded_spec n p l e1) as Hspec;
        set (run := prove_loaded n p l e1) in *
    end.
    cbv zeta in Hspec. simpl in Hspec.
    destruct (MaterializeApplicationFromFrame _ _ _) as [app|err].
    + destruct Hspec as (_ & _ & (tr & Hcalls & _) & _).
      erewrite newCalls_app
        by (rewrite Hcalls; simpl; rewrite <- !app_assoc; reflexivity).
      simpl. tauto.
    + by destruct Hspec as [_ ->].
Qed.

End ClockStoreError.

(** *** [prove] on the small node *)

Section ProveScenario.

Import Scenario.

#[local] Existing Instances tokenApplication frameProver inclusionProver
  clockStore shake256.

(** An engine at 7 asked to prove frame 4 again; and an engine at 3 that
    proves frame 4 and is asked again. *)
Lemma prove_idempotent_short_circuit_witness :
  prove 2000 (goodFrame 4) (engine 7 1 ∅)
  = (engine 7 1 ∅, Returns (Some (goodFrame 4), None)) /\
  prove 2000 (goodFrame 4)
    (fst (prove 1000 (goodFrame 4) (engine 3 1 ∅)))
  = (fst (prove 1000 (goodFrame 4) (engine 3 1 ∅)),
     Returns (Some (goodFrame 4), None)).
Proof.
  split.
  - apply (prove_idempotent_short_circuit 1000 2000
             (goodFrame 4) (engine 7 1 ∅)).
    + vm_compute. discriminate.
    + vm_compute. discriminate.
  - eapply (prove_idempotent_short_circuit 1000 2000
              (goodFrame 4) (engine 3 1 ∅)).
    + vm_compute. discriminate.
    + vm_compute. reflexivity.
Defined.

(** C5, as stated, fails at the genesis frame: the first [prove] of frame 0
    returns frame 1 and sets [lastProven] to 0, so the second runs the whole
    pipeline again and returns a second frame 1, not frame 0. *)
Lemma prove_twice_at_genesis :
  FrameNumber genesis = 0 /\
  returnedFrameNumber (snd (prove 1000 genesis (engine 0 1 ∅))) = Some 1 /\
  returnedError (snd (prove 1000 genesis (engine 0 1 ∅))) = None /\
  lastProven (fst (prove 1000 genesis (engine 0 1 ∅))) = 0 /\
  returnedFrameNumber
    (snd (prove 2000 genesis (fst (prove 1000 genesis (engine 0 1 ∅)))))
  = Some 1 /\
  newCalls
    (fst (prove 1000 genesis (engine 0 1 ∅)))
    (fst (prove 2000 genesis (fst (prove 1000 genesis (engine 0 1 ∅)))))
  = [CallLock; CallGetDataClockFrame 0; CallMaterializeApplicationFromFrame;
     CallApplyTransitions 1; CallUnlock; CallMaterializeStateFromApplication;
     CallCommitRaw; CallProveRaw 0; CallProveDataClockFrame].
Proof. vm_compute. repeat split. Qed.

(** The frame prover refuses difficulty 0 after frame 4 went through every
    earlier step. *)
Lemma prove_error_keeps_lastProven_witness :
  lastProven (fst (prove 1000 (goodFrame 4) (engine 3 0 ∅)))
  = lastProven (engine 3 0 ∅).
Proof.
  apply (prove_error_keeps_lastProven 1000 (goodFrame 4)
           (engine 3 0 ∅)
           (fst (prove 1000 (goodFrame 4) (engine 3 0 ∅)))
           None (Wrap (ErrorString "difficulty") "prove")).
  vm_compute. reflexivity.
Defined.

(** A round that applies the two staged requests, and a round whose
    [ApplyTransitions] fails (the frame after [2^64 - 1] is numbered 0). *)
Lemma prove_resets_staging_witness :
  (stagedTransactions (fst (prove 1000 genesis (engine 0 1 ∅)))
   = Some emptyTokenRequests /\
   Requests (default emptyTokenRequests
               (stagedTransactions (fst (prove 1000 genesis (engine 0 1 ∅)))))
   = [] /\
   stagedTransactionsMx (fst (prove 1000 genesis (engine 0 1 ∅))) = false /\
   cryptoOutsideMutex (stagedTransactionsMx (engine 0 1 ∅))
     (newCalls (engine 0 1 ∅) (fst (prove 1000 genesis (engine 0 1 ∅))))) /\
  stagedTransactions
    (fst (prove 1000 (goodFrame (2 ^ 64 - 1)) (engine 0 1 ∅)))
  = Some emptyTokenRequests.
Proof.
  split.
  - apply (prove_resets_staging 1000 genesis (engine 0 1 ∅)).
    vm_compute. tauto.
  - apply (prove_resets_staging 1000 (goodFrame (2 ^ 64 - 1))
             (engine 0 1 ∅)).
    vm_compute. tauto.
Defined.

(** A store that reports "not found" and a store that reports nothing. *)
Lemma prove_overwrites_store_error_witness :
  prove (store := clockStore) 1000 genesis (engine 0 1 ∅)
  = prove (store := emptyClockStore) 1000 genesis (engine 0 1 ∅) /\
  returnedError (snd (prove (store := clockStore) 1000 genesis (engine 0 1 ∅)))
  = None.
Proof.
  split.
  - apply (prove_overwrites_store_error clockStore emptyClockStore
             1000 genesis (engine 0 1 ∅)).
    intros flt n truncate. reflexivity.
  - vm_compute. reflexivity.
Defined.

End ProveScenario.

(** ** [sync] *)

Section SyncTheorems.

Context `{TokenApplicationPkg} `{FrameProver} `{NodeConfig} `{PeerSampler}.

Implicit Types (e : DataClockConsensusEngine) (latest frame : ClockFrame)
  (reply : GetDataFrameResult) (replies : list GetDataFrameResult)
  (cooperative : bool) (tr made : list Call).

Lemma sync_body_turn peer maxFrame e reply latest cooperative :
  Turn peer maxFrame e latest cooperative reply
    (fst (sync_body peer maxFrame e reply latest cooperative))
    (snd (sync_body peer maxFrame e reply latest cooperative)).
Proof.
  unfold sync_body.
  destruct reply as [err|[response|]]; simpl; try by constructor.
  destruct (df_ClockFrame response) as [frame|] eqn:Hframe; simpl;
    [|constructor; congruence].
  destruct (Z.eqb_spec (FrameNumber frame) (uint64_add (FrameNumber latest) 1))
    as [Hnum|Hnum]; simpl.
  2: { constructor. intros frame' Heq [? _]. congruence. }
  destruct (Z.ltb_spec (Timestamp frame) (Timestamp latest)) as [Hts|Hts].
  { constructor. intros frame' Heq [_ ?].
    assert (frame' = frame) as -> by congruence. lia. }
  assert (Hfollows : follows latest frame) by done.
  destruct (producerKeyValue frame) as [key|] eqn:Hkey;
    [|by econstructor].
  destruct (VerifyDataClockFrame frame) as [err|] eqn:Hverify; simpl;
    [by econstructor|].
  destruct (Z.leb_spec maxFrame (FrameNumber frame)); simpl;
    by econstructor.
Qed.

(** A turn sends exactly one request, for the number after [latest]. *)
Lemma Turn_requested peer maxFrame e latest cooperative reply made next :
  Turn peer maxFrame e latest cooperative reply made next ->
  requestedFrames made = [uint64_add (FrameNumber latest) 1] /\
  exists made', made = CallGetDataFrame peer
                         (uint64_add (FrameNumber latest) 1) :: made'.
Proof. destruct 1; simpl; eauto. Qed.

Lemma sync_loop_cons peer maxFrame e reply replies latest cooperative :
  sync_loop peer maxFrame e (reply :: replies) latest cooperative
  = match sync_body peer maxFrame e reply latest cooperative with
    | (made, inr exit) => (made, exit)
    | (made, inl (latest', cooperative')) =>
        (made ++ fst (sync_loop peer maxFrame e replies latest' cooperative'),
         snd (sync_loop peer maxFrame e replies latest' cooperative'))
    end.
Proof. done. Qed.

(** The loop by cases: it is over after the first turn, or it goes on with
    the frame of that turn. *)
Lemma sync_loop_turn peer maxFrame e reply replies latest cooperative :
  exists made next,
    Turn peer maxFrame e latest cooperative reply made next /\
    match next with
    | inr exit =>
        sync_loop peer maxFrame e (reply :: replies) latest cooperative
        = (made, exit)
    | inl (latest', cooperative') =>
        sync_loop peer maxFrame e (reply :: replies) latest cooperative
        = (made ++ fst (sync_loop peer maxFrame e replies latest' cooperative'),
           snd (sync_loop peer maxFrame e replies latest' cooperative'))
    end.
Proof.
  pose proof (sync_body_turn peer maxFrame e reply latest cooperative) as Hturn.
  rewrite sync_loop_cons.
  destruct (sync_body _ _ _ _ _ _) as [made [[latest' cooperative']|exit]];
    simpl in Hturn.
  - by exists made, (inl (latest', cooperative')).
  - by exists made, (inr exit).
Qed.

Lemma insertedFrames_app tr tr' :
  insertedFrames (tr ++ tr') = insertedFrames tr ++ insertedFrames tr'.
Proof. unfold insertedFrames. apply omap_app. Qed.

Lemma requestedFrames_app tr tr' :
  requestedFrames (tr ++ tr') = requestedFrames tr ++ requestedFrames tr'.
Proof. unfold requestedFrames. apply omap_app. Qed.

(** Once [cooperative] is false it stays false. *)
Lemma sync_loop_uncooperative peer maxFrame e replies : forall latest,
  exit_cooperative (snd (sync_loop peer maxFrame e replies latest false))
  = false.
Proof.
  induction replies as [|reply replies IH]; intros latest; [done|].
  destruct (sync_loop_turn peer maxFrame e reply replies latest false)
    as (made & next & Hturn & Hloop).
  destruct Hturn; rewrite Hloop; simpl; try done;
    unfold afterTrieCheck in *; by destruct (IsInProverTrie _ _).
Qed.

(** The calls that [sync] adds to the log. *)
Lemma sync_calls_explicit (s : SyncSession) latest maxFrame peer e :
  calls (fst (sync s latest maxFrame peer e))
  = calls e ++
    CallGetDirectChannel peer ::
    match dialError s with
    | Some _ => []
    | None =>
        fst (sync_loop peer maxFrame
               (call (CallGetDirectChannel peer)
                  (set_syncingStatus SyncStatusSynchronizing e))
               (replies s) latest true)
        ++ [CallClose peer]
    end.
Proof.
  unfold sync.
  destruct (dialError s); simpl.
  - unfold demote; simpl. by destruct (peerMap e !! peer).
  - match goal with
    | |- context [exit_cooperative ?x] => destruct (exit_cooperative x)
    end; simpl.
    + by rewrite <- app_assoc.
    + unfold demote; simpl.
      destruct (peerMap e !! peer); simpl; by rewrite <- app_assoc.
Qed.

Lemma sync_newCalls (s : SyncSession) latest maxFrame peer e :
  newCalls e (fst (sync s latest maxFrame peer e))
  = CallGetDirectChannel peer ::
    match dialError s with
    | Some _ => []
    | None =>
        fst (sync_loop peer maxFrame
               (call (CallGetDirectChannel peer)
                  (set_syncingStatus SyncStatusSynchronizing e))
               (replies s) latest true)
        ++ [CallClose peer]
    end.
Proof. apply newCalls_app, sync_calls_explicit. Qed.

Lemma sync_calls (s : SyncSession) latest maxFrame peer e :
  calls (fst (sync s latest maxFrame peer e))
  = calls e ++ newCalls e (fst (sync s latest maxFrame peer e)).
Proof. rewrite sync_newCalls. apply sync_calls_explicit. Qed.

(** [sync_loop] reads the engine only through its prover tries. *)
Lemma sync_body_tries peer maxFrame e e' reply latest cooperative :
  frameProverTries e = frameProverTries e' ->
  sync_body peer maxFrame e reply latest cooperative
  = sync_body peer maxFrame e' reply latest cooperative.
Proof. intros Htries. unfold sync_body. by rewrite Htries. Qed.

Lemma sync_loop_tries peer maxFrame e e' replies :
  frameProverTries e = frameProverTries e' ->
  forall latest cooperative,
  sync_loop peer maxFrame e replies latest cooperative
  = sync_loop peer maxFrame e' replies latest cooperative.
Proof.
  intros Htries.
  induction replies as [|reply replies IH]; intros latest cooperative;
    [done|].
  rewrite !sync_loop_cons, (sync_body_tries _ _ e e') by done.
  destruct (sync_body _ _ _ _ _ _) as [made [[latest' cooperative']|exit]];
    [|done].
  by rewrite IH.
Qed.

Lemma sync_newCalls' (s : SyncSession) latest maxFrame peer e :
  newCalls e (fst (sync s latest maxFrame peer e))
  = CallGetDirectChannel peer ::
    match dialError s with
    | Some _ => []
    | None =>
        fst (sync_loop peer maxFrame e (replies s) latest true)
        ++ [CallClose peer]
    end.
Proof.
  rewrite sync_newCalls. destruct (dialError s); [done|].
  by rewrite (sync_loop_tries _ _ (call _ (set_syncingStatus _ e)) e).
Qed.

(** The deferred demotion: the two peer maps after [sync]. *)
Lemma sync_peerMaps (s : SyncSession) latest maxFrame peer e :
  let e' := fst (sync s latest maxFrame peer e) in
  if leftCooperative s latest maxFrame peer e
  then peerMap e' = peerMap e /\
       uncooperativePeersMap e' = uncooperativePeersMap e
  else peerMap e' = peerMap (demote peer (demotedAt s) e) /\
       uncooperativePeersMap e'
       = uncooperativePeersMap (demote peer (demotedAt s) e).
Proof.
  unfold sync, leftCooperative.
  destruct (dialError s); simpl.
  - unfold demote; simpl. by destruct (peerMap e !! peer).
  - rewrite (sync_loop_tries _ _ (call _ (set_syncingStatus _ e)) e) by done.
    destruct (exit_cooperative _); simpl; [done|].
    unfold demote; simpl. by destruct (peerMap e !! peer).
Qed.

Lemma demote_moves peer now e info :
  peerMap e !! peer = Some info ->
  peerMap (demote peer now e) !! peer = None /\
  uncooperativePeersMap (demote peer now e) !! peer
  = Some (stampedAt now info).
Proof.
  intros Hpeer. unfold demote. rewrite Hpeer. simpl.
  by rewrite lookup_delete_eq, lookup_insert_eq.
Qed.

Lemma uint64_add_one n : 0 <= n -> n + 1 < 2 ^ 64 -> uint64_add n 1 = n + 1.
Proof.
  intros Hlo Hhi. unfold uint64_add. apply uint64_wrap_id.
  unfold is_uint64. lia.
Qed.

Lemma sync_loop_consecutive peer maxFrame e replies :
  forall latest cooperative,
  0 <= FrameNumber latest < maxFrame -> maxFrame < 2 ^ 64 ->
  consecutiveFrom latest
    (insertedFrames
       (fst (sync_loop peer maxFrame e replies latest cooperative))) /\
  requestedFrames (fst (sync_loop peer maxFrame e replies latest cooperative))
  `prefix_of`
  map (fun held => FrameNumber held + 1)
    (latest ::
     insertedFrames
       (fst (sync_loop peer maxFrame e replies latest cooperative))).
Proof.
  induction replies as [|reply replies IH]; intros latest cooperative Hlatest Hmax.
  { simpl. split; [done|]. apply prefix_nil. }
  assert (Hnext : uint64_add (FrameNumber latest) 1 = FrameNumber latest + 1)
    by (apply uint64_add_one; lia).
  destruct (sync_loop_turn peer maxFrame e reply replies latest cooperative)
    as (made & next & Hturn & Hloop).
  destruct Hturn as
    [ | | | |
      | response frame key Hdf [Hnum Hts] Hkey Hverify Hlast
      | response frame key Hdf [Hnum Hts] Hkey Hverify Hbelow ];
    rewrite Hloop; simpl; rewrite ?Hnext;
    try (split; [done|]; by apply prefix_cons, prefix_nil).
  - (* the last frame of the session *)
    rewrite Hnext in Hnum.
    split; [done|]. by apply prefix_cons, prefix_nil.
  - (* a frame, and the loop goes on from it *)
    rewrite Hnext in Hnum.
    destruct (IH frame (afterTrieCheck e key cooperative)) as [Hchain Hreq];
      [lia|done|].
    split; [done|]. apply prefix_cons. exact Hreq.
Qed.

(** C1.  Within one call of [sync] that starts from [latest] below
    [maxFrame] (the only way [collect] calls it), the frames handed to the
    time reel's [Insert] are numbered consecutively: each is numbered exactly
    one more than the frame held just before it, which for the first is
    [latest], and is not older than that frame; and every request the engine
    sends is for the number after the frame it holds. *)
Theorem sync_inserts_consecutive (s : SyncSession) latest maxFrame peer e :
  0 <= FrameNumber latest < maxFrame ->
  maxFrame < 2 ^ 64 ->
  consecutiveFrom latest
    (insertedFrames (newCalls e (fst (sync s latest maxFrame peer e)))) /\
  requestedFrames (newCalls e (fst (sync s latest maxFrame peer e)))
  `prefix_of`
  map (fun held => FrameNumber held + 1)
    (latest ::
     insertedFrames (newCalls e (fst (sync s latest maxFrame peer e)))).
Proof.
  intros Hlatest Hmax. rewrite sync_newCalls'.
  destruct (dialError s); simpl.
  { split; [done|]. apply prefix_nil. }
  rewrite insertedFrames_app, requestedFrames_app. simpl.
  rewrite !app_nil_r.
  by apply sync_loop_consecutive.
Qed.

(** Without the guard of [collect], the same holds with the wrapping
    successor. *)
Lemma sync_loop_consecutive_wrapping peer maxFrame e replies :
  forall latest cooperative,
  consecutiveFromWrapping latest
    (insertedFrames
       (fst (sync_loop peer maxFrame e replies latest cooperative))).
Proof.
  induction replies as [|reply replies IH]; intros latest cooperative;
    [done|].
  destruct (sync_loop_turn peer maxFrame e reply replies latest cooperative)
    as (made & next & Hturn & Hloop).
  destruct Hturn as
    [ | | | |
      | response frame key Hdf [Hnum Hts] Hkey Hverify Hlast
      | response frame key Hdf [Hnum Hts] Hkey Hverify Hbelow ];
    rewrite Hloop; simpl; done.
Qed.

Lemma last_cons_default {A} (l : list A) : forall x d d',
  List.last (x :: l) d = List.last (x :: l) d'.
Proof.
  induction l as [|y l IH]; intros x d d'; [done|].
  change (List.last (y :: l) d = List.last (y :: l) d'). apply IH.
Qed.

Lemma last_app_nonempty {A} (l : list A) : forall x l' d d',
  List.last (l ++ x :: l') d = List.last (x :: l') d'.
Proof.
  induction l as [|y l IH]; intros x l' d d'; [apply last_cons_default|].
  rewrite <- (IH x l' d d'). by destruct l.
Qed.

(** The frame that the loop returns, when it returns one, is the last frame
    it inserted, or [latest] when it inserted none. *)
Lemma sync_loop_returns_last peer maxFrame e replies :
  forall latest cooperative held err,
  exit_result (snd (sync_loop peer maxFrame e replies latest cooperative))
  = Returns (Some held, err) ->
  held = List.last
           (insertedFrames
              (fst (sync_loop peer maxFrame e replies latest cooperative)))
           latest.
Proof.
  induction replies as [|reply replies IH];
    intros latest cooperative held err Hexit.
  { simpl in *. congruence. }
  destruct (sync_loop_turn peer maxFrame e reply replies latest cooperative)
    as (made & next & Hturn & Hloop).
  destruct Hturn; rewrite Hloop in Hexit |- *; simpl in Hexit |- *;
    try congruence.
  apply IH in Hexit. rewrite Hexit.
  match goal with
  | |- context [insertedFrames (fst ?loop)] =>
      destruct (insertedFrames (fst loop)); [done|]
  end.
  apply last_cons_default.
Qed.

(** What follows a frame that reached [VerifyDataClockFrame] although its
    producer is outside the prover trie. *)
Lemma sync_loop_non_prover peer maxFrame e frame key replies :
  producerKeyValue frame = Returns key ->
  IsInProverTrie (frameProverTries e) key = false ->
  forall latest cooperative,
  In (CallVerifyDataClockFrame frame)
     (fst (sync_loop peer maxFrame e replies latest cooperative)) ->
  exit_cooperative (snd (sync_loop peer maxFrame e replies latest cooperative))
  = false /\
  (VerifyDataClockFrame frame = None ->
   In (CallInsert frame true)
      (fst (sync_loop peer maxFrame e replies latest cooperative)) /\
   (FrameNumber frame < maxFrame ->
    In (CallGetDataFrame peer (uint64_add (FrameNumber frame) 1))
       (fst (sync_loop peer maxFrame e replies latest cooperative)) \/
    length (requestedFrames
              (fst (sync_loop peer maxFrame e replies latest cooperative)))
    = length replies)).
Proof.
  intros Hkey Hout.
  assert (Hflag : forall cooperative,
            afterTrieCheck e key cooperative = false).
  { intros c. unfold afterTrieCheck. by rewrite Hout. }
  induction replies as [|reply replies IH]; intros latest cooperative Hin;
    [destruct Hin|].
  destruct (sync_loop_turn peer maxFrame e reply replies latest cooperative)
    as (made & next & Hturn & Hloop).
  destruct Hturn as
    [ | | |
      | response frame' key' err Hdf Hfollows Hkey' Hverify
      | response frame' key' Hdf Hfollows Hkey' Hverify Hmax
      | response frame' key' Hdf Hfollows Hkey' Hverify Hmax ];
    rewrite Hloop in Hin |- *; clear Hloop; simpl in Hin |- *;
    try (destruct Hin as [Hin|[]]; discriminate Hin).
  - (* refused by the verifier *)
    destruct Hin as [Hin|[Hin|[]]]; [discriminate Hin|].
    injection Hin as Hsame; subst frame'.
    assert (key' = key) as -> by congruence.
    split; [apply Hflag|]. intros Hok. congruence.
  - (* inserted, at or past [maxFrame] *)
    destruct Hin as [Hin|[Hin|[Hin|[]]]]; try discriminate Hin.
    injection Hin as Hsame; subst frame'.
    assert (key' = key) as -> by congruence.
    split; [apply Hflag|]. intros _. split; [tauto|]. lia.
  - (* inserted, and the loop goes on *)
    destruct Hin as [Hin|[Hin|[Hin|Hin]]]; try discriminate Hin.
    + injection Hin as Hsame; subst frame'.
      assert (key' = key) as -> by congruence.
      rewrite Hflag. split; [apply sync_loop_uncooperative|].
      intros _. split; [tauto|]. intros _.
      destruct replies as [|reply' replies']; [right; done|left].
      destruct (sync_loop_turn peer maxFrame e reply' replies' frame false)
        as (made' & next' & Hturn' & Hloop').
      apply Turn_requested in Hturn' as [_ [made'' ->]].
      do 3 right.
      destruct next' as [[? ?]|?]; rewrite Hloop'; simpl; tauto.
    + destruct (IH _ _ Hin) as [Hexit Hrest].
      split; [done|]. intros Hok.
      destruct (Hrest Hok) as [Hins Hgo].
      split; [tauto|]. intros Hbelow.
      destruct (Hgo Hbelow) as [Hreq|Hlen]; [left; tauto|right].
      by rewrite Hlen.
Qed.

(** C2, as amended.  In every call of [sync] in which a frame reached
    [VerifyDataClockFrame] with a producer key outside the active prover
    trie, the peer, if it is in the peer map, is moved to the uncooperative
    map on exit, stamped with the time of the move.  The frame is
    nevertheless inserted into the time reel when it verifies, and the pull
    then goes on from it: while it is below [maxFrame] the next frame is
    requested from the same peer, unless the engine is stopping. *)
Theorem sync_non_prover_frame (s : SyncSession) latest maxFrame peer e
  frame key :
  In (CallVerifyDataClockFrame frame)
     (newCalls e (fst (sync s latest maxFrame peer e))) ->
  producerKeyValue frame = Returns key ->
  IsInProverTrie (frameProverTries e) key = false ->
  (forall info, peerMap e !! peer = Some info ->
     peerMap (fst (sync s latest maxFrame peer e)) !! peer = None /\
     uncooperativePeersMap (fst (sync s latest maxFrame peer e)) !! peer
     = Some (stampedAt (demotedAt s) info)) /\
  (VerifyDataClockFrame frame = None ->
   In (CallInsert frame true)
      (newCalls e (fst (sync s latest maxFrame peer e))) /\
   (FrameNumber frame < maxFrame ->
    In (CallGetDataFrame peer (uint64_add (FrameNumber frame) 1))
       (newCalls e (fst (sync s latest maxFrame peer e))) \/
    length (requestedFrames
              (newCalls e (fst (sync s latest maxFrame peer e))))
    = length (replies s))).
Proof.
  intros Hin Hkey Hout.
  pose proof (sync_peerMaps s latest maxFrame peer e) as Hmaps.
  cbv zeta in Hmaps. unfold leftCooperative in Hmaps.
  rewrite sync_newCalls' in *.
  destruct (dialError s).
  { destruct Hin as [Hin|[]]. discriminate Hin. }
  assert (Hloop : In (CallVerifyDataClockFrame frame)
                    (fst (sync_loop peer maxFrame e (replies s) latest true))).
  { destruct Hin as [Hin|Hin]; [discriminate Hin|].
    apply in_app_or in Hin as [Hin|[Hin|[]]]; [done|discriminate Hin]. }
  destruct (sync_loop_non_prover peer maxFrame e frame key (replies s)
              Hkey Hout latest true Hloop) as [Hexit Hrest].
  rewrite Hexit in Hmaps. destruct Hmaps as [Hcoop Huncoop].
  split.
  - intros info Hpeer. rewrite Hcoop, Huncoop. by apply demote_moves.
  - intros Hok. destruct (Hrest Hok) as [Hins Hgo]. split.
    + right. apply in_or_app. tauto.
    + intros Hbelow. simpl. rewrite requestedFrames_app. simpl.
      rewrite app_nil_r.
      destruct (Hgo Hbelow) as [Hreq|Hlen]; [left|right; done].
      right. apply in_or_app. tauto.
Qed.

Lemma sync_result (s : SyncSession) latest maxFrame peer e :
  snd (sync s latest maxFrame peer e)
  = match dialError s with
    | Some err => Returns (Some latest, Some (Wrap err "sync"))
    | None =>
        exit_result (snd (sync_loop peer maxFrame e (replies s) latest true))
    end.
Proof.
  unfold sync. destruct (dialError s); simpl; [done|].
  by rewrite (sync_loop_tries _ _ (call _ (set_syncingStatus _ e)) e).
Qed.



End SyncTheorems.

(** *** [sync] on the small node *)

Section SyncScenario.

Import Scenario.

#[local] Existing Instances tokenApplication frameProver nodeConfig.

(** Frames 6, 7 and 8 pulled from a peer that is at 8. *)
Lemma sync_inserts_consecutive_witness :
  consecutiveFrom (goodFrame 5)
    (insertedFrames
       (newCalls node (fst (sync threeFrames (goodFrame 5) 8 "peer1" node))))
  /\
  requestedFrames
    (newCalls node (fst (sync threeFrames (goodFrame 5) 8 "peer1" node)))
  `prefix_of`
  map (fun held => FrameNumber held + 1)
    (goodFrame 5 ::
     insertedFrames
       (newCalls node (fst (sync threeFrames (goodFrame 5) 8 "peer1" node)))).
Proof.
  apply (sync_inserts_consecutive threeFrames (goodFrame 5) 8 "peer1" node).
  - simpl. lia.
  - lia.
Defined.

(** C2, as stated, fails when frame 6 comes from a producer that is not a
    prover: frame 6 is inserted all the same, frame 7 is requested from the
    same peer and inserted too. *)
Lemma sync_non_prover_frame_is_inserted :
  producerKeyValue (frameAt 6 "stranger" "vdf") = Returns "stranger" /\
  IsInProverTrie (frameProverTries node) "stranger" = false /\
  insertedFrames
    (newCalls node (fst (sync strangerFirst (goodFrame 5) 8 "peer1" node)))
  = [frameAt 6 "stranger" "vdf"; goodFrame 7] /\
  requestedFrames
    (newCalls node (fst (sync strangerFirst (goodFrame 5) 8 "peer1" node)))
  = [6; 7].
Proof. vm_compute. repeat split. Qed.

Lemma sync_non_prover_frame_witness :
  (forall info,
     peerMap node !! "peer1" = Some info ->
     peerMap (fst (sync strangerFirst (goodFrame 5) 8 "peer1" node))
       !! "peer1" = None /\
     uncooperativePeersMap
       (fst (sync strangerFirst (goodFrame 5) 8 "peer1" node))
       !! "peer1" = Some (stampedAt (demotedAt strangerFirst) info)) /\
  (VerifyDataClockFrame (frameAt 6 "stranger" "vdf") = None ->
   In (CallInsert (frameAt 6 "stranger" "vdf") true)
      (newCalls node
         (fst (sync strangerFirst (goodFrame 5) 8 "peer1" node))) /\
   (FrameNumber (frameAt 6 "stranger" "vdf") < 8 ->
    In (CallGetDataFrame "peer1"
          (uint64_add (FrameNumber (frameAt 6 "stranger" "vdf")) 1))
       (newCalls node
          (fst (sync strangerFirst (goodFrame 5) 8 "peer1" node))) \/
    length
      (requestedFrames
         (newCalls node
            (fst (sync strangerFirst (goodFrame 5) 8 "peer1" node))))
    = length (replies strangerFirst))).
Proof.
  apply (sync_non_prover_frame strangerFirst (goodFrame 5) 8 "peer1" node
           (frameAt 6 "stranger" "vdf") "stranger").
  - vm_compute. do 2 right. left. reflexivity.
  - reflexivity.
  - vm_compute. reflexivity.
Defined.



End SyncScenario.

(** ** [collect] *)

Section CollectTheorems.

Context `{TokenApplicationPkg} `{FrameProver} `{NodeConfig} `{PeerSampler}.

Implicit Types (e : DataClockConsensusEngine) (latest frame : ClockFrame).

(** A frame that the verifier refuses ends the loop with a nil frame and the
    verifier's error, and with [cooperative] as the trie check left it. *)
Lemma sync_loop_refused peer maxFrame e frame err replies :
  VerifyDataClockFrame frame = Some err ->
  forall latest cooperative,
  In (CallVerifyDataClockFrame frame)
     (fst (sync_loop peer maxFrame e replies latest cooperative)) ->
  exit_result (snd (sync_loop peer maxFrame e replies latest cooperative))
  = Returns (None, Some (Wrap err "sync")).
Proof.
  intros Hbad.
  induction replies as [|reply replies IH]; intros latest cooperative Hin;
    [destruct Hin|].
  destruct (sync_loop_turn peer maxFrame e reply replies latest cooperative)
    as (made & next & Hturn & Hloop).
  destruct Hturn as
    [ | | |
      | response frame' key' err' Hdf Hfollows Hkey' Hverify
      | response frame' key' Hdf Hfollows Hkey' Hverify Hmax
      | response frame' key' Hdf Hfollows Hkey' Hverify Hmax ];
    rewrite Hloop in Hin |- *; clear Hloop; simpl in Hin |- *;
    try (destruct Hin as [Hin|[]]; discriminate Hin).
  - destruct Hin as [Hin|[Hin|[]]]; [discriminate Hin|].
    injection Hin as Hsame; subst frame'. congruence.
  - destruct Hin as [Hin|[Hin|[Hin|[]]]]; try discriminate Hin.
    injection Hin as Hsame; subst frame'. congruence.
  - destruct Hin as [Hin|[Hin|[Hin|Hin]]]; try discriminate Hin.
    + injection Hin as Hsame; subst frame'. congruence.
    + by apply IH.
Qed.

Lemma insertedFrames_sync (s : SyncSession) latest maxFrame peer e :
  insertedFrames (newCalls e (fst (sync s latest maxFrame peer e)))
  = match dialError s with
    | Some _ => []
    | None =>
        insertedFrames
          (fst (sync_loop peer maxFrame e (replies s) latest true))
    end.
Proof.
  rewrite sync_newCalls'. destruct (dialError s); [done|]. simpl.
  rewrite insertedFrames_app. simpl. by rewrite app_nil_r.
Qed.

Lemma consecutiveFrom_app latest frames frames' :
  consecutiveFrom latest frames ->
  consecutiveFrom (List.last frames latest) frames' ->
  consecutiveFrom latest (frames ++ frames').
Proof.
  revert latest. induction frames as [|frame frames IH]; intros latest;
    [done|].
  intros (Hnum & Hts & Hrest) Hnext. simpl. split; [done|]. split; [done|].
  apply IH; [done|].
  destruct frames; [done|]. by rewrite (last_cons_default _ _ _ latest).
Qed.

Lemma consecutiveFrom_last latest frames :
  consecutiveFrom latest frames ->
  FrameNumber latest <= FrameNumber (List.last frames latest).
Proof.
  revert latest. induction frames as [|frame frames IH]; intros latest;
    [simpl; lia|].
  intros (Hnum & _ & Hrest). specialize (IH _ Hrest).
  destruct frames as [|frame' frames]; [simpl; lia|].
  change (List.last (frame :: frame' :: frames) latest)
    with (List.last (frame' :: frames) latest).
  rewrite (last_cons_default frames frame' latest frame). lia.
Qed.

(** One pass of [collect] over its candidates: [sync] is only called below
    the candidate's [MaxFrame], each call starts from the frame the previous
    one returned, and so all the frames the pass inserts are numbered
    consecutively from [latest]. *)
Lemma collect_candidates_consecutive sessions candidates :
  forall n latest e n' (final : option ClockFrame) e',
  collect_candidates sessions candidates n (Some latest) e
  = Returns (n', final, e') ->
  0 <= FrameNumber latest ->
  Forall (fun c => MaxFrame c < 2 ^ 64) candidates ->
  exists tr,
    calls e' = calls e ++ tr /\
    consecutiveFrom latest (insertedFrames tr) /\
    forall held, final = Some held ->
                 held = List.last (insertedFrames tr) latest.
Proof.
  induction candidates as [|candidate rest IH];
    intros n latest e n' final e' Hrun Hlatest Hbound.
  { injection Hrun as <- <- <-. exists []. rewrite app_nil_r.
    repeat split. simpl. congruence. }
  inversion Hbound as [|? ? Hmax Hrest]; subst.
  cbn [collect_candidates] in Hrun.
  destruct (Z.leb_spec (MaxFrame candidate)
              (Z.max (FrameNumber latest) (latestFrameReceived e)))
    as [Hskip|Hguard].
  { by apply (IH n latest e n' final e'). }
  destruct (sync (sessions n) latest (MaxFrame candidate) (PeerID candidate) e)
    as [e1 [[returned err]|]] eqn:Hsync; [|done].
  pose proof (sync_calls (sessions n) latest (MaxFrame candidate)
                (PeerID candidate) e) as Hcalls.
  pose proof (insertedFrames_sync (sessions n) latest (MaxFrame candidate)
                (PeerID candidate) e) as Hins.
  pose proof (sync_result (sessions n) latest (MaxFrame candidate)
                (PeerID candidate) e) as Hres.
  rewrite Hsync in Hcalls, Hins, Hres. simpl in Hcalls, Hins, Hres.
  set (tr1 := newCalls e e1) in *.
  assert (Hchain : consecutiveFrom latest (insertedFrames tr1)).
  { rewrite Hins. destruct (dialError (sessions n)); [done|].
    apply sync_loop_consecutive; lia. }
  assert (Hlast : forall held, returned = Some held ->
                    held = List.last (insertedFrames tr1) latest).
  { intros held ->. rewrite Hins.
    destruct (dialError (sessions n)); [simpl; congruence|].
    by eapply sync_loop_returns_last. }
  destruct returned as [held|].
  - specialize (Hlast held eq_refl).
    destruct (IH _ _ _ _ _ _ Hrun) as (tr2 & Hcalls2 & Hchain2 & Hlast2);
      [|done|].
    { pose proof (consecutiveFrom_last _ _ Hchain). rewrite <- Hlast in *. lia. }
    exists (tr1 ++ tr2). rewrite Hcalls2, Hcalls, <- app_assoc.
    split; [done|]. rewrite insertedFrames_app. split.
    + apply consecutiveFrom_app; [done|]. by rewrite <- Hlast.
    + intros held' Heq. rewrite (Hlast2 _ Heq), Hlast.
      destruct (insertedFrames tr2) as [|f fs] eqn:Hfs.
      * by rewrite app_nil_r.
      * symmetry. apply last_app_nonempty.
  - destruct rest as [|candidate' rest']; [|done].
    injection Hrun as <- <- <-. exists tr1.
    split; [done|]. split; [done|]. intros held [=].
Qed.

(** With a nil [latest], the next [latest.FrameNumber] panics: at the next
    candidate, or else at the top of the next pass. *)
Lemma collect_candidates_nil sessions candidate rest n e :
  collect_candidates sessions (candidate :: rest) n None e = Panics.
Proof. done. Qed.

Lemma collect_loop_nil fuel sessions n e :
  collect_loop (S fuel) sessions n None e = Some (e, Panics).
Proof. done. Qed.

(** A call of [sync] that returns a nil frame, as the refusal of a frame by
    the verifier makes it do, crashes [collect]. *)
Lemma collect_panics_after_nil_frame fuel sessions n frame e candidate rest
  e' err :
  GetAheadPeers (Z.max (FrameNumber frame) (latestFrameReceived e)) e
  = Returns (candidate :: rest) ->
  Z.max (FrameNumber frame) (latestFrameReceived e) < MaxFrame candidate ->
  sync (sessions n) frame (MaxFrame candidate) (PeerID candidate) e
  = (e', Returns (None, err)) ->
  exists e'',
    collect_loop (S (S fuel)) sessions n (Some frame) e = Some (e'', Panics).
Proof.
  intros Hahead Hguard Hsync.
  cbn [collect_loop]. rewrite Hahead. cbn [collect_candidates].
  destruct (Z.leb_spec (MaxFrame candidate)
              (Z.max (FrameNumber frame) (latestFrameReceived e))); [lia|].
  rewrite Hsync.
  destruct rest as [|candidate' rest']; cbn [collect_candidates]; eauto.
Qed.

End CollectTheorems.

(** ** [float64] *)

Section Float64Theorems.

Lemma digits2_pos_spec (p : positive) :
  2 ^ (Zpos (digits2_pos p) - 1) <= Zpos p < 2 ^ Zpos (digits2_pos p).
Proof.
  induction p as [p IH|p IH|]; cbn [digits2_pos].
  - rewrite Pos2Z.inj_succ.
    replace (Z.succ (Z.pos (digits2_pos p)) - 1) with (Z.pos (digits2_pos p)) by lia.
    rewrite Z.pow_succ_r by lia.
    assert (2 ^ Z.pos (digits2_pos p) = 2 * 2 ^ (Z.pos (digits2_pos p) - 1)).
    { rewrite <- Z.pow_succ_r by lia. f_equal. lia. }
    lia.
  - rewrite Pos2Z.inj_succ.
    replace (Z.succ (Z.pos (digits2_pos p)) - 1) with (Z.pos (digits2_pos p)) by lia.
    rewrite Z.pow_succ_r by lia.
    assert (2 ^ Z.pos (digits2_pos p) = 2 * 2 ^ (Z.pos (digits2_pos p) - 1)).
    { rewrite <- Z.pow_succ_r by lia. f_equal. lia. }
    lia.
  - simpl. lia.
Qed.

Lemma digits2_pos_unique (p : positive) (d : Z) :
  0 < d -> 2 ^ (d - 1) <= Zpos p < 2 ^ d -> Zpos (digits2_pos p) = d.
Proof.
  intros Hd Hp. pose proof (digits2_pos_spec p) as Hs.
  set (k := Zpos (digits2_pos p)) in *.
  assert (0 < k) by (subst k; lia).
  destruct (Z.lt_trichotomy k d) as [Hlt|[Heq|Hgt]]; [|done|].
  - assert (2 ^ k <= 2 ^ (d - 1)) by (apply Z.pow_le_mono_r; lia). lia.
  - assert (2 ^ d <= 2 ^ (k - 1)) by (apply Z.pow_le_mono_r; lia). lia.
Qed.

(** *** Shifting right with a round bit and a sticky bit *)

Lemma shifted_shr_1 m0 k mrs :
  0 <= k -> shifted m0 k mrs -> shifted m0 (k + 1) (shr_1 mrs).
Proof.
  intros Hk [Hm (t & Ht & Heq & Hs)].
  destruct mrs as [m r s]. simpl in *.
  assert (Hpow : 2 ^ (k + 1) = 2 * 2 ^ k) by (rewrite Z.pow_add_r; lia).
  assert (Hpow2 : 2 ^ (k + 1 + 1) = 4 * 2 ^ k)
    by (rewrite (Z.pow_add_r 2 (k + 1)), Hpow; lia).
  assert (Hpos : 0 < 2 ^ k) by (apply Z.pow_pos_nonneg; lia).
  unfold shifted. rewrite Hpow in Heq. rewrite Hpow2, Hpow.
  set (X := 2 ^ k) in *.
  assert (Hst : (r || s = true) <-> (if r then X else 0) + t <> 0).
  { destruct r; simpl; [split; [lia|done]|]. rewrite Hs. split; lia. }
  assert (Hrange : 0 <= (if r then X else 0) + t < 2 * X) by (destruct r; lia).
  destruct m as [|[p|p|]|p]; simpl; try lia;
    (split; [lia|]; exists ((if r then X else 0) + t);
     split; [done|]; split; [destruct r; lia|done]).
Qed.

Lemma shifted_iter_pos m0 (p : positive) : forall k mrs,
  0 <= k -> shifted m0 k mrs ->
  shifted m0 (k + Zpos p) (SpecFloat.iter_pos shr_1 p mrs).
Proof.
  induction p as [p IH|p IH|]; intros k mrs Hk Hinv; cbn [SpecFloat.iter_pos].
  - replace (k + Z.pos p~1) with (k + 1 + Z.pos p + Z.pos p) by lia.
    apply IH; [lia|]. apply IH; [lia|]. by apply shifted_shr_1.
  - replace (k + Z.pos p~0) with (k + Z.pos p + Z.pos p) by lia.
    apply IH; [lia|]. by apply IH.
  - by apply shifted_shr_1.
Qed.

Lemma shifted_start m0 : 0 <= m0 -> shifted m0 0 (shr_record_of_loc m0 loc_Exact).
Proof.
  intros Hm. split; [done|]. exists 0. simpl. split; [lia|]. split; [lia|]. split; [done|lia].
Qed.

(** *** Conversion of a [uint64] *)

Lemma iter_xO_spec (p k : positive) :
  Zpos (Pos.iter xO p k) = Zpos p * 2 ^ Zpos k.
Proof.
  induction k as [|k IH] using Pos.peano_ind.
  - simpl. lia.
  - rewrite Pos.iter_succ, Pos2Z.inj_xO, IH, Pos2Z.inj_succ, Z.pow_succ_r by lia.
    lia.
Qed.

Lemma fexp64 x : -1021 <= x -> fexp 53 1024 x = x - 53.
Proof. intros Hx. unfold fexp, emin. lia. Qed.

(** A 53-digit mantissa with an exponent in range is left as it is. *)
Lemma binary_round_aux_normal (m : positive) (e : Z) :
  Zpos (digits2_pos m) = 53 -> -1074 <= e <= 971 ->
  binary_round_aux 53 1024 false (Zpos m) e loc_Exact = S754_finite false m e.
Proof.
  intros Hd He. unfold binary_round_aux, shr_fexp. simpl Zdigits2.
  rewrite Hd, fexp64 by lia.
  replace (53 + e - 53 - e) with 0 by lia. simpl.
  rewrite Hd, fexp64 by lia.
  replace (53 + e - 53 - e) with 0 by lia. simpl.
  destruct (Z.leb_spec e (1024 - 53)); [done|lia].
Qed.

Lemma digits_le (p q : positive) :
  (p <= q)%positive -> Zpos (digits2_pos p) <= Zpos (digits2_pos q).
Proof.
  intros Hpq. pose proof (digits2_pos_spec p). pose proof (digits2_pos_spec q).
  destruct (Z.le_gt_cases (Zpos (digits2_pos p)) (Zpos (digits2_pos q)))
    as [|Hgt]; [done|].
  assert (2 ^ Zpos (digits2_pos q) <= 2 ^ (Zpos (digits2_pos p) - 1))
    by (apply Z.pow_le_mono_r; lia).
  lia.
Qed.

Lemma digits_bound (p : positive) (d : Z) :
  0 <= d -> Zpos p < 2 ^ d -> Zpos (digits2_pos p) <= d.
Proof.
  intros Hd Hp. pose proof (digits2_pos_spec p).
  destruct (Z.le_gt_cases (Zpos (digits2_pos p)) d) as [|Hgt]; [done|].
  assert (2 ^ d <= 2 ^ (Zpos (digits2_pos p) - 1))
    by (apply Z.pow_le_mono_r; lia).
  lia.
Qed.

Lemma rounded_range mrs : shr_m mrs <= rounded mrs <= shr_m mrs + 1.
Proof.
  unfold rounded. destruct mrs as [m [|] [|]]; simpl; try lia.
  destruct (Z.even m); lia.
Qed.

(** Rounding to nearest even is monotone. *)
Lemma rounded_mono a b k mrs mrs' :
  0 <= k -> a <= b -> shifted a k mrs -> shifted b k mrs' ->
  rounded mrs <= rounded mrs'.
Proof.
  intros Hk Hab [Hm (t & Ht & Heq & Hs)] [Hm' (t' & Ht' & Heq' & Hs')].
  pose proof (rounded_range mrs). pose proof (rounded_range mrs').
  assert (Hpos : 0 < 2 ^ k) by (apply Z.pow_pos_nonneg; lia).
  assert (Hpow : 2 ^ (k + 1) = 2 * 2 ^ k) by (rewrite Z.pow_add_r; lia).
  rewrite Hpow in Heq, Heq'. set (X := 2 ^ k) in *.
  destruct mrs as [m r s], mrs' as [m' r' s']. simpl in *.
  assert (Hmm : m <= m').
  { destruct (Z.le_gt_cases m m') as [|Hgt]; [done|]. exfalso.
    assert (m' * X + X <= m * X) by nia.
    destruct r, r'; lia. }
  destruct (Z.eq_dec m m') as [->|Hne]; [|lia].
  unfold rounded in *; simpl in *.
  destruct r, r', s, s'; simpl in *; try lia;
    try (destruct (Z.even m'); lia);
    try (assert (t = 0) by (destruct (Z.eq_dec t 0); [done|];
                            assert (false = true) by tauto; done));
    try (assert (t' = 0) by (destruct (Z.eq_dec t' 0); [done|];
                             assert (false = true) by tauto; done));
    try (assert (t <> 0) by tauto); try (assert (t' <> 0) by tauto);
    try lia; try (destruct (Z.even m'); lia).
Qed.

Lemma shr_fexp_same (m : positive) (e : Z) (l : location) :
  Zpos (digits2_pos m) = 53 -> -1074 <= e ->
  shr_fexp 53 1024 (Zpos m) e l = (shr_record_of_loc (Zpos m) l, e).
Proof.
  intros Hd He. unfold shr_fexp. simpl Zdigits2.
  rewrite Hd, fexp64 by lia.
  by replace (53 + e - 53 - e) with 0 by lia.
Qed.

Lemma shr_fexp_one (m : positive) (e : Z) (l : location) :
  Zpos (digits2_pos m) = 54 -> -1075 <= e ->
  shr_fexp 53 1024 (Zpos m) e l
  = (shr_1 (shr_record_of_loc (Zpos m) l), e + 1).
Proof.
  intros Hd He. unfold shr_fexp. simpl Zdigits2.
  rewrite Hd, fexp64 by lia.
  by replace (54 + e - 53 - e) with 1 by lia.
Qed.

Lemma finish_spec (m0 e : Z) :
  2 ^ 52 <= m0 <= 2 ^ 53 -> -1074 <= e <= 900 ->
  finish m0 e
  = if m0 <? 2 ^ 53 then S754_finite false (Z.to_pos m0) e
    else S754_finite false (Z.to_pos (2 ^ 52)) (e + 1).
Proof.
  intros Hm He. unfold finish.
  destruct (Z.ltb_spec m0 (2 ^ 53)) as [Hlt|Hge].
  - destruct m0 as [|m|m]; try lia.
    rewrite shr_fexp_same by (try apply digits2_pos_unique; lia).
    simpl. destruct (Z.leb_spec e (1024 - 53)); [done|lia].
  - assert (m0 = 2 ^ 53) as -> by lia.
    change (2 ^ 53) with (Zpos (Z.to_pos (2 ^ 53))).
    rewrite shr_fexp_one by (try (vm_compute; reflexivity); lia).
    replace (shr_1 _) with
      {| shr_m := 2 ^ 52; shr_r := false; shr_s := false |}
      by (vm_compute; reflexivity).
    cbn [shr_m]. change (2 ^ 52) with (Zpos (Z.to_pos (2 ^ 52))).
    cbv iota beta.
    destruct (Z.leb_spec (e + 1) (1024 - 53)); [done|lia].
Qed.

Lemma binary_round_aux_finish (m e : Z) (l : location) :
  binary_round_aux 53 1024 false m e l
  = finish (rounded (fst (shr_fexp 53 1024 m e l)))
      (snd (shr_fexp 53 1024 m e l)).
Proof.
  unfold binary_round_aux, finish, rounded.
  by destruct (shr_fexp 53 1024 m e l) as [mrs e'].
Qed.

Lemma shifted_mantissa_range a n mrs :
  0 <= n -> 2 ^ (n + 52) <= a < 2 ^ (n + 53) -> shifted a n mrs ->
  2 ^ 52 <= shr_m mrs < 2 ^ 53.
Proof.
  intros Hn Ha [Hm (t & Ht & Heq & Hs)].
  assert (Hpos : 0 < 2 ^ n) by (apply Z.pow_pos_nonneg; lia).
  rewrite !Z.pow_add_r in * by lia.
  set (X := 2 ^ n) in *.
  assert (Hr : 0 <= (if shr_r mrs then X else 0) + t < 2 * X)
    by (destruct (shr_r mrs); lia).
  change (2 ^ 1) with 2 in Heq.
  split; nia.
Qed.

Lemma conv_correct (a : Z) :
  0 < a < 2 ^ 64 ->
  exists M E,
    float64_of_uint64 a = S754_finite false M E /\
    convSpec a (Zpos M) E /\
    2 ^ 52 <= Zpos M < 2 ^ 53 /\ -52 <= E <= 12.
Proof.
  intros Ha. destruct a as [|p|p]; try lia.
  pose proof (digits2_pos_spec p) as Hdig.
  assert (Hd64 : Zpos (digits2_pos p) <= 64) by (apply digits_bound; lia).
  remember (Zpos (digits2_pos p)) as d eqn:Hd.
  assert (Hd1 : 1 <= d) by (subst d; lia).
  unfold float64_of_uint64, binary_normalize, binary_round.
  rewrite <- Hd. rewrite fexp64 by lia.
  unfold shl_align.
  destruct (d + 0 - 53 - 0) as [|k|k] eqn:Hshift.
  - (* 53 digits *)
    assert (Hd53 : d = 53) by lia.
    rewrite binary_round_aux_normal by lia.
    exists p, 0. split; [done|]. rewrite Hd53 in Hdig. split; [|lia].
    exists p. split; [done|]. left. rewrite <- Hd, Hd53.
    split; [lia|]. split; [lia|]. simpl. lia.
  - (* more than 53 digits *)
    assert (Hk : Zpos k = d - 53) by lia.
    rewrite binary_round_aux_finish.
    unfold shr_fexp. simpl Zdigits2. rewrite <- Hd.
    rewrite fexp64 by lia.
    replace (d + 0 - 53 - 0) with (Zpos k) by lia. cbn [shr fst snd].
    pose proof (shifted_iter_pos (Zpos p) k 0 _ ltac:(lia)
                  (shifted_start (Zpos p) ltac:(lia))) as Hsh.
    set (mrs := SpecFloat.iter_pos shr_1 k _) in *.
    rewrite Z.add_0_l in Hsh |- *.
    assert (Hrange : 2 ^ 52 <= shr_m mrs < 2 ^ 53).
    { apply (shifted_mantissa_range (Zpos p) (Zpos k) mrs); [lia| |done].
      rewrite Hk. replace (d - 53 + 52) with (d - 1) by lia.
      by replace (d - 53 + 53) with d by lia. }
    pose proof (rounded_range mrs) as Hround.
    rewrite finish_spec by lia.
    destruct (Z.ltb_spec (rounded mrs) (2 ^ 53)) as [Hlt|Hge].
    + eexists _, _. split; [reflexivity|].
      rewrite Z2Pos.id by lia. split; [|lia].
      exists p. split; [done|]. right. rewrite <- Hd. split; [lia|].
      exists mrs. rewrite <- Hk. split; [done|]. left. lia.
    + eexists _, _. split; [reflexivity|].
      rewrite Z2Pos.id by lia. split; [|lia].
      exists p. split; [done|]. right. rewrite <- Hd. split; [lia|].
      exists mrs. rewrite <- Hk. split; [done|]. right. lia.
  - (* fewer than 53 digits *)
    assert (Hk : Zpos k = 53 - d) by lia.
    assert (Hval : Zpos (Pos.iter xO p k) = Zpos p * 2 ^ (53 - d))
      by (rewrite iter_xO_spec, Hk; done).
    assert (Hpow : 2 ^ 52 = 2 ^ (d - 1) * 2 ^ (53 - d))
      by (rewrite <- Z.pow_add_r by lia; f_equal; lia).
    assert (Hpow' : 2 ^ 53 = 2 ^ d * 2 ^ (53 - d))
      by (rewrite <- Z.pow_add_r by lia; f_equal; lia).
    assert (Hpos : 0 < 2 ^ (53 - d)) by (apply Z.pow_pos_nonneg; lia).
    assert (Hm : 2 ^ 52 <= Zpos (Pos.iter xO p k) < 2 ^ 53).
    { rewrite Hval, Hpow, Hpow'. split; nia. }
    rewrite binary_round_aux_normal
      by (try apply digits2_pos_unique; lia).
    eexists _, _. split; [reflexivity|]. split; [|lia].
    exists p. split; [done|]. left. rewrite <- Hd. split; [lia|].
    split; [lia|]. exact Hval.
Qed.

(** The conversion is monotone: the pair (exponent, mantissa) grows. *)
Lemma conv_mono (a b : Z) (Ma Mb Ea Eb : Z) :
  a <= b ->
  convSpec a Ma Ea -> convSpec b Mb Eb ->
  2 ^ 52 <= Ma < 2 ^ 53 -> 2 ^ 52 <= Mb < 2 ^ 53 ->
  Ea < Eb \/ (Ea = Eb /\ Ma <= Mb).
Proof.
  intros Hab (p & -> & Ha) (q & -> & Hb) HMa HMb.
  assert (Hdig : Zpos (digits2_pos p) <= Zpos (digits2_pos q))
    by (apply digits_le; lia).
  set (da := Zpos (digits2_pos p)) in *.
  set (db := Zpos (digits2_pos q)) in *.
  destruct Ha as [(Hda & -> & ->)|(Hda & mrs & Hsh & Ha)];
    destruct Hb as [(Hdb & -> & ->)|(Hdb & mrs' & Hsh' & Hb)].
  - destruct (Z.eq_dec da db) as [Heq|Hne]; [|lia].
    right. split; [lia|]. rewrite Heq.
    apply Z.mul_le_mono_nonneg_r; [|done].
    apply Z.pow_nonneg; lia.
  - left. destruct Hb as [(_ & _ & ->)|(_ & _ & ->)]; lia.
  - lia.
  - destruct (Z.eq_dec da db) as [Heq|Hne].
    + rewrite <- Heq in Hsh'.
      assert (Hmono : rounded mrs <= rounded mrs')
        by (apply (rounded_mono (Zpos p) (Zpos q) (da - 53)); [lia|done..]).
      destruct Ha as [(Hr & -> & ->)|(Hr & -> & ->)];
        destruct Hb as [(Hr' & -> & ->)|(Hr' & -> & ->)]; lia.
    + destruct Ha as [(Hr & -> & ->)|(Hr & -> & ->)];
        destruct Hb as [(Hr' & -> & ->)|(Hr' & -> & ->)]; lia.
Qed.

(** *** Division of two normal numbers *)

Lemma shr_m_shr_1 (mrs : shr_record) :
  0 <= shr_m mrs -> shr_m (shr_1 mrs) = Z.div2 (shr_m mrs).
Proof. destruct mrs as [[|[p|p|]|p] r s]; simpl; done || lia. Qed.

Lemma shr_m_of_loc (m : Z) (l : location) : shr_m (shr_record_of_loc m l) = m.
Proof. by destruct l as [|[| |]]. Qed.

Lemma new_location_exact (n : Z) : new_location n 0 = loc_Exact.
Proof. unfold new_location. by destruct (Z.even n). Qed.

Lemma finish_atMostOne (m e : Z) :
  2 ^ 52 <= m <= 2 ^ 53 -> -200 <= e ->
  e < -53 \/ (e = -53) \/ (e = -52 /\ m = 2 ^ 52) ->
  exists M E, finish m e = S754_finite false M E /\ atMostOne M E.
Proof.
  intros Hm He Hcase. rewrite finish_spec by lia.
  destruct (Z.ltb_spec m (2 ^ 53)) as [Hlt|Hge].
  - eexists _, _. split; [reflexivity|]. unfold atMostOne.
    rewrite Z2Pos.id by lia. lia.
  - eexists _, _. split; [reflexivity|]. unfold atMostOne.
    rewrite Z2Pos.id by lia. lia.
Qed.

Lemma div_atMostOne (M1 M2 : positive) (E1 E2 : Z) :
  2 ^ 52 <= Zpos M1 < 2 ^ 53 -> 2 ^ 52 <= Zpos M2 < 2 ^ 53 ->
  -52 <= E1 <= 12 -> -52 <= E2 <= 12 ->
  E1 < E2 \/ (E1 = E2 /\ Zpos M1 <= Zpos M2) ->
  exists M E,
    float64_div (S754_finite false M1 E1) (S754_finite false M2 E2)
    = S754_finite false M E /\ atMostOne M E.
Proof.
  intros HM1 HM2 HE1 HE2 Hle.
  unfold float64_div, SFdiv, SFdiv_core_binary. simpl Zdigits2.
  rewrite (digits2_pos_unique M1 53), (digits2_pos_unique M2 53) by lia.
  rewrite fexp64 by lia.
  replace (Z.min (53 + E1 - (53 + E2) - 53) (E1 - E2))
    with (E1 - E2 - 53) by lia.
  replace (E1 - E2 - (E1 - E2 - 53)) with 53 by lia.
  cbv iota beta.
  rewrite Z.shiftl_mul_pow2 by lia.
  pose proof (Z_div_mod (Zpos M1 * 2 ^ 53) (Zpos M2) ltac:(lia)) as Hdiv.
  destruct (Z.div_eucl (Zpos M1 * 2 ^ 53) (Zpos M2)) as [q r].
  destruct Hdiv as [Hq Hr]. simpl xorb.
  assert (Hq1 : 2 ^ 52 <= q) by nia.
  assert (Hq2 : q < 2 ^ 54) by nia.
  rewrite binary_round_aux_finish.
  destruct q as [|q|q]; try lia.
  destruct (Z.lt_ge_cases (Zpos q) (2 ^ 53)) as [Hsmall|Hlarge].
  - rewrite shr_fexp_same by (try apply digits2_pos_unique; lia).
    cbn [fst snd].
    pose proof (rounded_range (shr_record_of_loc (Zpos q) (new_location (Zpos M2) r))) as Hround.
    rewrite shr_m_of_loc in Hround.
    apply finish_atMostOne; lia.
  - rewrite shr_fexp_one by (try apply digits2_pos_unique; lia).
    cbn [fst snd].
    destruct Hle as [Hlt|[Heq Hmle]].
    + pose proof (rounded_range (shr_1 (shr_record_of_loc (Zpos q) (new_location (Zpos M2) r)))) as Hround.
      rewrite shr_m_shr_1, shr_m_of_loc in Hround
        by (rewrite shr_m_of_loc; lia).
      rewrite Z.div2_div in Hround.
      assert (2 ^ 52 <= Zpos q / 2 < 2 ^ 53).
      { split; [apply Z.div_le_lower_bound; lia
               |apply Z.div_lt_upper_bound; lia]. }
      apply finish_atMostOne; lia.
    + assert (Hsame : Zpos M1 = Zpos M2) by nia.
      assert (Hq53 : Zpos q = 2 ^ 53) by nia.
      assert (Hr0 : r = 0) by nia.
      rewrite Hq53, Hr0, new_location_exact.
      replace (rounded _) with (2 ^ 52) by (vm_compute; reflexivity).
      apply finish_atMostOne; lia.
Qed.

Lemma atMostOne_leb (M : positive) (E : Z) :
  atMostOne M E ->
  SFleb float64_zero (S754_finite false M E) = true /\
  SFleb (S754_finite false M E) float64_one = true.
Proof.
  intros [HM HE]. split; [done|].
  unfold SFleb, SFcompare, float64_one.
  destruct HE as [Hlt|[-> HM52]].
  - by rewrite (proj2 (Z.compare_lt_iff E (-52)) Hlt).
  - assert (M = 4503599627370496%positive) as -> by lia. done.
Qed.

(** The quotient of two [uint64], [0 < a <= b], lies between 0 and 1. *)
Theorem float64_quotient_unit (a b : Z) :
  0 < a <= b -> b < 2 ^ 64 ->
  float64_leb float64_zero
    (float64_div (float64_of_uint64 a) (float64_of_uint64 b)) = true /\
  float64_leb (float64_div (float64_of_uint64 a) (float64_of_uint64 b))
    float64_one = true.
Proof.
  intros Hab Hb.
  destruct (conv_correct a ltac:(lia)) as (Ma & Ea & -> & Hsa & HMa & HEa).
  destruct (conv_correct b ltac:(lia)) as (Mb & Eb & -> & Hsb & HMb & HEb).
  destruct (div_atMostOne Ma Mb Ea Eb HMa HMb HEa HEb) as (M & E & -> & Hone).
  { apply (conv_mono a b); [lia|done..]. }
  by apply atMostOne_leb.
Qed.

End Float64Theorems.

(** ** [GetAheadPeers] *)

Section AheadPeersTheorems.

Context `{TokenApplicationPkg} `{NodeConfig} `{PeerSampler}.

Implicit Types (e : DataClockConsensusEngine) (v : peerInfo)
  (vs : list peerInfo) (head : Z).

Lemma scanPeer_eligible head e acc v :
  scanPeer head e acc v
  = if eligible head e v
    then (fst acc ++ [unweighted v],
          Z.max (snd acc) (uint64_sub (maxFrame v) head))
    else acc.
Proof.
  unfold scanPeer, eligible.
  destruct (Z.leb_spec (maxFrame v) head), (Z.ltb_spec head (maxFrame v));
    try lia; simpl; [done|].
  destruct (uncooperativePeersMap e !! peerId v) eqn:Hun; simpl; [done|].
  destruct (Z.leb_spec (timestamp v) MinimumVersionCutoff),
           (Z.ltb_spec MinimumVersionCutoff (timestamp v));
    try lia; simpl; [done|].
  by destruct (bool_decide (bytes_compare (version v) MinimumVersion = Lt)).
Qed.

Lemma scanPeers_fold head e vs : forall acc,
  foldl (scanPeer head e) acc vs
  = (fst acc ++ map unweighted (List.filter (eligible head e) vs),
     foldl Z.max (snd acc)
       (map (fun v => uint64_sub (maxFrame v) head)
          (List.filter (eligible head e) vs))).
Proof.
  induction vs as [|v vs IH]; intros [cs maxDiff]; simpl.
  { by rewrite app_nil_r. }
  rewrite IH, scanPeer_eligible.
  destruct (eligible head e v); simpl; [|done].
  by rewrite <- app_assoc.
Qed.

Lemma scanPeers_spec head e :
  scanPeers head e
  = (map unweighted (aheadPeers head e),
     foldl Z.max 0
       (map (fun v => uint64_sub (maxFrame v) head) (aheadPeers head e))).
Proof. unfold scanPeers. by rewrite scanPeers_fold. Qed.

Lemma foldl_max_foldr (l : list Z) : forall a,
  0 <= a -> foldl Z.max a l = Z.max a (foldr Z.max 0 l).
Proof.
  induction l as [|x l IH]; intros a Ha; simpl; [lia|].
  rewrite IH by lia. lia.
Qed.

Lemma foldl_max_0 (l : list Z) : foldl Z.max 0 l = foldr Z.max 0 l.
Proof.
  assert (Hpos : 0 <= foldr Z.max 0 l).
  { induction l; simpl; lia. }
  rewrite foldl_max_foldr by lia. lia.
Qed.

Lemma foldr_max_Permutation (l l' : list Z) :
  l ≡ₚ l' -> foldr Z.max 0 l = foldr Z.max 0 l'.
Proof. induction 1; simpl; lia. Qed.

Lemma foldr_max_bound (l : list Z) x : x ∈ l -> x <= foldr Z.max 0 l.
Proof.
  induction l as [|y l IH]; [by intros ?%elem_of_nil|].
  intros [->|Hin]%elem_of_cons; simpl; [lia|]. specialize (IH Hin). lia.
Qed.

Lemma foldr_max_below (l : list Z) b :
  0 < b -> Forall (fun x => x < b) l -> foldr Z.max 0 l < b.
Proof. intros Hb. induction 1; simpl; lia. Qed.

Lemma aheadPeers_elem head e v :
  v ∈ aheadPeers head e <->
  exists k, peerMap e !! k = Some v /\ eligible head e v = true.
Proof.
  unfold aheadPeers. rewrite list_elem_of_In, filter_In, <- list_elem_of_In.
  rewrite list_elem_of_fmap. split.
  - intros [([k v'] & -> & Hin) Hel]. exists k.
    by apply elem_of_map_to_list in Hin.
  - intros (k & Hk & Hel). split; [|done].
    exists (k, v). split; [done|]. by apply elem_of_map_to_list.
Qed.

Lemma eligible_ahead head e v : eligible head e v = true -> head < maxFrame v.
Proof.
  unfold eligible. rewrite !andb_true_iff. intros [[[Hhead _] _] _]. lia.
Qed.

Lemma weightedCandidates_spec head e :
  weightedCandidates head e
  = map (fun v =>
           setWeight head
             (foldr Z.max 0
                (map (fun v => uint64_sub (maxFrame v) head)
                   (aheadPeers head e)))
             (unweighted v))
      (aheadPeers head e).
Proof.
  unfold weightedCandidates. rewrite scanPeers_spec. simpl.
  by rewrite foldl_max_0, map_map.
Qed.

Lemma weightedCandidates_candidates head e :
  map Candidate (weightedCandidates head e)
  = map candidateOf (aheadPeers head e).
Proof. rewrite weightedCandidates_spec, map_map. done. Qed.

(** What [GetAheadPeers] returns when the node is not itself a prover. *)
Lemma GetAheadPeers_follower head e trie0 tries :
  frameProverTries e = trie0 :: tries ->
  provingKeyAddress e ∉ trie0 ->
  exists returned,
    GetAheadPeers head e = Returns returned /\
    returned ≡ₚ map Candidate (weightedCandidates head e).
Proof.
  intros Htries Hout. unfold GetAheadPeers. rewrite Htries.
  rewrite bool_decide_eq_false_2 by done.
  destruct (weightedCandidates head e) as [|w ws] eqn:Hws; simpl.
  - by exists [].
  - eexists. split; [done|]. apply (sample_all (w :: ws)).
Qed.

(** C6.  When the node's own proving key address is in the prover trie of
    filter 0, [GetAheadPeers head] returns the empty list.  Otherwise it
    returns, in some order, exactly the peers of the peer map that are ahead
    of [head], absent from the uncooperative map, heard of after the version
    cutoff and at the minimum version or later; and the weight computed for
    each of them is its [MaxFrame - head] divided, in [float64], by the
    largest such difference among the returned candidates, which puts it
    between 0 and 1. *)
Theorem GetAheadPeers_spec head e trie0 tries :
  frameProverTries e = trie0 :: tries ->
  is_uint64 head ->
  (forall k v, peerMap e !! k = Some v -> is_uint64 (maxFrame v)) ->
  (provingKeyAddress e ∈ trie0 -> GetAheadPeers head e = Returns []) /\
  (provingKeyAddress e ∉ trie0 ->
   exists returned,
     GetAheadPeers head e = Returns returned /\
     returned ≡ₚ map candidateOf (aheadPeers head e) /\
     (forall c, c ∈ returned <->
        exists k v, peerMap e !! k = Some v /\
                    eligible head e v = true /\ c = candidateOf v) /\
     map Candidate (weightedCandidates head e) ≡ₚ returned /\
     Forall
       (fun w =>
          Weight w
          = float64_div
              (float64_of_uint64 (MaxFrame (Candidate w) - head))
              (float64_of_uint64 (maxDifference head returned)) /\
          0 < MaxFrame (Candidate w) - head <= maxDifference head returned /\
          float64_leb float64_zero (Weight w) = true /\
          float64_leb (Weight w) float64_one = true)
       (weightedCandidates head e)).
Proof.
  intros Htries Hhead Hpeers. split.
  { intros Hin. unfold GetAheadPeers. rewrite Htries.
    by rewrite bool_decide_eq_true_2. }
  intros Hout.
  destruct (GetAheadPeers_follower head e trie0 tries Htries Hout)
    as (returned & Hret & Hperm).
  exists returned. split; [done|].
  rewrite weightedCandidates_candidates in Hperm.
  (* every peer that is kept is a uint64 ahead of head *)
  assert (Hkept : forall v, v ∈ aheadPeers head e ->
            0 < maxFrame v - head < 2 ^ 64 /\
            uint64_sub (maxFrame v) head = maxFrame v - head).
  { intros v (k & Hk & Hel)%aheadPeers_elem.
    apply eligible_ahead in Hel. specialize (Hpeers _ _ Hk).
    unfold is_uint64 in *.
    assert (0 < maxFrame v - head < 2 ^ 64) by lia.
    split; [done|]. unfold uint64_sub. apply uint64_wrap_id.
    unfold is_uint64. lia. }
  (* the largest difference, over the kept peers and over the returned *)
  assert (Hmax : foldr Z.max 0
                   (map (fun v => uint64_sub (maxFrame v) head)
                      (aheadPeers head e))
                 = maxDifference head returned).
  { unfold maxDifference.
    transitivity
      (foldr Z.max 0
         (map (fun c => MaxFrame c - head)
            (map candidateOf (aheadPeers head e)))).
    - rewrite map_map. f_equal. apply map_ext_in.
      intros v Hv%list_elem_of_In. by apply Hkept.
    - apply foldr_max_Permutation, Permutation_map. by symmetry. }
  split; [done|]. split.
  { intros c. rewrite Hperm, list_elem_of_fmap. split.
    - intros (v & -> & (k & Hk & Hel)%aheadPeers_elem). eauto.
    - intros (k & v & Hk & Hel & ->). exists v. split; [done|].
      apply aheadPeers_elem. eauto. }
  split; [by rewrite weightedCandidates_candidates|].
  rewrite weightedCandidates_spec, Hmax.
  apply Forall_forall. intros w (v & -> & Hv)%list_elem_of_fmap.
  destruct (Hkept v Hv) as [Hrange Hsub]. simpl.
  rewrite Hsub.
  assert (Hle : maxFrame v - head <= maxDifference head returned).
  { rewrite <- Hmax. apply foldr_max_bound.
    apply list_elem_of_fmap. exists v. by rewrite Hsub. }
  assert (Hbelow : maxDifference head returned < 2 ^ 64).
  { rewrite <- Hmax. apply foldr_max_below; [lia|].
    apply Forall_forall. intros x (v' & -> & Hv')%list_elem_of_fmap.
    destruct (Hkept v' Hv') as [? ->]. lia. }
  split; [done|]. split; [lia|].
  apply float64_quotient_unit; lia.
Qed.

End AheadPeersTheorems.

(** ** A sampler to compute with *)

Lemma inOrder_sample_all (cs : list WeightedPeerCandidate) :
  take (length cs) (map Candidate cs) ≡ₚ map Candidate cs.
Proof. by rewrite firstn_all2 by (by rewrite length_map). Qed.

(** The draw that leaves the candidates in the order they were found. *)
Definition inOrder : PeerSampler := {|
  WeightedSampleWithoutReplacement cs n := take n (map Candidate cs);
  sample_all := inOrder_sample_all
|}.

(** *** [GetAheadPeers] and [collect] on the small node *)

Section CollectScenario.

Import Scenario.

#[local] Existing Instances tokenApplication frameProver nodeConfig inOrder.

Lemma manyPeers_uint64 k v :
  manyPeers !! k = Some v -> is_uint64 (maxFrame v).
Proof.
  intros Hk%elem_of_map_to_list. vm_compute in Hk.
  repeat (apply elem_of_cons in Hk as [Hk|Hk];
          [injection Hk as _ ->; vm_compute; split; congruence|]).
  by apply elem_of_nil in Hk.
Qed.

(** Six peers heard of, one of them demoted; the head is 5.  The two peers
    kept are 3 and 6 frames ahead: their weights are [0.5] and [1.0]. *)
Lemma GetAheadPeers_spec_witness :
  GetAheadPeers 5 registry
  = Returns [ {| PeerID := "peer1"; MaxFrame := 8 |};
              {| PeerID := "peer2"; MaxFrame := 11 |} ] /\
  map Weight (weightedCandidates 5 registry)
  = [ S754_finite false 4503599627370496 (-53); float64_one ] /\
  Forall
    (fun w =>
       float64_leb float64_zero (Weight w) = true /\
       float64_leb (Weight w) float64_one = true)
    (weightedCandidates 5 registry).
Proof.
  destruct (GetAheadPeers_spec 5 registry {[ "prover" ]} [])
    as [_ Hfollower].
  - reflexivity.
  - vm_compute. split; congruence.
  - apply manyPeers_uint64.
  - destruct Hfollower as (returned & Hret & _ & _ & _ & Hweights).
    + vm_compute. intros Hin. discriminate Hin.
    + split; [vm_compute; reflexivity|].
      split; [vm_compute; reflexivity|].
      eapply Forall_impl; [exact Hweights|].
      intros w (_ & _ & Hlo & Hhi). by split.
Defined.

(** C3.  A peer's frame 6 fails [VerifyDataClockFrame].  As the claim says,
    [sync] returns a hard error and the peer stays in the peer map.  But the
    frame [sync] returns with that error is nil, [collect] keeps it as its
    [latest], and the next [latest.FrameNumber] panics: at the second
    candidate when there is one, at the top of the next pass otherwise.
    [collect] does not go on to the remaining candidates. *)
Theorem collect_crashes_after_refused_frame :
  VerifyDataClockFrame (frameAt 6 "prover" "")
  = Some (ErrorString "invalid proof") /\
  snd (sync (badProof 0) (goodFrame 5) 8 "peer1" (engine 0 1 twoPeers))
  = Returns (None, Some (Wrap (ErrorString "invalid proof") "sync")) /\
  peerMap
    (fst (sync (badProof 0) (goodFrame 5) 8 "peer1" (engine 0 1 twoPeers)))
    !! "peer1" = Some (peer "peer1" 8) /\
  uncooperativePeersMap
    (fst (sync (badProof 0) (goodFrame 5) 8 "peer1" (engine 0 1 twoPeers)))
    !! "peer1" = None /\
  GetAheadPeers 5 (engine 0 1 twoPeers)
  = Returns [ {| PeerID := "peer1"; MaxFrame := 8 |};
              {| PeerID := "peer2"; MaxFrame := 11 |} ] /\
  option_map snd (collect 1 badProof (goodFrame 5) (engine 0 1 twoPeers))
  = Some Panics /\
  option_map snd (collect 2 badProof (goodFrame 5) node) = Some Panics.
Proof. vm_compute. repeat split. Qed.

End CollectScenario.

(** * More theorems

    ** [collect] as a whole *)

Section CollectMore.

Context `{TokenApplicationPkg} `{FrameProver} `{NodeConfig} `{PeerSampler}.

Implicit Types (e : DataClockConsensusEngine) (latest frame : ClockFrame).

(** Every candidate that [GetAheadPeers] returns is an eligible peer of the
    peer map. *)
Lemma GetAheadPeers_elem head e cs c :
  GetAheadPeers head e = Returns cs -> c ∈ cs ->
  exists k v, peerMap e !! k = Some v /\ eligible head e v = true /\
              c = candidateOf v.
Proof.
  unfold GetAheadPeers. intros Hrun Hc.
  destruct (frameProverTries e) as [|trie0 tries] eqn:Htries; [done|].
  destruct (bool_decide (provingKeyAddress e ∈ trie0)) eqn:Hprover.
  { injection Hrun as <-. by apply elem_of_nil in Hc. }
  destruct (length (weightedCandidates head e) =? 0)%nat.
  { injection Hrun as <-. by apply elem_of_nil in Hc. }
  injection Hrun as <-.
  rewrite (sample_all (weightedCandidates head e)) in Hc.
  rewrite weightedCandidates_candidates in Hc.
  apply list_elem_of_fmap in Hc as (v & -> & Hv).
  apply aheadPeers_elem in Hv as (k & Hk & Hel). eauto.
Qed.

(** [GetAheadPeers] reads the peer maps, the prover tries and the node's own
    address, and nothing else of the engine. *)
Lemma GetAheadPeers_ext head e e' :
  peerMap e' = peerMap e ->
  uncooperativePeersMap e' = uncooperativePeersMap e ->
  frameProverTries e' = frameProverTries e ->
  provingKeyAddress e' = provingKeyAddress e ->
  GetAheadPeers head e' = GetAheadPeers head e.
Proof.
  intros Hpm Hun Htries Haddr.
  assert (Hscan : forall acc v, scanPeer head e' acc v = scanPeer head e acc v).
  { intros acc v. unfold scanPeer. by rewrite Hun. }
  assert (Hscans : scanPeers head e' = scanPeers head e).
  { unfold scanPeers. rewrite Hpm.
    generalize (map snd (map_to_list (peerMap e))) as vs.
    generalize (@nil WeightedPeerCandidate, 0) as acc.
    intros acc vs. revert acc.
    induction vs as [|v vs IH]; intros acc; [done|].
    simpl. rewrite Hscan. apply IH. }
  unfold GetAheadPeers, weightedCandidates.
  by rewrite Htries, Haddr, Hscans.
Qed.

(** What [sync] leaves of the engine: everything but the call log and the
    two peer maps, and of those every entry is one that was there before. *)
Lemma sync_keeps (s : SyncSession) latest maxFrame peer e :
  let e' := fst (sync s latest maxFrame peer e) in
  latestFrameReceived e' = latestFrameReceived e /\
  frameProverTries e' = frameProverTries e /\
  provingKeyAddress e' = provingKeyAddress e /\
  (forall k v, peerMap e' !! k = Some v -> peerMap e !! k = Some v).
Proof.
  unfold sync. cbv zeta.
  destruct (dialError s) as [err|]; cbn [fst snd exit_cooperative].
  - unfold demote. simpl.
    destruct (peerMap e !! peer) as [info|] eqn:Hp; simpl; [|done].
    repeat split. intros k v. rewrite lookup_delete_Some. tauto.
  - destruct (exit_cooperative _); simpl; [done|].
    unfold demote. simpl.
    destruct (peerMap e !! peer) as [info|] eqn:Hp; simpl; [|done].
    repeat split. intros k v. rewrite lookup_delete_Some. tauto.
Qed.

(** One pass over the candidates keeps as much. *)
Lemma collect_candidates_keeps sessions candidates :
  forall n (latest : option ClockFrame) e n' (final : option ClockFrame) e',
  collect_candidates sessions candidates n latest e
  = Returns (n', final, e') ->
  latestFrameReceived e' = latestFrameReceived e /\
  frameProverTries e' = frameProverTries e /\
  provingKeyAddress e' = provingKeyAddress e /\
  (forall k v, peerMap e' !! k = Some v -> peerMap e !! k = Some v).
Proof.
  induction candidates as [|candidate rest IH];
    intros n latest e n' final e' Hrun.
  { by injection Hrun as <- <- <-. }
  cbn [collect_candidates] in Hrun.
  destruct latest as [frame|]; [|done].
  destruct (MaxFrame candidate
            <=? Z.max (FrameNumber frame) (latestFrameReceived e)).
  { by apply (IH _ _ _ _ _ _ Hrun). }
  pose proof (sync_keeps (sessions n) frame (MaxFrame candidate)
                (PeerID candidate) e) as Hkeeps.
  destruct (sync (sessions n) frame (MaxFrame candidate) (PeerID candidate) e)
    as [e1 [[returned err]|]]; [|done].
  cbv zeta in Hkeeps. simpl in Hkeeps.
  destruct Hkeeps as (Hrecv & Htries & Haddr & Hpeers).
  destruct (IH _ _ _ _ _ _ Hrun) as (Hrecv' & Htries' & Haddr' & Hpeers').
  repeat split; try congruence. eauto.
Qed.

Lemma collect_loop_consecutive fuel sessions :
  forall n latest e e' held (err : option error),
  0 <= FrameNumber latest ->
  (forall k v, peerMap e !! k = Some v -> maxFrame v < 2 ^ 64) ->
  collect_loop fuel sessions n (Some latest) e
  = Some (e', Returns (Some held, err)) ->
  err = None /\
  GetAheadPeers (Z.max (FrameNumber held) (latestFrameReceived e')) e'
  = Returns [] /\
  exists tr,
    calls e' = calls e ++ tr /\
    consecutiveFrom latest (insertedFrames tr) /\
    held = List.last (insertedFrames tr) latest.
Proof.
  induction fuel as [|fuel IH]; intros n latest e e' held err Hlatest Hbound;
    [done|].
  cbn [collect_loop].
  destruct (GetAheadPeers _ e) as [[|candidate rest]|] eqn:Hahead; [| |done].
  { intros [= <- <- <-]. split; [done|]. split; [done|].
    exists []. by rewrite app_nil_r. }
  destruct (collect_candidates sessions (candidate :: rest) n (Some latest) e)
    as [[[n1 final] e1]|] eqn:Hpass; [|done].
  intros Hrest.
  destruct final as [mid|]; [|by destruct fuel].
  destruct (collect_candidates_keeps _ _ _ _ _ _ _ _ Hpass)
    as (_ & _ & _ & Hpeers).
  destruct (collect_candidates_consecutive _ _ _ _ _ _ _ _ Hpass Hlatest)
    as (tr1 & Hcalls1 & Hchain1 & Hlast1).
  { apply Forall_forall. intros c Hc.
    destruct (GetAheadPeers_elem _ _ _ _ Hahead Hc) as (k & v & Hk & _ & ->).
    simpl. eauto. }
  specialize (Hlast1 mid eq_refl).
  destruct (IH n1 mid e1 e' held err) as (Herr & Hidle & tr2 & Hcalls2 & Hchain2 & Hlast2);
    [| |done|].
  { pose proof (consecutiveFrom_last _ _ Hchain1). rewrite <- Hlast1 in *. lia. }
  { eauto. }
  split; [done|]. split; [done|].
  exists (tr1 ++ tr2). rewrite Hcalls2, Hcalls1, <- app_assoc.
  split; [done|]. rewrite insertedFrames_app. split.
  - apply consecutiveFrom_app; [done|]. by rewrite <- Hlast1.
  - rewrite Hlast2, Hlast1.
    destruct (insertedFrames tr2) as [|f fs] eqn:Hfs.
    + by rewrite app_nil_r.
    + symmetry. apply last_app_nonempty.
Qed.

(** X1.  Whenever [collect] returns, it returns a frame with a nil error; the
    frames it handed to the time reel, over all passes and all peers, are
    numbered consecutively from the enqueued frame, each not older than the
    one before; the frame returned is the last of them (the enqueued frame
    when there is none); and no peer is ahead of it any more. *)
Theorem collect_inserts_consecutive fuel sessions enqueued e e' held
  (err : option error) :
  0 <= FrameNumber enqueued ->
  (forall k v, peerMap e !! k = Some v -> maxFrame v < 2 ^ 64) ->
  collect fuel sessions enqueued e = Some (e', Returns (Some held, err)) ->
  err = None /\
  GetAheadPeers (Z.max (FrameNumber held) (latestFrameReceived e')) e'
  = Returns [] /\
  consecutiveFrom enqueued (insertedFrames (newCalls e e')) /\
  held = List.last (insertedFrames (newCalls e e')) enqueued /\
  FrameNumber enqueued <= FrameNumber held.
Proof.
  intros Hnum Hbound Hrun. unfold collect in Hrun.
  destruct (collect_loop_consecutive _ _ _ _ _ _ _ _ Hnum Hbound Hrun)
    as (Herr & Hidle & tr & Hcalls & Hchain & Hlast).
  rewrite (newCalls_app _ _ _ Hcalls).
  repeat split; try done.
  rewrite Hlast. by apply consecutiveFrom_last.
Qed.

(** X2.  A node that is itself in the prover trie of filter 0, or that knows
    no eligible peer ahead of its head, does not sync: [collect] returns the
    enqueued frame at once, with a nil error, and leaves the engine as it
    was, without a single call. *)
Theorem collect_nothing_ahead fuel sessions enqueued e trie0 tries :
  frameProverTries e = trie0 :: tries ->
  provingKeyAddress e ∈ trie0 \/
  aheadPeers (Z.max (FrameNumber enqueued) (latestFrameReceived e)) e = [] ->
  collect (S fuel) sessions enqueued e
  = Some (e, Returns (Some enqueued, None)).
Proof.
  intros Htries Hidle. unfold collect. cbn [collect_loop].
  assert (Hnone : GetAheadPeers
                    (Z.max (FrameNumber enqueued) (latestFrameReceived e)) e
                  = Returns []).
  { unfold GetAheadPeers. rewrite Htries.
    destruct (decide (provingKeyAddress e ∈ trie0)) as [Hin|Hout].
    - by rewrite bool_decide_eq_true_2.
    - rewrite bool_decide_eq_false_2 by done.
      destruct Hidle as [Hin|Hnone]; [done|].
      by rewrite weightedCandidates_spec, Hnone. }
  by rewrite Hnone.
Qed.

(** X3.  Whatever makes a call of [sync] return a nil frame, [collect] does
    not survive it: the next [latest.FrameNumber] is a nil dereference, at
    the following candidate or at the top of the next pass. *)
Theorem collect_panics_on_nil_frame fuel sessions enqueued e candidate rest
  e' (err : option error) :
  GetAheadPeers (Z.max (FrameNumber enqueued) (latestFrameReceived e)) e
  = Returns (candidate :: rest) ->
  sync (sessions 0%nat) enqueued (MaxFrame candidate) (PeerID candidate) e
  = (e', Returns (None, err)) ->
  option_map snd (collect (S (S fuel)) sessions enqueued e) = Some Panics.
Proof.
  intros Hahead Hsync.
  assert (Hguard : Z.max (FrameNumber enqueued) (latestFrameReceived e)
                   < MaxFrame candidate).
  { destruct (GetAheadPeers_elem _ _ _ candidate Hahead)
      as (k & v & _ & Hel & ->); [by left|].
    simpl. by apply eligible_ahead in Hel. }
  destruct (collect_panics_after_nil_frame fuel sessions 0 enqueued e
              candidate rest e' err Hahead Hguard Hsync) as (e'' & Hrun).
  unfold collect. by rewrite Hrun.
Qed.

(** A peer whose first response is nil: [sync] hands back the frame it was
    given, with a nil error, and the peer maps are as they were. *)
Lemma sync_nil_first (s : SyncSession) latest maxFrame peer e rest :
  dialError s = None ->
  replies s = RpcReturned None :: rest ->
  snd (sync s latest maxFrame peer e) = Returns (Some latest, None) /\
  peerMap (fst (sync s latest maxFrame peer e)) = peerMap e /\
  uncooperativePeersMap (fst (sync s latest maxFrame peer e))
  = uncooperativePeersMap e.
Proof.
  intros Hdial Hreplies. unfold sync. by rewrite Hdial, Hreplies.
Qed.

(** A pass in which every peer's first response is nil ends where it
    started. *)
Lemma collect_candidates_nil_responses sessions candidates :
  (forall n, dialError (sessions n) = None /\
             exists rest, replies (sessions n) = RpcReturned None :: rest) ->
  forall n latest e,
  exists n' e',
    collect_candidates sessions candidates n (Some latest) e
    = Returns (n', Some latest, e') /\
    peerMap e' = peerMap e /\
    uncooperativePeersMap e' = uncooperativePeersMap e /\
    latestFrameReceived e' = latestFrameReceived e /\
    frameProverTries e' = frameProverTries e /\
    provingKeyAddress e' = provingKeyAddress e.
Proof.
  intros Hsessions.
  induction candidates as [|candidate rest IH]; intros n latest e.
  { by exists n, e. }
  cbn [collect_candidates].
  destruct (MaxFrame candidate
            <=? Z.max (FrameNumber latest) (latestFrameReceived e)).
  { apply IH. }
  destruct (Hsessions n) as (Hdial & more & Hreplies).
  destruct (sync_nil_first (sessions n) latest (MaxFrame candidate)
              (PeerID candidate) e more Hdial Hreplies)
    as (Hres & Hpm & Hun).
  destruct (sync_keeps (sessions n) latest (MaxFrame candidate)
              (PeerID candidate) e) as (Hrecv & Htries & Haddr & _).
  destruct (sync (sessions n) latest (MaxFrame candidate) (PeerID candidate) e)
    as [e1 r]. simpl in *. subst r.
  destruct (IH (S n) latest e1) as (n' & e' & -> & ? & ? & ? & ? & ?).
  exists n', e'. repeat split; congruence.
Qed.

(** X4.  A nil response costs a peer nothing: it stays in the peer map, still
    ahead.  So in a node where some eligible peer is ahead and every peer
    answers the first request of every session with a nil response, no
    number of passes brings [collect] to its end: as long as nothing else
    changes the peer map or the head, it polls the same peers for ever. *)
Theorem collect_spins_on_nil_responses fuel sessions enqueued e trie0 tries :
  frameProverTries e = trie0 :: tries ->
  provingKeyAddress e ∉ trie0 ->
  aheadPeers (Z.max (FrameNumber enqueued) (latestFrameReceived e)) e <> [] ->
  (forall n, dialError (sessions n) = None /\
             exists rest, replies (sessions n) = RpcReturned None :: rest) ->
  collect fuel sessions enqueued e = None.
Proof.
  intros Htries Hout Hahead Hsessions. unfold collect.
  generalize 0%nat as n. revert e Htries Hout Hahead.
  induction fuel as [|fuel IH]; intros e Htries Hout Hahead n; [done|].
  cbn [collect_loop].
  destruct (GetAheadPeers_follower
              (Z.max (FrameNumber enqueued) (latestFrameReceived e)) e
              trie0 tries Htries Hout) as (returned & Hret & Hperm).
  rewrite Hret.
  rewrite weightedCandidates_candidates in Hperm.
  destruct returned as [|candidate rest].
  { apply Permutation_nil_l in Hperm. symmetry in Hperm.
    apply map_eq_nil in Hperm. done. }
  destruct (collect_candidates_nil_responses sessions (candidate :: rest)
              Hsessions n enqueued e)
    as (n' & e' & -> & Hpm & Hun & Hrecv & Htries' & Haddr).
  apply IH.
  - congruence.
  - congruence.
  - unfold aheadPeers, eligible in *. by rewrite Hpm, Hun, Hrecv.
Qed.

End CollectMore.

(** ** More on [sync] *)

Section SyncMore.

Context `{TokenApplicationPkg} `{FrameProver} `{NodeConfig} `{PeerSampler}.

Implicit Types (e : DataClockConsensusEngine) (latest frame : ClockFrame).

Lemma last_elem_of {A} (l : list A) : forall x d, List.last (x :: l) d ∈ x :: l.
Proof.
  induction l as [|y l IH]; intros x d; [by left|].
  right. apply (IH y d).
Qed.

Lemma sync_loop_bounds peer maxFrame e replies :
  forall latest cooperative,
  0 <= FrameNumber latest < maxFrame -> maxFrame < 2 ^ 64 ->
  Forall (fun n => FrameNumber latest < n <= maxFrame)
    (requestedFrames (fst (sync_loop peer maxFrame e replies latest cooperative)))
  /\
  Forall (fun f => FrameNumber latest < FrameNumber f <= maxFrame)
    (insertedFrames (fst (sync_loop peer maxFrame e replies latest cooperative)))
  /\
  Z.of_nat
    (length (requestedFrames
               (fst (sync_loop peer maxFrame e replies latest cooperative))))
  <= maxFrame - FrameNumber latest.
Proof.
  induction replies as [|reply replies IH]; intros latest cooperative Hlatest Hmax;
    [simpl; repeat split; try constructor; lia|].
  assert (Hnext : uint64_add (FrameNumber latest) 1 = FrameNumber latest + 1)
    by (apply uint64_add_one; lia).
  destruct (sync_loop_turn peer maxFrame e reply replies latest cooperative)
    as (made & next & Hturn & Hloop).
  destruct Hturn as
    [ | | |
      | response frame key err Hdf [Hnum Hts] Hkey Hverify
      | response frame key Hdf [Hnum Hts] Hkey Hverify Hlast
      | response frame key Hdf [Hnum Hts] Hkey Hverify Hlast ];
    rewrite Hloop; clear Hloop; simpl; rewrite ?Hnext;
    try rewrite Hnext in Hnum;
    try (split; [repeat constructor; lia|split; [by constructor|simpl; lia]]).
  - split; [|split]; repeat constructor; simpl; lia.
  - destruct (IH frame (afterTrieCheck e key cooperative))
      as (Hreq & Hins & Hcount); [lia|done|].
    split; [|split].
    + constructor; [lia|]. eapply Forall_impl; [exact Hreq|].
      simpl. intros n ?. lia.
    + constructor; [lia|]. eapply Forall_impl; [exact Hins|].
      simpl. intros f ?. lia.
    + simpl length. lia.
Qed.

(** X5.  Called below [maxFrame], as [collect] calls it, [sync] stays in the
    window it was given: every frame number it asks the peer for, and every
    frame it hands to the time reel, lies above [latest.FrameNumber] and at
    or below [maxFrame]; it makes at most [maxFrame - latest.FrameNumber]
    requests, however long the peer keeps answering; and the frame it
    returns lies in the same window or is [latest] itself. *)
Theorem sync_stays_below_maxFrame (s : SyncSession) latest maxFrame peer e :
  0 <= FrameNumber latest < maxFrame ->
  maxFrame < 2 ^ 64 ->
  Forall (fun n => FrameNumber latest < n <= maxFrame)
    (requestedFrames (newCalls e (fst (sync s latest maxFrame peer e)))) /\
  Forall (fun f => FrameNumber latest < FrameNumber f <= maxFrame)
    (insertedFrames (newCalls e (fst (sync s latest maxFrame peer e)))) /\
  Z.of_nat
    (length (requestedFrames
               (newCalls e (fst (sync s latest maxFrame peer e)))))
  <= maxFrame - FrameNumber latest /\
  (forall held (err : option error),
     snd (sync s latest maxFrame peer e) = Returns (Some held, err) ->
     FrameNumber latest <= FrameNumber held <= maxFrame).
Proof.
  intros Hlatest Hmax.
  rewrite sync_result, insertedFrames_sync, sync_newCalls'.
  destruct (dialError s) as [derr|].
  { split; [by constructor|]. split; [by constructor|].
    split; [simpl; lia|]. intros held err [= <- _]. lia. }
  simpl. rewrite requestedFrames_app. simpl. rewrite app_nil_r.
  destruct (sync_loop_bounds peer maxFrame e (replies s) latest true
              Hlatest Hmax) as (Hreq & Hins & Hcount).
  split; [done|]. split; [done|]. split; [done|].
  intros held err Hres. apply sync_loop_returns_last in Hres.
  destruct (insertedFrames _) as [|f fs] eqn:Hfs; [simpl in Hres; subst; lia|].
  assert (Hin : held ∈ f :: fs).
  { rewrite Hres. apply last_elem_of. }
  rewrite Forall_forall in Hins. specialize (Hins _ Hin). lia.
Qed.

Lemma sync_loop_rpc_failed peer maxFrame e err replies :
  forall (i : nat) latest cooperative,
  replies !! i = Some (RpcFailed err) ->
  (i < length (requestedFrames
                 (fst (sync_loop peer maxFrame e replies latest cooperative))))
  %nat ->
  length (requestedFrames
            (fst (sync_loop peer maxFrame e replies latest cooperative)))
  = S i /\
  (exists held,
     exit_result (snd (sync_loop peer maxFrame e replies latest cooperative))
     = Returns (Some held, Some (Wrap err "sync"))) /\
  exit_cooperative (snd (sync_loop peer maxFrame e replies latest cooperative))
  = false.
Proof.
  induction replies as [|reply replies IH]; intros i latest cooperative Hi Hgot;
    [done|].
  destruct (sync_loop_turn peer maxFrame e reply replies latest cooperative)
    as (made & next & Hturn & Hloop).
  pose proof (Turn_requested _ _ _ _ _ _ _ _ Hturn) as [Hone _].
  destruct i as [|i]; simpl in Hi.
  - injection Hi as ->. inversion Hturn; subst. rewrite Hloop. simpl.
    eauto.
  - destruct next as [[latest' cooperative']|exit]; rewrite Hloop in Hgot |- *;
      simpl in Hgot |- *.
    2: { rewrite Hone in Hgot. simpl in Hgot. lia. }
    rewrite requestedFrames_app, Hone in Hgot |- *. simpl in Hgot |- *.
    destruct (IH i latest' cooperative' Hi) as (Hlen & Hres & Hcoop); [lia|].
    by rewrite Hlen.
Qed.

(** X6.  A peer that cannot be dialled, or whose [GetDataFrame] fails, is
    demoted: [sync] returns the frame it holds at that point (the last one
    it inserted, or [latest]) with the error wrapped as ["sync"], asks for
    nothing more, and the peer moves from the peer map to the uncooperative
    map, stamped with the time of the move.  After a failed dial there is no
    request and no [Close]. *)
Theorem sync_transport_failure (s : SyncSession) latest maxFrame peer e info
  err :
  peerMap e !! peer = Some info ->
  dialError s = Some err \/
  (dialError s = None /\
   exists i : nat,
     replies s !! i = Some (RpcFailed err) /\
     (i < length (requestedFrames
                    (newCalls e (fst (sync s latest maxFrame peer e)))))%nat) ->
  snd (sync s latest maxFrame peer e)
  = Returns
      (Some (List.last
               (insertedFrames (newCalls e (fst (sync s latest maxFrame peer e))))
               latest),
       Some (Wrap err "sync")) /\
  peerMap (fst (sync s latest maxFrame peer e)) !! peer = None /\
  uncooperativePeersMap (fst (sync s latest maxFrame peer e)) !! peer
  = Some (stampedAt (demotedAt s) info) /\
  (dialError s = Some err ->
   newCalls e (fst (sync s latest maxFrame peer e))
   = [CallGetDirectChannel peer]) /\
  (forall i : nat,
     replies s !! i = Some (RpcFailed err) ->
     (i < length (requestedFrames
                    (newCalls e (fst (sync s latest maxFrame peer e)))))%nat ->
     length (requestedFrames
               (newCalls e (fst (sync s latest maxFrame peer e)))) = S i).
Proof.
  intros Hpeer Hfail.
  pose proof (sync_peerMaps s latest maxFrame peer e) as Hmaps.
  cbv zeta in Hmaps. unfold leftCooperative in Hmaps.
  pose proof (demote_moves peer (demotedAt s) e info Hpeer) as [Hgone Hmoved].
  pose proof (sync_result s latest maxFrame peer e) as Hresult.
  pose proof (insertedFrames_sync s latest maxFrame peer e) as Hinserted.
  pose proof (sync_newCalls' s latest maxFrame peer e) as Hnew.
  destruct (sync s latest maxFrame peer e) as [e' r].
  cbn [fst snd] in *. rewrite Hinserted, Hnew, Hresult in *.
  clear Hinserted Hnew Hresult.
  destruct Hfail as [Hdial|(Hdial & i & Hi & Hgot)]; rewrite Hdial in *.
  - destruct Hmaps as [-> ->].
    repeat split; try done. intros i _ Hlt. simpl in Hlt. lia.
  - assert (Hreq : forall tr,
              requestedFrames (CallGetDirectChannel peer :: tr ++ [CallClose peer])
              = requestedFrames tr).
    { intros tr. change (requestedFrames ([CallGetDirectChannel peer] ++ tr
                                          ++ [CallClose peer])
                         = requestedFrames tr).
      rewrite !requestedFrames_app. simpl. by rewrite app_nil_r. }
    rewrite Hreq in *.
    destruct (sync_loop_rpc_failed peer maxFrame e err (replies s) i latest
                true Hi Hgot) as (Hlen & (held & Hres) & Hcoop).
    rewrite Hcoop in Hmaps. destruct Hmaps as [-> ->].
    rewrite Hres. rewrite (sync_loop_returns_last _ _ _ _ _ _ _ _ Hres).
    repeat split; try done.
    intros j Hj Hlt.
    by destruct (sync_loop_rpc_failed peer maxFrame e err (replies s) j latest
                   true Hj Hlt) as (Hlen' & _).
Qed.

(** X7.  A peer can crash the node with one response.  When the first frame
    a peer returns passes the number and timestamp checks but carries no
    Ed448 signature, or a signature without a public key, [sync] panics on
    [GetPublicKeySignatureEd448().PublicKey.KeyValue], before the frame is
    verified: the deferred functions close the channel and reset the status,
    and the peer stays in the peer map. *)
Theorem sync_panics_on_unsigned_frame (s : SyncSession) latest maxFrame peer e
  response frame rest :
  dialError s = None ->
  replies s = RpcReturned (Some response) :: rest ->
  df_ClockFrame response = Some frame ->
  follows latest frame ->
  producerKeyValue frame = Panics ->
  snd (sync s latest maxFrame peer e) = Panics /\
  newCalls e (fst (sync s latest maxFrame peer e))
  = [CallGetDirectChannel peer;
     CallGetDataFrame peer (uint64_add (FrameNumber latest) 1);
     CallClose peer] /\
  peerMap (fst (sync s latest maxFrame peer e)) = peerMap e /\
  uncooperativePeersMap (fst (sync s latest maxFrame peer e))
  = uncooperativePeersMap e /\
  syncingStatus (fst (sync s latest maxFrame peer e)) = SyncStatusNotSyncing.
Proof.
  intros Hdial Hreplies Hdf [Hnum Hts] Hkey.
  rewrite sync_newCalls'. unfold sync. rewrite Hdial, Hreplies.
  cbn [sync_loop sync_body]. rewrite Hdf, Hkey.
  destruct (Z.eqb_spec (FrameNumber frame) (uint64_add (FrameNumber latest) 1));
    [|done].
  destruct (Z.ltb_spec (Timestamp frame) (Timestamp latest)); [lia|].
  done.
Qed.

(** X8.  [sync] touches no peer but the one it talks to: the entries of every
    other peer in the peer map and in the uncooperative map are as they
    were.  Its own peer is never lost: if it was in the peer map, it is in
    the peer map or in the uncooperative map afterwards. *)
Theorem sync_touches_only_its_peer (s : SyncSession) latest maxFrame peer e
  other :
  other <> peer ->
  peerMap (fst (sync s latest maxFrame peer e)) !! other = peerMap e !! other /\
  uncooperativePeersMap (fst (sync s latest maxFrame peer e)) !! other
  = uncooperativePeersMap e !! other /\
  (is_Some (peerMap e !! peer) ->
   is_Some (peerMap (fst (sync s latest maxFrame peer e)) !! peer) \/
   is_Some (uncooperativePeersMap (fst (sync s latest maxFrame peer e))
              !! peer)).
Proof.
  intros Hother.
  pose proof (sync_peerMaps s latest maxFrame peer e) as Hmaps.
  cbv zeta in Hmaps.
  destruct (leftCooperative s latest maxFrame peer e).
  { destruct Hmaps as [-> ->]. tauto. }
  destruct Hmaps as [-> ->]. unfold demote.
  destruct (peerMap e !! peer) as [info|] eqn:Hpeer; simpl.
  - rewrite lookup_delete_ne, lookup_insert_ne by done.
    split; [done|]. split; [done|]. intros _. right.
    rewrite lookup_insert_eq. eauto.
  - split; [done|]. split; [done|]. by intros [? ?].
Qed.

(** X9.  Once [sync] has demoted a peer, [GetAheadPeers] no longer offers it,
    whatever the head: the peer is out of the candidates of every later
    pass of [collect]. *)
Theorem demoted_peer_is_not_ahead (s : SyncSession) latest maxFrame peer e
  info head cs :
  peerMap e !! peer = Some info ->
  leftCooperative s latest maxFrame peer e = false ->
  GetAheadPeers head (fst (sync s latest maxFrame peer e)) = Returns cs ->
  Forall (fun c => PeerID c <> peer) cs.
Proof.
  intros Hpeer Hleft Hahead.
  pose proof (sync_peerMaps s latest maxFrame peer e) as Hmaps.
  cbv zeta in Hmaps. rewrite Hleft in Hmaps. destruct Hmaps as [_ Hun].
  pose proof (demote_moves peer (demotedAt s) e info Hpeer) as [_ Hmoved].
  rewrite <- Hun in Hmoved.
  apply Forall_forall. intros c Hc.
  destruct (GetAheadPeers_elem _ _ _ _ Hahead Hc) as (k & v & _ & Hel & ->).
  simpl. intros Hsame. unfold eligible in Hel.
  rewrite Hsame, Hmoved in Hel.
  rewrite bool_decide_eq_false_2 in Hel by done.
  by rewrite andb_false_r in Hel.
Qed.

Lemma sync_loop_inserts_verified peer maxFrame e frame trusted replies :
  forall latest cooperative,
  In (CallInsert frame trusted)
     (fst (sync_loop peer maxFrame e replies latest cooperative)) ->
  trusted = true /\
  VerifyDataClockFrame frame = None /\
  (exists key, producerKeyValue frame = Returns key) /\
  In (CallVerifyDataClockFrame frame)
     (fst (sync_loop peer maxFrame e replies latest cooperative)).
Proof.
  induction replies as [|reply replies IH]; intros latest cooperative Hin;
    [destruct Hin|].
  destruct (sync_loop_turn peer maxFrame e reply replies latest cooperative)
    as (made & next & Hturn & Hloop).
  destruct Hturn as
    [ | | |
      | response frame' key' err' Hdf Hfollows Hkey' Hverify
      | response frame' key' Hdf Hfollows Hkey' Hverify Hmax
      | response frame' key' Hdf Hfollows Hkey' Hverify Hmax ];
    rewrite Hloop in Hin |- *; clear Hloop; simpl in Hin |- *;
    try (destruct Hin as [Hin|[]]; discriminate Hin).
  - destruct Hin as [Hin|[Hin|[]]]; discriminate Hin.
  - destruct Hin as [Hin|[Hin|[Hin|[]]]]; try discriminate Hin.
    injection Hin as <- <-. eauto 10.
  - destruct Hin as [Hin|[Hin|[Hin|Hin]]]; try discriminate Hin.
    + injection Hin as <- <-. eauto 10.
    + destruct (IH _ _ Hin) as (? & ? & ? & ?). eauto 10.
Qed.

(** X10.  No frame reaches the time reel through [sync] unverified: every
    frame handed to [dataTimeReel.Insert] was given to
    [VerifyDataClockFrame] in the same call and accepted by it, carries an
    Ed448 signature with a public key, and is inserted as coming from a
    trusted source. *)
Theorem sync_inserts_only_verified (s : SyncSession) latest maxFrame peer e
  frame trusted :
  In (CallInsert frame trusted)
     (newCalls e (fst (sync s latest maxFrame peer e))) ->
  trusted = true /\
  VerifyDataClockFrame frame = None /\
  (exists key, producerKeyValue frame = Returns key) /\
  In (CallVerifyDataClockFrame frame)
     (newCalls e (fst (sync s latest maxFrame peer e))).
Proof.
  rewrite sync_newCalls'. intros [Hin|Hin]; [discriminate Hin|].
  destruct (dialError s); [destruct Hin|].
  apply in_app_or in Hin as [Hin|[Hin|[]]]; [|discriminate Hin].
  destruct (sync_loop_inserts_verified _ _ _ _ _ _ _ _ Hin)
    as (Htrusted & Hverified & Hkey & Hcall).
  repeat split; try done. right. apply in_or_app. by left.
Qed.

End SyncMore.

(** ** More on [prove] *)

Section ProveMore.

Context `{TokenApplicationPkg} `{FrameProver} `{InclusionProver}
  `{ClockStore} `{Shake256}.

Implicit Types (e : DataClockConsensusEngine) (prev frame : ClockFrame).

(** X11.  When [MaterializeApplicationFromFrame] fails, [prove] gives up before
    it looks at the staged transactions: they stay staged for the next
    attempt (a nil buffer stays nil), unlike after a failed
    [ApplyTransitions], which drops them.  The mutex is released, nothing
    else was called, and the error is the failure wrapped as ["prove"]. *)
Theorem prove_materialize_failure_keeps_staging now prev e err :
  (FrameNumber prev <=? lastProven e) && negb (lastProven e =? 0) = false ->
  MaterializeApplicationFromFrame (provingKey e) prev
    (snd (fst (GetDataClockFrame (filter e) (FrameNumber prev) false)))
  = Failed err ->
  snd (prove now prev e) = Returns (None, Some (Wrap err "prove")) /\
  stagedTransactions (fst (prove now prev e)) = stagedTransactions e /\
  stagedTransactionsMx (fst (prove now prev e)) = false /\
  lastProven (fst (prove now prev e)) = lastProven e /\
  newCalls e (fst (prove now prev e))
  = [CallLock; CallGetDataClockFrame (FrameNumber prev);
     CallMaterializeApplicationFromFrame; CallUnlock].
Proof.
  intros Hlong Hfail. unfold prove. rewrite Hlong.
  unfold prove_loaded. cbn [provingKey call set_calls Lock
    set_stagedTransactionsMx filter].
  rewrite Hfail. cbn [fst snd].
  repeat split.
  apply newCalls_app. simpl. by rewrite <- !app_assoc.
Qed.

(** When the part of [prove] that runs without the mutex yields a frame, the
    frame prover was the last thing it called. *)
Lemma prove_unlocked_proved now prev app valid e e' frame :
  prove_unlocked now prev app valid e = (e', Ok frame) ->
  exists tr position,
    calls e' = calls e ++ tr ++ [CallProveDataClockFrame] /\
    tr = [CallMaterializeStateFromApplication; CallCommitRaw;
          CallProveRaw position] /\
    0 <= position < 16.
Proof.
  unfold prove_unlocked, step_bind, calling, pure, reading.
  repeat match goal with
         | |- context [match ?r with Ok _ => _ | Failed _ => _ end] =>
             destruct r; try discriminate
         | |- context [match ?r with Some _ => _ | None => _ end] =>
             destruct r; try discriminate
         end.
  intros [= <- _]. eexists _, _. split; [|split; [reflexivity|]].
  - simpl. rewrite <- !app_assoc. reflexivity.
  - apply Z.mod_pos_bound. lia.
Qed.

(** X12.  [prove] can only panic at its last log line, on a proven frame whose
    [Input] is shorter than 516 bytes; by then the work is done and
    committed: the frame prover was the last collaborator called,
    [lastProven] is [previousFrame.FrameNumber], the staging buffer is a
    fresh empty list and the mutex is free.  The caller gets no frame, and
    the next [prove] of the same frame short-circuits unless the frame
    number is 0. *)
Theorem prove_panics_after_commit now prev e :
  snd (prove now prev e) = Panics ->
  lastProven (fst (prove now prev e)) = FrameNumber prev /\
  stagedTransactions (fst (prove now prev e)) = Some emptyTokenRequests /\
  stagedTransactionsMx (fst (prove now prev e)) = false /\
  List.last (newCalls e (fst (prove now prev e))) CallLock
  = CallProveDataClockFrame /\
  (FrameNumber prev <> 0 ->
   forall now',
     prove now' prev (fst (prove now prev e))
     = (fst (prove now prev e), Returns (Some prev, None))).
Proof.
  destruct (prove now prev e) as [e' r] eqn:Hprove. cbn [fst snd].
  intros ->. unfold prove in Hprove.
  destruct ((FrameNumber prev <=? lastProven e) && negb (lastProven e =? 0));
    [done|].
  unfold prove_loaded in Hprove.
  destruct (MaterializeApplicationFromFrame _ _ _) as [app|merr]; [|done].
  destruct (ApplyTransitions _ _ _ _) as [[[app' valid] invalid]|aerr];
    [|done].
  destruct (prove_unlocked _ _ _ _ _) as [e2 [frame|perr]] eqn:Hrun; [|done].
  destruct (String.length (Input frame) <? 516)%nat; [|done].
  injection Hprove as <-.
  pose proof (prove_unlocked_frame _ _ _ _ _ _ _ Hrun)
    as (_ & Hstaged & Hmx & _).
  destruct (prove_unlocked_proved _ _ _ _ _ _ _ Hrun)
    as (tr & position & Hcalls & _ & _).
  split; [done|]. split; [done|]. split; [done|]. split.
  - unfold newCalls. cbn [calls set_lastProven]. rewrite Hcalls.
    match goal with
    | |- context [calls ?e1 ++ tr ++ _] =>
        assert (Hpre : exists pre, calls e1 = calls e ++ pre)
    end.
    { destruct (stagedTransactions _); simpl; rewrite <- !app_assoc; eauto. }
    destruct Hpre as (pre & ->).
    rewrite <- app_assoc, drop_app_length.
    rewrite !app_assoc. apply List.last_last.
  - intros Hnz now'. apply prove_short_circuits; simpl; [lia|done].
Qed.

(** X13.  A [prove] that yields a new frame went through the whole pipeline
    once, in this order: the mutex is taken, the tries of the previous frame
    are read, the application is materialised, the staged transactions are
    applied to frame [n + 1], the mutex is released, and only then the state
    is materialised, committed, opened at a position below 16 and the frame
    proven.  [lastProven] is then [n], the staging buffer is empty, and the
    frame's input has at least 516 bytes. *)
Theorem prove_success_trace now prev e e' frame :
  (FrameNumber prev <=? lastProven e) && negb (lastProven e =? 0) = false ->
  prove now prev e = (e', Returns (Some frame, None)) ->
  lastProven e' = FrameNumber prev /\
  stagedTransactions e' = Some emptyTokenRequests /\
  stagedTransactionsMx e' = false /\
  (516 <= String.length (Input frame))%nat /\
  exists position,
    0 <= position < 16 /\
    newCalls e e'
    = [CallLock; CallGetDataClockFrame (FrameNumber prev);
       CallMaterializeApplicationFromFrame;
       CallApplyTransitions (uint64_add (FrameNumber prev) 1);
       CallUnlock; CallMaterializeStateFromApplication; CallCommitRaw;
       CallProveRaw position; CallProveDataClockFrame].
Proof.
  intros Hlong Hprove. unfold prove in Hprove. rewrite Hlong in Hprove.
  unfold prove_loaded in Hprove.
  destruct (MaterializeApplicationFromFrame _ _ _) as [app|merr]; [|done].
  destruct (ApplyTransitions _ _ _ _) as [[[app' valid] invalid]|aerr];
    [|done].
  destruct (prove_unlocked _ _ _ _ _) as [e2 [proven|perr]] eqn:Hrun; [|done].
  destruct (Nat.ltb_spec (String.length (Input proven)) 516); [done|].
  injection Hprove as <- <-.
  pose proof (prove_unlocked_frame _ _ _ _ _ _ _ Hrun)
    as (_ & Hstaged & Hmx & _).
  destruct (prove_unlocked_proved _ _ _ _ _ _ _ Hrun)
    as (tr & position & Hcalls & -> & Hposition).
  split; [done|]. split; [done|]. split; [done|]. split; [lia|].
  exists position. split; [done|].
  apply newCalls_app. cbn [calls set_lastProven]. rewrite Hcalls.
  destruct (stagedTransactions _); simpl; by rewrite <- !app_assoc.
Qed.

End ProveMore.

(** ** More on [float64]: the quotient is monotone *)

Section Float64More.

(** The quotient of two normal numbers, before it is rounded. *)
Lemma float64_div_normal (M1 M2 : positive) (E1 E2 : Z) :
  2 ^ 52 <= Zpos M1 < 2 ^ 53 -> 2 ^ 52 <= Zpos M2 < 2 ^ 53 ->
  -52 <= E1 <= 12 -> -52 <= E2 <= 12 ->
  float64_div (S754_finite false M1 E1) (S754_finite false M2 E2)
  = binary_round_aux 53 1024 false
      (Zpos M1 * 2 ^ 53 / Zpos M2) (E1 - E2 - 53)
      (new_location (Zpos M2) ((Zpos M1 * 2 ^ 53) mod Zpos M2)).
Proof.
  intros HM1 HM2 HE1 HE2.
  unfold float64_div, SFdiv, SFdiv_core_binary. simpl Zdigits2.
  rewrite (digits2_pos_unique M1 53), (digits2_pos_unique M2 53) by lia.
  rewrite fexp64 by lia.
  replace (Z.min (53 + E1 - (53 + E2) - 53) (E1 - E2))
    with (E1 - E2 - 53) by lia.
  replace (E1 - E2 - (E1 - E2 - 53)) with 53 by lia.
  cbv iota beta.
  rewrite Z.shiftl_mul_pow2 by lia.
  unfold Z.div, Z.modulo.
  by destruct (Z.div_eucl (Zpos M1 * 2 ^ 53) (Zpos M2)) as [q r].
Qed.

(** A number divided by itself is [1.0]. *)
Lemma float64_div_self (a : Z) :
  0 < a < 2 ^ 64 ->
  float64_div (float64_of_uint64 a) (float64_of_uint64 a) = float64_one.
Proof.
  intros Ha.
  destruct (conv_correct a Ha) as (M & E & -> & _ & HM & HE).
  rewrite float64_div_normal by done.
  rewrite (Z.mul_comm (Zpos M)), Z.div_mul, Z.mod_mul by lia.
  rewrite new_location_exact.
  replace (E - E - 53) with (-53) by lia.
  vm_compute. reflexivity.
Qed.

(** The quotient of two [uint64], [0 < a <= b], is not zero. *)
Lemma float64_quotient_positive (a b : Z) :
  0 < a <= b -> b < 2 ^ 64 ->
  float64_leb (float64_div (float64_of_uint64 a) (float64_of_uint64 b))
    float64_zero = false.
Proof.
  intros Hab Hb.
  destruct (conv_correct a ltac:(lia)) as (Ma & Ea & -> & Hsa & HMa & HEa).
  destruct (conv_correct b ltac:(lia)) as (Mb & Eb & -> & Hsb & HMb & HEb).
  destruct (div_atMostOne Ma Mb Ea Eb HMa HMb HEa HEb) as (M & E & -> & _).
  { apply (conv_mono a b); [lia|done..]. }
  done.
Qed.

(** *** Rounding is monotone *)

Lemma roundedAt_shr_1 Y N mrs :
  0 < Y -> roundedAt Y N mrs -> roundedAt (2 * Y) N (shr_1 mrs).
Proof.
  intros HY [Hm (t & Ht & Heq & Hs)].
  destruct mrs as [m r s]. simpl in *.
  assert (Hst : (r || s = true) <-> (if r then Y else 0) + t <> 0).
  { destruct r; simpl; [split; [lia|done]|]. rewrite Hs. split; lia. }
  assert (Hrange : 0 <= (if r then Y else 0) + t < 2 * Y) by (destruct r; lia).
  unfold roundedAt.
  destruct m as [|[p|p|]|p]; simpl; try lia;
    (split; [lia|]; exists ((if r then Y else 0) + t);
     split; [done|]; split; [destruct r; lia|done]).
Qed.

Lemma roundedAt_scale Y N mrs c :
  0 < c -> roundedAt Y N mrs -> roundedAt (c * Y) (c * N) mrs.
Proof.
  intros Hc [Hm (t & Ht & Heq & Hs)]. split; [done|].
  exists (c * t). split; [nia|]. split.
  - destruct (shr_r mrs); nia.
  - rewrite Hs. split; nia.
Qed.

Lemma roundedAt_range Y N mrs :
  0 < Y -> roundedAt Y N mrs -> shr_m mrs * Y <= N < (shr_m mrs + 1) * Y.
Proof.
  intros HY [Hm (t & Ht & Heq & Hs)]. destruct (shr_r mrs); nia.
Qed.

Lemma roundedAt_mono Y N N' mrs mrs' :
  0 < Y -> N <= N' -> roundedAt Y N mrs -> roundedAt Y N' mrs' ->
  rounded mrs <= rounded mrs'.
Proof.
  intros HY Hle [Hm (t & Ht & Heq & Hs)] [Hm' (t' & Ht' & Heq' & Hs')].
  pose proof (rounded_range mrs). pose proof (rounded_range mrs').
  destruct mrs as [m r s], mrs' as [m' r' s']. simpl in *.
  assert (Hmm : m <= m').
  { destruct (Z.le_gt_cases m m') as [|Hgt]; [done|]. exfalso.
    assert (m' * Y + Y <= m * Y) by nia.
    destruct r, r'; lia. }
  destruct (Z.eq_dec m m') as [->|Hne]; [|lia].
  unfold rounded in *; simpl in *.
  destruct r, r', s, s'; simpl in *; try lia;
    try (destruct (Z.even m'); lia);
    try (assert (t = 0) by (destruct (Z.eq_dec t 0); [done|];
                            assert (false = true) by tauto; done));
    try (assert (t' = 0) by (destruct (Z.eq_dec t' 0); [done|];
                             assert (false = true) by tauto; done));
    try (assert (t <> 0) by tauto); try (assert (t' <> 0) by tauto);
    try lia; try (destruct (Z.even m'); lia).
Qed.

(** The quotient and the remainder of a division, as a record. *)
Lemma roundedAt_div D N q r :
  0 < D -> N = D * q + r -> 0 <= r < D -> 0 <= q ->
  roundedAt D N (shr_record_of_loc q (new_location D r)).
Proof.
  intros HD HN Hr Hq. unfold new_location.
  destruct (Z.even D) eqn:Hpar.
  - unfold new_location_even.
    destruct (Z.eqb_spec r 0) as [->|Hnz].
    { split; [done|]. exists 0. simpl. repeat split; try lia; try done. }
    destruct (Z.compare_spec (2 * r) D) as [Heq|Hlt|Hgt]; simpl;
      (split; [done|]).
    + exists 0. simpl. repeat split; try lia; try done.
    + exists (2 * r). simpl. repeat split; try lia; try done.
    + exists (2 * r - D). simpl. repeat split; try lia; try done.
  - unfold new_location_odd.
    destruct (Z.eqb_spec r 0) as [->|Hnz].
    { split; [done|]. exists 0. simpl. repeat split; try lia; try done. }
    assert (Hodd : 2 * r <> D).
    { intros <-. rewrite Z.even_mul in Hpar. done. }
    destruct (Z.compare_spec (2 * r + 1) D) as [Heq|Hlt|Hgt]; simpl;
      (split; [done|]).
    + exists (2 * r). simpl. repeat split; try lia; try done.
    + exists (2 * r). simpl. repeat split; try lia; try done.
    + exists (2 * r - D). simpl. repeat split; try lia; try done.
Qed.

(** The quotient of two normal numbers is the rounding of a record that
    holds [M1 * 2^53] in units of [M2], or of [2 * M2] when [M2 <= M1]. *)
Lemma float64_div_rounded (M1 M2 : positive) (E1 E2 : Z) :
  2 ^ 52 <= Zpos M1 < 2 ^ 53 -> 2 ^ 52 <= Zpos M2 < 2 ^ 53 ->
  -52 <= E1 <= 12 -> -52 <= E2 <= 12 ->
  exists mrs b,
    float64_div (S754_finite false M1 E1) (S754_finite false M2 E2)
    = finish (rounded mrs) b /\
    2 ^ 52 <= shr_m mrs < 2 ^ 53 /\
    ((Zpos M1 < Zpos M2 /\ b = E1 - E2 - 53 /\
      roundedAt (Zpos M2) (Zpos M1 * 2 ^ 53) mrs) \/
     (Zpos M2 <= Zpos M1 /\ b = E1 - E2 - 52 /\
      roundedAt (2 * Zpos M2) (Zpos M1 * 2 ^ 53) mrs)).
Proof.
  intros HM1 HM2 HE1 HE2.
  rewrite float64_div_normal by done.
  pose proof (Z.div_mod (Zpos M1 * 2 ^ 53) (Zpos M2) ltac:(lia)) as Hdiv.
  pose proof (Z.mod_pos_bound (Zpos M1 * 2 ^ 53) (Zpos M2) ltac:(lia)) as Hr.
  generalize dependent ((Zpos M1 * 2 ^ 53) mod Zpos M2).
  generalize dependent (Zpos M1 * 2 ^ 53 / Zpos M2).
  intros q r Hdiv Hr.
  assert (Hq1 : 2 ^ 52 <= q) by nia.
  assert (Hq2 : q < 2 ^ 54) by nia.
  pose proof (roundedAt_div (Zpos M2) (Zpos M1 * 2 ^ 53) q r
                ltac:(lia) Hdiv Hr ltac:(lia)) as Hat.
  rewrite binary_round_aux_finish.
  destruct q as [|q'|q']; try lia.
  destruct (Z.lt_ge_cases (Zpos M1) (Zpos M2)) as [Hsmall|Hlarge].
  - assert (Zpos q' < 2 ^ 53) by nia.
    rewrite shr_fexp_same by (try apply digits2_pos_unique; lia).
    cbn [fst snd]. eexists _, _. split; [reflexivity|].
    rewrite shr_m_of_loc. split; [lia|]. left. done.
  - assert (2 ^ 53 <= Zpos q') by nia.
    rewrite shr_fexp_one by (try apply digits2_pos_unique; lia).
    cbn [fst snd]. eexists _, _. split; [reflexivity|].
    apply roundedAt_shr_1 in Hat; [|lia].
    pose proof (roundedAt_range (2 * Zpos M2) _ _ ltac:(lia) Hat) as Hrange.
    split; [nia|]. right. split; [done|]. split; [lia|done].
Qed.

(** Normal results compare by exponent first, by mantissa second. *)
Lemma finish_le (R R' b b' : Z) :
  2 ^ 52 <= R <= 2 ^ 53 -> 2 ^ 52 <= R' <= 2 ^ 53 ->
  -1074 <= b <= 900 -> -1074 <= b' <= 900 ->
  b < b' \/ (b = b' /\ R <= R') ->
  float64_leb (finish R b) (finish R' b') = true.
Proof.
  intros HR HR' Hb Hb' Hle. rewrite !finish_spec by lia.
  unfold float64_leb, SFleb, SFcompare.
  assert (Hcmp : forall x y, Pos.compare_cont Eq x y = Pos.compare x y)
    by done.
  destruct (Z.ltb_spec R (2 ^ 53)) as [Hlt|Hge];
    destruct (Z.ltb_spec R' (2 ^ 53)) as [Hlt'|Hge']; rewrite ?Hcmp.
  - destruct (Z.compare_spec b b') as [Heq|Hblt|Hbgt]; [|done|lia].
    destruct (Pos.compare_spec (Z.to_pos R) (Z.to_pos R')) as [?|?|Hgt];
      [done|done|lia].
  - destruct (Z.compare_spec b (b' + 1)) as [Heq|Hblt|Hbgt]; [lia|done|lia].
  - destruct (Z.compare_spec (b + 1) b') as [Heq|Hblt|Hbgt]; [|done|lia].
    destruct (Pos.compare_spec (Z.to_pos (2 ^ 52)) (Z.to_pos R'))
      as [?|?|Hgt]; [done|done|lia].
  - destruct (Z.compare_spec (b + 1) (b' + 1)) as [Heq|Hblt|Hbgt];
      [|done|lia].
    by rewrite Pos.compare_refl.
Qed.

(** The quotient grows with the numerator. *)
Theorem float64_quotient_mono (a a' b : Z) :
  0 < a <= a' -> a' <= b -> b < 2 ^ 64 ->
  float64_leb (float64_div (float64_of_uint64 a) (float64_of_uint64 b))
    (float64_div (float64_of_uint64 a') (float64_of_uint64 b)) = true.
Proof.
  intros Haa Hab Hb.
  destruct (conv_correct a ltac:(lia)) as (Ma & Ea & -> & Hsa & HMa & HEa).
  destruct (conv_correct a' ltac:(lia)) as (Ma' & Ea' & -> & Hsa' & HMa' & HEa').
  destruct (conv_correct b ltac:(lia)) as (Mb & Eb & -> & Hsb & HMb & HEb).
  pose proof (conv_mono a a' _ _ _ _ ltac:(lia) Hsa Hsa' HMa HMa') as Hlex.
  destruct (float64_div_rounded Ma Mb Ea Eb HMa HMb HEa HEb)
    as (mrs & c & -> & Hm & Hcase).
  destruct (float64_div_rounded Ma' Mb Ea' Eb HMa' HMb HEa' HEb)
    as (mrs' & c' & -> & Hm' & Hcase').
  pose proof (rounded_range mrs). pose proof (rounded_range mrs').
  assert (Hc : -1074 <= c <= 900) by (destruct Hcase as [(_&->&_)|(_&->&_)]; lia).
  assert (Hc' : -1074 <= c' <= 900) by (destruct Hcase' as [(_&->&_)|(_&->&_)]; lia).
  apply finish_le; try lia.
  destruct Hcase as [(Hlt & -> & Hat)|(Hge & -> & Hat)];
    destruct Hcase' as [(Hlt' & -> & Hat')|(Hge' & -> & Hat')].
  - (* both below the divisor *)
    destruct Hlex as [Hexp|[-> Hman]]; [left; lia|]. right. split; [done|].
    apply (roundedAt_mono (Zpos Mb) (Zpos Ma * 2 ^ 53) (Zpos Ma' * 2 ^ 53));
      [lia|nia|done|done].
  - left. destruct Hlex as [Hexp|[-> Hman]]; lia.
  - (* the smaller numerator has the larger mantissa *)
    destruct Hlex as [Hexp|[-> Hman]]; [|lia].
    destruct (Z.eq_dec (Ea + 1) Ea') as [<-|Hne]; [|left; lia].
    right. split; [lia|].
    apply (roundedAt_scale _ _ _ 2) in Hat'; [|lia].
    apply (roundedAt_mono (2 * Zpos Mb) (Zpos Ma * 2 ^ 53)
             (2 * (Zpos Ma' * 2 ^ 53))); [lia|nia|done|done].
  - destruct Hlex as [Hexp|[-> Hman]]; [left; lia|]. right. split; [done|].
    apply (roundedAt_mono (2 * Zpos Mb) (Zpos Ma * 2 ^ 53)
             (Zpos Ma' * 2 ^ 53)); [lia|nia|done|done].
Qed.

End Float64More.

(** ** The weights of [GetAheadPeers] *)

Section WeightsMore.

Context `{TokenApplicationPkg} `{NodeConfig}.

Implicit Types (e : DataClockConsensusEngine).

Lemma aheadPeers_lead head e v :
  is_uint64 head ->
  (forall k v, peerMap e !! k = Some v -> is_uint64 (maxFrame v)) ->
  v ∈ aheadPeers head e ->
  0 < maxFrame v - head < 2 ^ 64 /\
  uint64_sub (maxFrame v) head = maxFrame v - head /\
  maxFrame v - head <= largestLead head e < 2 ^ 64.
Proof.
  intros Hhead Hpeers Hv.
  assert (Hkept : forall v, v ∈ aheadPeers head e ->
            0 < maxFrame v - head < 2 ^ 64 /\
            uint64_sub (maxFrame v) head = maxFrame v - head).
  { intros v' (k & Hk & Hel)%aheadPeers_elem.
    apply eligible_ahead in Hel. specialize (Hpeers _ _ Hk).
    unfold is_uint64 in *.
    assert (0 < maxFrame v' - head < 2 ^ 64) by lia.
    split; [done|]. unfold uint64_sub. apply uint64_wrap_id.
    unfold is_uint64. lia. }
  destruct (Hkept v Hv) as [Hrange Hsub].
  split; [done|]. split; [done|]. unfold largestLead. split.
  - rewrite <- Hsub. apply foldr_max_bound.
    apply list_elem_of_fmap. by exists v.
  - apply foldr_max_below; [lia|].
    apply Forall_forall. intros x (v' & -> & Hv')%list_elem_of_fmap.
    destruct (Hkept v' Hv') as [? ->]. lia.
Qed.

Lemma foldr_max_attained (l : list Z) :
  l <> [] -> Forall (fun x => 0 <= x) l -> foldr Z.max 0 l ∈ l.
Proof.
  induction l as [|x l IH]; [done|]. intros _ Hpos.
  inversion Hpos as [|? ? Hx Hl]; subst. simpl.
  destruct l as [|y l].
  - simpl. rewrite Z.max_l by lia. by left.
  - destruct (Z.max_spec x (foldr Z.max 0 (y :: l))) as [[_ ->]|[_ ->]].
    + right. by apply IH.
    + by left.
Qed.

Lemma weightedCandidates_elem head e w :
  w ∈ weightedCandidates head e <->
  exists v, v ∈ aheadPeers head e /\
    w = {| Candidate := candidateOf v;
           Weight := float64_div
                       (float64_of_uint64 (uint64_sub (maxFrame v) head))
                       (float64_of_uint64 (largestLead head e)) |}.
Proof.
  rewrite weightedCandidates_spec, list_elem_of_fmap. fold (largestLead head e).
  split; intros (v & ? & ?); exists v; done.
Qed.

(** X14.  Every weight that [GetAheadPeers] computes is greater than zero (the
    sampler divides by it), a peer that is further ahead never has the
    smaller weight, and the peers that are furthest ahead have the weight
    [1.0] exactly. *)
Theorem GetAheadPeers_weights_ordered head e :
  is_uint64 head ->
  (forall k v, peerMap e !! k = Some v -> is_uint64 (maxFrame v)) ->
  Forall (fun w => float64_leb (Weight w) float64_zero = false)
    (weightedCandidates head e) /\
  (forall w w',
     w ∈ weightedCandidates head e -> w' ∈ weightedCandidates head e ->
     MaxFrame (Candidate w) <= MaxFrame (Candidate w') ->
     float64_leb (Weight w) (Weight w') = true) /\
  (forall w,
     w ∈ weightedCandidates head e ->
     Forall (fun w' => MaxFrame (Candidate w') <= MaxFrame (Candidate w))
       (weightedCandidates head e) ->
     Weight w = float64_one).
Proof.
  intros Hhead Hpeers. split; [|split].
  - apply Forall_forall. intros w (v & Hv & ->)%weightedCandidates_elem.
    destruct (aheadPeers_lead head e v Hhead Hpeers Hv) as (Hpos & -> & Hle).
    simpl. apply float64_quotient_positive; lia.
  - intros w w' (v & Hv & ->)%weightedCandidates_elem
      (v' & Hv' & ->)%weightedCandidates_elem. simpl. intros Hvv.
    destruct (aheadPeers_lead head e v Hhead Hpeers Hv) as (Hpos & -> & Hle).
    destruct (aheadPeers_lead head e v' Hhead Hpeers Hv') as (Hpos' & -> & Hle').
    apply float64_quotient_mono; lia.
  - intros w Hw Hfar.
    apply weightedCandidates_elem in Hw as (v & Hv & ->). simpl in *.
    destruct (aheadPeers_lead head e v Hhead Hpeers Hv) as (Hpos & -> & Hle).
    assert (Hmax : largestLead head e ∈
              map (fun v => uint64_sub (maxFrame v) head) (aheadPeers head e)).
    { apply foldr_max_attained.
      - intros Hnil. apply map_eq_nil in Hnil. rewrite Hnil in Hv.
        by apply elem_of_nil in Hv.
      - apply Forall_forall. intros x (v' & -> & Hv')%list_elem_of_fmap.
        destruct (aheadPeers_lead head e v' Hhead Hpeers Hv') as (? & -> & _).
        lia. }
    apply list_elem_of_fmap in Hmax as (v' & Hlead & Hv').
    destruct (aheadPeers_lead head e v' Hhead Hpeers Hv') as (? & Hsub & _).
    rewrite Forall_forall in Hfar.
    assert (Hle' : maxFrame v' <= maxFrame v).
    { apply (Hfar {| Candidate := candidateOf v';
                     Weight := float64_div
                       (float64_of_uint64 (uint64_sub (maxFrame v') head))
                       (float64_of_uint64 (largestLead head e)) |}).
      apply weightedCandidates_elem. eauto. }
    replace (largestLead head e) with (maxFrame v - head) by lia.
    apply float64_div_self. lia.
Qed.

End WeightsMore.

(** ** More on peer scores *)

Section PeerScoresMore.

Import P2P.

Implicit Types (b : BlossomSub) (p q : string) (s d : Z).

Lemma int64_wrap_add_l x y :
  int64_wrap (int64_wrap x + y) = int64_wrap (x + y).
Proof.
  unfold int64_wrap. f_equal.
  replace ((x + 2 ^ 63) mod 2 ^ 64 - 2 ^ 63 + y + 2 ^ 63)
    with ((x + 2 ^ 63) mod 2 ^ 64 + y) by lia.
  rewrite Zplus_mod_idemp_l. f_equal. lia.
Qed.

Lemma int64_add_swap x d d' :
  int64_add (int64_add x d) d' = int64_add (int64_add x d') d.
Proof.
  unfold int64_add. rewrite !int64_wrap_add_l. f_equal. lia.
Qed.

(** X15.  Two [AddPeerScore] commute, on one peer or on two, overflow or not:
    whichever caller takes the mutex first, the scores end up the same. *)
Theorem AddPeerScore_commutes b p d q d' :
  AddPeerScore (AddPeerScore b p d) q d'
  = AddPeerScore (AddPeerScore b q d') p d.
Proof.
  destruct b as [scores net].
  destruct (decide (p = q)) as [<-|Hne].
  - unfold AddPeerScore; simpl.
    destruct (scores !! p) as [old|] eqn:Hp; simpl;
      rewrite !lookup_insert_eq; simpl; rewrite !insert_insert_eq; f_equal.
    + f_equal. apply int64_add_swap.
    + f_equal. unfold int64_add. f_equal. lia.
  - unfold AddPeerScore; simpl.
    destruct (scores !! p) as [old|] eqn:Hp;
      destruct (scores !! q) as [old'|] eqn:Hq; simpl;
      rewrite !lookup_insert_ne by done; rewrite ?Hp, ?Hq; simpl;
      f_equal; by apply insert_insert_ne.
Qed.

Lemma GetPeerScore_history_from b ops p start :
  GetPeerScore b p = start -> is_int64 start ->
  Forall (fun o => is_int64 (op_value o)) ops ->
  GetPeerScore (apply_ops b ops) p = int64_wrap (exactScore start ops p).
Proof.
  intros Hstart Hrange.
  induction ops as [|o ops IH] using rev_ind; intros Hops.
  { simpl. rewrite Hstart. by rewrite int64_wrap_id. }
  apply Forall_app in Hops as [Hops Ho].
  rewrite Forall_singleton in Ho. specialize (IH Hops).
  unfold apply_ops, exactScore in *. rewrite !foldl_app. simpl.
  set (b' := foldl apply_op b ops) in *.
  destruct (decide (op_peer o = p)) as [Hp|Hne].
  - destruct o as [p' s|p' d]; simpl in *; subst p'.
    + rewrite GetPeerScore_Set. by rewrite int64_wrap_id.
    + destruct (peerScore b' !! p) as [old|] eqn:Hold.
      * rewrite (GetPeerScore_Add_present _ _ _ _ Hold).
        unfold GetPeerScore in IH. rewrite Hold in IH. simpl in IH.
        rewrite IH. unfold int64_add. apply int64_wrap_add_l.
      * rewrite (GetPeerScore_Add_absent _ _ _ Hold).
        unfold GetPeerScore in IH. rewrite Hold in IH. simpl in IH.
        rewrite <- int64_wrap_add_l, <- IH. simpl.
        by rewrite int64_wrap_id.
  - by rewrite GetPeerScore_apply_op_other.
Qed.

(** X16.  After any history of [SetPeerScore] and [AddPeerScore], a peer's
    score is the last value set for it (the starting score when none was)
    plus everything added since, reduced to an [int64]: the additions wrap
    around, they never saturate, and a value set earlier has no influence. *)
Theorem GetPeerScore_history b ops p :
  is_int64 (GetPeerScore b p) ->
  Forall (fun o => is_int64 (op_value o)) ops ->
  GetPeerScore (apply_ops b ops) p
  = int64_wrap (exactScore (GetPeerScore b p) ops p).
Proof. intros Hrange Hops. by apply GetPeerScore_history_from. Qed.

End PeerScoresMore.

(** ** The announce namespace *)

Section NamespaceTheorems.

Import Overlay.

(** X17.  Two networks have the same announce namespace only if they are the
    same network: nodes of different networks never meet through the
    namespace they advertise and look up. *)
Theorem getNetworkNamespace_inj (n m : Z) :
  getNetworkNamespace n = getNetworkNamespace m <-> n = m.
Proof.
  split; [|by intros ->].
  unfold getNetworkNamespace. intros Heq.
  apply (inj (String.app ANNOUNCE_PREFIX)) in Heq.
  destruct (Z.eqb_spec n 0) as [Hn0|Hn0], (Z.eqb_spec m 0) as [Hm0|Hm0],
    (Z.eqb_spec n 1) as [Hn1|Hn1], (Z.eqb_spec m 1) as [Hm1|Hm1];
    try lia; try discriminate Heq.
  apply (inj (String.app "network-")) in Heq.
  by apply (inj pretty) in Heq.
Qed.

End NamespaceTheorems.

(** ** [withDefaults] *)

Section SettingsTheorems.

Import Overlay.

Context `{BlossomSubDefaults}.

Lemma orDefault_idem d x : orDefault d (orDefault d x) = orDefault d x.
Proof.
  unfold orDefault. destruct (Z.eqb_spec x 0) as [->|Hx].
  - by destruct (Z.eqb_spec d 0).
  - by destruct (Z.eqb_spec x 0).
Qed.

Lemma orDefault_keeps d x : x <> 0 -> orDefault d x = x.
Proof. unfold orDefault. by destruct (Z.eqb_spec x 0). Qed.

Lemma tunables_withDefaults (c : P2PConfig) :
  Forall (fun fd => fst fd (withDefaults c) = orDefault (snd fd) (fst fd c))
    tunables.
Proof. repeat constructor. Qed.

(** X18.  [withDefaults] is idempotent; it changes nothing but tunables that
    are zero, so a configuration without a zero tunable comes back as it
    is; and when no default is zero, no tunable of the result is. *)
Theorem withDefaults_fills_zeros_only (c : P2PConfig) :
  withDefaults (withDefaults c) = withDefaults c /\
  Forall (fun fd => fst fd c <> 0 -> fst fd (withDefaults c) = fst fd c)
    tunables /\
  Forall (fun fd => fst fd c = 0 -> fst fd (withDefaults c) = snd fd)
    tunables /\
  (Forall (fun fd => fst fd c <> 0) tunables -> withDefaults c = c) /\
  (Forall (fun fd => snd fd <> 0) tunables ->
   Forall (fun fd => fst fd (withDefaults c) <> 0) tunables).
Proof.
  split; [|split; [|split; [|split]]].
  - unfold withDefaults; simpl. by rewrite !orDefault_idem.
  - eapply Forall_impl; [apply tunables_withDefaults|].
    intros [f d]; simpl. intros -> Hnz. by apply orDefault_keeps.
  - eapply Forall_impl; [apply tunables_withDefaults|].
    intros [f d]; simpl. intros -> ->. done.
  - intros Hnz. destruct c. unfold tunables in Hnz.
    repeat match goal with
           | Hnz : Forall _ (_ :: _) |- _ =>
               apply Forall_cons in Hnz as [? Hnz]
           end.
    simpl in *. unfold withDefaults; simpl.
    by rewrite !orDefault_keeps by done.
  - intros Hdef.
    pose proof (tunables_withDefaults c) as Hall.
    induction tunables as [|[f d] l IH]; [done|].
    apply Forall_cons in Hdef as [Hd Hdef].
    apply Forall_cons in Hall as [Hf Hall].
    constructor; [|by apply IH]. simpl in *. rewrite Hf.
    unfold orDefault. by destruct (Z.eqb_spec (f c) 0).
Qed.

(** X19.  A watermark of 0 does not switch the connection manager off: it
    means the default, 160 and 192.  Only [-1] survives [withDefaults] and
    disables it.  The two watermarks are filled in independently: a
    configuration that sets only the high watermark, below 160, ends up
    with its low watermark above its high watermark. *)
Theorem withDefaults_watermarks (c : P2PConfig) :
  managesConnections (withDefaults c) = managesConnections c /\
  (LowWatermarkConnections c = 0 ->
   LowWatermarkConnections (withDefaults c) = 160) /\
  (HighWatermarkConnections c = 0 ->
   HighWatermarkConnections (withDefaults c) = 192) /\
  (LowWatermarkConnections c = 0 -> 0 < HighWatermarkConnections c < 160 ->
   HighWatermarkConnections (withDefaults c)
   < LowWatermarkConnections (withDefaults c)).
Proof.
  unfold managesConnections, withDefaults, orDefault; simpl.
  split; [|split; [|split]].
  - destruct (Z.eqb_spec (LowWatermarkConnections c) 0) as [->|?],
      (Z.eqb_spec (HighWatermarkConnections c) 0) as [->|?]; done.
  - by intros ->.
  - by intros ->.
  - intros -> Hhigh. simpl.
    destruct (Z.eqb_spec (HighWatermarkConnections c) 0); [lia|].
    unfold defaultLowWatermarkConnections. lia.
Qed.

End SettingsTheorems.

(** ** [resourceManager] *)

Section LimitTheorems.

Import Overlay.

Lemma limitFor_spec (k m : Z) :
  0 < k -> 0 < m -> k * m < 2 ^ 62 ->
  limitFor k m = 2 ^ (Z.log2 (k * m) + 1) /\
  k * m < limitFor k m <= 2 * (k * m).
Proof.
  intros Hk Hm Hsmall.
  assert (Hpos : 0 < k * m) by nia.
  pose proof (Z.log2_spec (k * m) Hpos) as [Hlo Hhi].
  pose proof (Z.log2_nonneg (k * m)) as Hlog.
  unfold Z.succ in Hhi.
  assert (Hpow : 2 ^ (Z.log2 (k * m) + 1) = 2 * 2 ^ Z.log2 (k * m))
    by (rewrite Z.pow_add_r by lia; lia).
  unfold limitFor, bits_Len.
  rewrite uint64_wrap_id by (unfold is_uint64; lia).
  destruct (Z.eqb_spec (k * m) 0); [lia|].
  rewrite int64_wrap_id by (unfold is_int64; lia).
  split; [done|]. lia.
Qed.

Lemma limitFor_double (k m : Z) :
  0 < k -> 0 < m -> 2 * k * m < 2 ^ 62 ->
  limitFor (2 * k) m = 2 * limitFor k m.
Proof.
  intros Hk Hm Hsmall.
  destruct (limitFor_spec (2 * k) m) as [-> _]; [lia|lia|lia|].
  destruct (limitFor_spec k m) as [-> _]; [lia|lia|lia|].
  replace (2 * k * m) with (2 * (k * m)) by lia.
  rewrite Z.log2_double by nia.
  pose proof (Z.log2_nonneg (k * m)).
  unfold Z.succ. rewrite (Z.pow_add_r 2 (Z.log2 (k * m) + 1) 1) by lia. lia.
Qed.

(** X20.  The limits that [resourceManager] sets leave room for the connection
    manager's high watermark.  When three times the high watermark exceeds
    the default inbound limit, the system scope admits strictly more than
    [3 * highWatermark] connections each way (the next power of two, so at
    most twice as many), the total is the sum of the two ways, every stream
    limit is above its multiple of the high watermark, and services and
    protocols get the same stream limits.  Otherwise no connection or
    stream limit is changed. *)
Theorem resourceManager_leaves_room (hw : Z) (defaults : ResourceLimits) :
  0 < hw -> 216 * hw < 2 ^ 62 ->
  (ConnsInbound defaults < 3 * hw ->
   let sys := System (limitChanges hw defaults) in
   let svc := ServiceDefault (limitChanges hw defaults) in
   3 * hw < ConnsInbound sys <= 6 * hw /\
   (exists n, 0 <= n /\ ConnsInbound sys = 2 ^ n) /\
   ConnsOutbound sys = ConnsInbound sys /\
   Conns sys = ConnsInbound sys + ConnsOutbound sys /\
   36 * hw < StreamsInbound sys <= 72 * hw /\
   216 * hw < StreamsOutbound sys <= 432 * hw /\
   Streams sys = StreamsOutbound sys /\
   (FD sys = 0 \/ FD sys = ConnsInbound sys) /\
   12 * hw < StreamsInbound svc /\
   48 * hw < StreamsOutbound svc /\
   Streams svc = StreamsOutbound svc /\
   ProtocolDefault (limitChanges hw defaults) = svc) /\
  (3 * hw <= ConnsInbound defaults ->
   forall scope,
     scope ∈ [System (limitChanges hw defaults);
              ServiceDefault (limitChanges hw defaults);
              ProtocolDefault (limitChanges hw defaults)] ->
     Streams scope = 0 /\ StreamsInbound scope = 0 /\
     StreamsOutbound scope = 0 /\ Conns scope = 0 /\
     ConnsInbound scope = 0 /\ ConnsOutbound scope = 0 /\ FD scope = 0).
Proof.
  intros Hhw Hsmall.
  assert (Hmax : uint64_wrap hw = hw)
    by (apply uint64_wrap_id; unfold is_uint64; lia).
  assert (Hthree : int64_wrap (uint64_wrap (3 * hw)) = 3 * hw).
  { rewrite uint64_wrap_id by (unfold is_uint64; lia).
    apply int64_wrap_id. unfold is_int64. lia. }
  unfold limitChanges. cbv zeta. rewrite Hmax, Hthree.
  split.
  - intros Hbelow.
    destruct (Z.ltb_spec (ConnsInbound defaults) (3 * hw)); [|lia].
    cbn [System ServiceDefault ProtocolDefault Streams StreamsInbound
         StreamsOutbound Conns ConnsInbound ConnsOutbound FD].
    destruct (limitFor_spec 3 hw) as [Hpow H3]; [lia..|].
    destruct (limitFor_spec 36 hw) as [_ H36]; [lia..|].
    destruct (limitFor_spec 216 hw) as [_ H216]; [lia..|].
    destruct (limitFor_spec 12 hw) as [_ H12]; [lia..|].
    destruct (limitFor_spec 48 hw) as [_ H48]; [lia..|].
    pose proof (limitFor_double 3 hw ltac:(lia) ltac:(lia) ltac:(lia)) as H6.
    change (2 * 3) with 6 in H6.
    repeat split; try lia.
    + exists (Z.log2 (3 * hw) + 1). split; [|done].
      pose proof (Z.log2_nonneg (3 * hw)). lia.
    + destruct (FD defaults <? 3 * hw); tauto.
  - intros Habove.
    destruct (Z.ltb_spec (ConnsInbound defaults) (3 * hw)); [lia|].
    intros scope Hscope. cbn [System ServiceDefault ProtocolDefault] in Hscope.
    repeat (apply elem_of_cons in Hscope as [->|Hscope]; [done|]).
    by apply elem_of_nil in Hscope.
Qed.

End LimitTheorems.

(** ** Bootstrap peers and the DHT *)

Section BootstrapTheorems.

Import Overlay Bootstrap.

Context `{PeerAddresses}.

Lemma parseBootstrappers_spec addrs :
  match parseBootstrappers addrs with
  | Returns infos => map AddrInfoFromString addrs = map Ok infos
  | Panics => exists a err, a ∈ addrs /\ AddrInfoFromString a = Failed err
  end.
Proof.
  induction addrs as [|a addrs IH]; simpl; [done|].
  destruct (AddrInfoFromString a) as [info|err] eqn:Ha.
  - destruct (parseBootstrappers addrs) as [infos|].
    + simpl. by rewrite IH.
    + destruct IH as (a' & err & Hin & Hfail).
      exists a', err. split; [by right|done].
  - exists a, err. split; [by left|done].
Qed.

Lemma findBootstrapPeer_spec peerId addrs infos :
  map AddrInfoFromString addrs = map Ok infos ->
  findBootstrapPeer peerId addrs
  = Returns (bool_decide (peerId ∈ map ID infos)).
Proof.
  revert infos. induction addrs as [|a addrs IH]; intros [|info infos] Hmap;
    try done.
  simpl in *. injection Hmap as Ha Hrest. rewrite Ha.
  destruct (String.eqb_spec (ID info) peerId) as [Heq|Hne].
  - rewrite bool_decide_eq_true_2; [done|]. subst peerId. by left.
  - rewrite (IH infos Hrest). f_equal. apply bool_decide_ext.
    rewrite elem_of_cons. split; [tauto|]. intros [?|?]; congruence.
Qed.

Lemma bootstrapSetup_parsed (peerId : string) (c : P2PConfig) :
  match bootstrapSetup peerId c with
  | Panics =>
      exists a err,
        a ∈ (if Network c =? 0 then config_BootstrapPeers
             else BootstrapPeers c) /\
        AddrInfoFromString a = Failed err
  | Returns (isBootstrapPeer, bootstrappers) =>
      map AddrInfoFromString
        (if Network c =? 0 then config_BootstrapPeers else BootstrapPeers c)
      = map Ok bootstrappers /\
      isBootstrapPeer = bool_decide (peerId ∈ map ID bootstrappers)
  end.
Proof.
  unfold bootstrapSetup.
  assert (Hsame : (if Network c =? 0
                   then findBootstrapPeer peerId config_BootstrapPeers
                   else findBootstrapPeer peerId (BootstrapPeers c))
                  = findBootstrapPeer peerId
                      (if Network c =? 0 then config_BootstrapPeers
                       else BootstrapPeers c))
    by (by destruct (Network c =? 0)).
  rewrite Hsame. clear Hsame.
  generalize (if Network c =? 0 then config_BootstrapPeers
              else BootstrapPeers c) as chosen.
  intros chosen.
  pose proof (parseBootstrappers_spec chosen) as Hparse.
  destruct (parseBootstrappers chosen) as [infos|].
  - rewrite (findBootstrapPeer_spec peerId chosen infos Hparse). done.
  - by destruct (findBootstrapPeer peerId chosen).
Qed.

(** X21.  On mainnet (network 0) the bootstrap peers of the configuration are
    not used: the node bootstraps from the built-in list whatever the
    configuration says.  One bootstrap address that does not parse makes
    [NewBlossomSub] panic, wherever it stands in the list; when all parse,
    every one of them is a bootstrapper, in order, and the node counts as a
    bootstrap peer exactly when its own peer ID is among them. *)
Theorem bootstrapSetup_spec (peerId : string) (c : P2PConfig) :
  let chosen := if Network c =? 0 then config_BootstrapPeers
                else BootstrapPeers c in
  (forall c', Network c = 0 -> Network c' = 0 ->
              bootstrapSetup peerId c' = bootstrapSetup peerId c) /\
  match bootstrapSetup peerId c with
  | Panics => exists a err, a ∈ chosen /\ AddrInfoFromString a = Failed err
  | Returns (isBootstrapPeer, bootstrappers) =>
      map AddrInfoFromString chosen = map Ok bootstrappers /\
      isBootstrapPeer = bool_decide (peerId ∈ map ID bootstrappers)
  end.
Proof.
  cbv zeta. split.
  { intros c' Hc Hc'. unfold bootstrapSetup. by rewrite Hc, Hc'. }
  apply bootstrapSetup_parsed.
Qed.

(** X22.  [NewBlossomSub] hands [isBootstrapPeer], [bootstrappers] and the
    network to [initDHT].  Off mainnet the DHT runs in server mode, under
    the protocol prefix ["/testnet"]; on mainnet it has no prefix and runs
    in server mode exactly on the nodes whose own peer ID is one of the
    built-in bootstrap peers, in client mode on every other node. *)
Theorem initDHT_mode (peerId : string) (c : P2PConfig) (isBootstrapPeer : bool)
  (bootstrappers : list AddrInfo) :
  bootstrapSetup peerId c = Returns (isBootstrapPeer, bootstrappers) ->
  DHTBootstrapPeers (initDHT isBootstrapPeer bootstrappers (Network c))
  = bootstrappers /\
  (Network c <> 0 ->
   Mode (initDHT isBootstrapPeer bootstrappers (Network c)) = ModeServer /\
   ProtocolPrefix (initDHT isBootstrapPeer bootstrappers (Network c))
   = Some "/testnet") /\
  (Network c = 0 ->
   map AddrInfoFromString config_BootstrapPeers = map Ok bootstrappers /\
   (Mode (initDHT isBootstrapPeer bootstrappers (Network c)) = ModeServer <->
    peerId ∈ map ID bootstrappers) /\
   (Mode (initDHT isBootstrapPeer bootstrappers (Network c)) = ModeClient <->
    peerId ∉ map ID bootstrappers) /\
   ProtocolPrefix (initDHT isBootstrapPeer bootstrappers (Network c)) = None).
Proof.
  intros Hsetup.
  pose proof (bootstrapSetup_parsed peerId c) as Hspec.
  rewrite Hsetup in Hspec. destruct Hspec as [Hparsed ->].
  unfold initDHT; simpl. split; [done|]. split.
  - intros Hnet. destruct (Z.eqb_spec (Network c) 0); [done|].
    by rewrite orb_true_r.
  - intros Hnet. rewrite Hnet in *. simpl in *. rewrite orb_false_r.
    split; [done|].
    destruct (decide (peerId ∈ map ID bootstrappers)) as [Hin|Hout].
    + rewrite bool_decide_eq_true_2 by done. repeat split; done.
    + rewrite bool_decide_eq_false_2 by done. repeat split; done.
Qed.

End BootstrapTheorems.

(** ** Subscriptions *)

Section BitmaskTheorems.

Import Bitmasks.

Lemma subscribeAll_keeps bits : forall known subs k bm,
  known !! k = Some bm ->
  fst (subscribeAll bits known subs) !! k = Some bm.
Proof.
  induction bits as [|bit rest IH]; intros known subs k bm Hk; [done|].
  simpl. destruct (subscribeResult bit) as [sub|err]; [|done].
  apply IH. destruct (known !! bitmaskBytes bit) as [old|] eqn:Hold; [done|].
  rewrite lookup_insert_ne; [done|]. intros <-. congruence.
Qed.

Lemma subscribeAll_ok bits : forall known subs known' subs',
  subscribeAll bits known subs = (known', Ok subs') ->
  exists new,
    subs' = subs ++ new /\
    map subscribeResult bits = map Ok new /\
    Forall (fun bit => is_Some (known' !! bitmaskBytes bit)) bits.
Proof.
  induction bits as [|bit rest IH]; intros known subs known' subs' Hrun.
  { injection Hrun as <- <-. exists []. by rewrite app_nil_r. }
  simpl in Hrun. destruct (subscribeResult bit) as [sub|err] eqn:Hsub; [|done].
  pose proof (subscribeAll_keeps rest
                (match known !! bitmaskBytes bit with
                 | Some _ => known
                 | None => <[bitmaskBytes bit := bit]> known
                 end) (subs ++ [sub]) (bitmaskBytes bit)) as Hkeeps.
  rewrite Hrun in Hkeeps. simpl in Hkeeps.
  destruct (IH _ _ _ _ Hrun) as (new & -> & Hmap & Hall).
  exists (sub :: new). rewrite <- app_assoc. split; [done|].
  simpl. rewrite Hsub, Hmap. split; [done|].
  constructor; [|done].
  destruct (known !! bitmaskBytes bit) as [old|] eqn:Hold.
  - rewrite (Hkeeps old Hold). eauto.
  - rewrite (Hkeeps bit); [eauto|]. by rewrite lookup_insert_eq.
Qed.

Lemma subscribeAll_failed bits : forall known subs known' err,
  subscribeAll bits known subs = (known', Failed err) ->
  exists before bit rest cause,
    bits = before ++ bit :: rest /\
    subscribeResult bit = Failed cause /\
    err = Wrap cause "subscribe" /\
    (exists subs, map subscribeResult before = map Ok subs) /\
    Forall (fun b => is_Some (known' !! bitmaskBytes b)) before.
Proof.
  induction bits as [|bit rest IH]; intros known subs known' err Hrun; [done|].
  simpl in Hrun. destruct (subscribeResult bit) as [sub|cause] eqn:Hsub.
  - pose proof (subscribeAll_keeps rest
                  (match known !! bitmaskBytes bit with
                   | Some _ => known
                   | None => <[bitmaskBytes bit := bit]> known
                   end) (subs ++ [sub]) (bitmaskBytes bit)) as Hkeeps.
    rewrite Hrun in Hkeeps. simpl in Hkeeps.
    destruct (IH _ _ _ _ Hrun)
      as (before & bad & rest' & cause & -> & Hbad & -> & (ok & Hok) & Hall).
    exists (bit :: before), bad, rest', cause.
    split; [done|]. split; [done|]. split; [done|]. split.
    + exists (sub :: ok). simpl. by rewrite Hsub, Hok.
    + constructor; [|done].
      destruct (known !! bitmaskBytes bit) as [old|] eqn:Hold.
      * rewrite (Hkeeps old Hold). eauto.
      * rewrite (Hkeeps bit); [eauto|]. by rewrite lookup_insert_eq.
  - injection Hrun as <- <-. exists [], bit, rest, cause.
    repeat split; try done. by exists [].
Qed.

(** X23.  The map of bitmask handles only grows, and the first handle recorded
    under a key stays: [Subscribe] never replaces or removes an entry, and
    [Unsubscribe] closes the handle it finds but leaves it in the map, so a
    later [Subscribe] of the same bitmask keeps the closed handle.  A
    [Subscribe] that succeeds has recorded every joined handle and started
    one reader for each subscription, in order; one that fails starts no
    reader, although the handles before the failing one are recorded and
    subscribed. *)
Theorem Subscribe_first_handle_wins (joined : res (list Bitmask))
  (b : Subscriptions) :
  (forall k bm, bitmaskMap b !! k = Some bm ->
                bitmaskMap (fst (Subscribe joined b)) !! k = Some bm) /\
  (forall network bitmask raw closed,
     Unsubscribe network bitmask raw b = (b, Some closed) ->
     bitmaskMap (fst (Subscribe joined b)) !! networkBitmask network bitmask
     = Some closed) /\
  match snd (Subscribe joined b) with
  | None =>
      exists bm subs,
        joined = Ok bm /\
        map subscribeResult bm = map Ok subs /\
        readers (fst (Subscribe joined b)) = readers b ++ subs /\
        Forall (fun bit =>
                  is_Some (bitmaskMap (fst (Subscribe joined b))
                             !! bitmaskBytes bit)) bm
  | Some err =>
      readers (fst (Subscribe joined b)) = readers b /\
      exists cause,
        err = Wrap cause "subscribe" /\
        (joined = Failed cause \/
         exists before bit rest subs,
           joined = Ok (before ++ bit :: rest) /\
           subscribeResult bit = Failed cause /\
           map subscribeResult before = map Ok subs /\
           Forall (fun bit' =>
                     is_Some (bitmaskMap (fst (Subscribe joined b))
                                !! bitmaskBytes bit')) before)
  end.
Proof.
  assert (Hkeeps : forall k bm, bitmaskMap b !! k = Some bm ->
            bitmaskMap (fst (Subscribe joined b)) !! k = Some bm).
  { intros k bm Hk. unfold Subscribe.
    destruct joined as [bits|err]; [|done].
    pose proof (subscribeAll_keeps bits (bitmaskMap b) [] k bm Hk) as Hrun.
    by destruct (subscribeAll bits (bitmaskMap b) []) as [known [subs|err]]. }
  split; [done|]. split.
  { intros network bitmask raw closed [= Hclosed]. by apply Hkeeps. }
  unfold Subscribe. destruct joined as [bits|err]; simpl.
  2: { split; [done|]. exists err. split; [done|]. by left. }
  destruct (subscribeAll bits (bitmaskMap b) []) as [known [subs|err]] eqn:Hrun;
    simpl.
  - destruct (subscribeAll_ok _ _ _ _ _ Hrun) as (new & -> & Hmap & Hall).
    exists bits, new. done.
  - destruct (subscribeAll_failed _ _ _ _ _ Hrun)
      as (before & bit & rest & cause & -> & Hbad & -> & (ok & Hok) & Hall).
    split; [done|]. exists cause. split; [done|]. right.
    exists before, bit, rest, ok. done.
Qed.

End BitmaskTheorems.

(** ** Direct channels *)

Section DirectChannelTheorems.

Import DirectChannel.

(** X24.  A direct channel closes the connection to its peer exactly when it
    opened that connection itself: a peer that was already connected (or
    connected with limits) is dialled without [Connect] and is left
    connected when the channel closes; any other peer is connected first
    and closed with the channel, also when closing the stream fails, and
    [Close] reports the stream's error.  A failed [Connect] is reported as
    ["connect"] without dialling; a failed dial is reported as
    ["dial direct channel"], and then a connection that was opened for the
    channel stays open. *)
Theorem direct_channel_closes_what_it_opened idString id purpose connectedness
  connect dial :
  let made := fst (dialer idString id purpose connectedness connect dial) in
  let result := snd (dialer idString id purpose connectedness connect dial) in
  (In (HostConnect id) made <->
   connectedness <> Connected /\ connectedness <> Limited) /\
  match result with
  | Ok conn =>
      dial = None /\
      (In (HostConnect id) made -> connect = None) /\
      forall closed,
        snd (Close conn closed) = closed /\
        List.hd ConnClose (fst (Close conn closed)) = ConnClose /\
        (In (HostClosePeer id) (fst (Close conn closed)) <->
         In (HostConnect id) made)
  | Failed err =>
      (exists cause, connect = Some cause /\ err = Wrap cause "connect" /\
                     made = [HostConnect id]) \/
      (exists cause, dial = Some cause /\
                     err = Wrap cause "dial direct channel" /\
                     Forall (fun c => c <> HostClosePeer id) made)
  end.
Proof.
  cbv zeta. unfold dialer.
  destruct connectedness, connect as [cerr|], dial as [derr|]; simpl;
    (split; [intuition (discriminate || congruence || auto)|]);
    first
      [ left; eexists; repeat split; done
      | right; eexists; repeat split; try done;
        repeat constructor; discriminate
      | split; [done|]; split; [intuition (discriminate || congruence)|];
        intros closed; simpl;
        intuition (discriminate || congruence || auto) ].
Qed.

End DirectChannelTheorems.

(** ** The small node again *)

Section MoreScenarios.

Import Scenario Cases.

#[local] Existing Instances tokenApplication frameProver nodeConfig inOrder
  inclusionProver clockStore shake256.

(** The engine that [collect] leaves when the peer hands over frames 6, 7
    and 8. *)
Definition caughtUp : DataClockConsensusEngine :=
  match collect 2 (fun _ => threeFrames) (goodFrame 5) node with
  | Some (e, _) => e
  | None => node
  end.

Lemma onePeer_uint64 k v : onePeer !! k = Some v -> maxFrame v < 2 ^ 64.
Proof.
  intros Hk%elem_of_map_to_list. vm_compute in Hk.
  apply elem_of_cons in Hk as [Hk|Hk]; [by injection Hk as _ ->|].
  by apply elem_of_nil in Hk.
Qed.

(** One pass pulls frames 6, 7 and 8 from the peer; the second finds nobody
    ahead of frame 8. *)
Lemma collect_inserts_consecutive_witness :
  (None : option error) = None /\
  GetAheadPeers
    (Z.max (FrameNumber (goodFrame 8)) (latestFrameReceived caughtUp)) caughtUp
  = Returns [] /\
  consecutiveFrom (goodFrame 5) (insertedFrames (newCalls node caughtUp)) /\
  goodFrame 8 = List.last (insertedFrames (newCalls node caughtUp)) (goodFrame 5)
  /\
  FrameNumber (goodFrame 5) <= FrameNumber (goodFrame 8).
Proof.
  apply (collect_inserts_consecutive 2 (fun _ => threeFrames) (goodFrame 5)
           node caughtUp (goodFrame 8) None).
  - simpl. lia.
  - apply onePeer_uint64.
  - vm_compute. reflexivity.
Defined.

(** A prover does not sync, whoever is ahead of it. *)
Lemma collect_nothing_ahead_witness :
  collect 1 (fun _ => threeFrames) (goodFrame 5) leader
  = Some (leader, Returns (Some (goodFrame 5), None)).
Proof.
  apply (collect_nothing_ahead 0 (fun _ => threeFrames) (goodFrame 5) leader
           {[ "prover" ]} []).
  - reflexivity.
  - left. vm_compute. reflexivity.
Defined.

(** The only peer ahead sends a frame 6 that the verifier refuses. *)
Lemma collect_panics_on_nil_frame_witness :
  option_map snd (collect 2 badProof (goodFrame 5) node) = Some Panics.
Proof.
  apply (collect_panics_on_nil_frame 0 badProof (goodFrame 5) node
           {| PeerID := "peer1"; MaxFrame := 8 |} []
           (fst (sync (badProof 0) (goodFrame 5) 8 "peer1" node))
           (Some (Wrap (ErrorString "invalid proof") "sync"))).
  - vm_compute. reflexivity.
  - vm_compute. reflexivity.
Defined.

(** The peer at frame 8 answers every first request with a nil response:
    seven passes are not enough, and neither is any other number. *)
Lemma collect_spins_on_nil_responses_witness :
  collect 7 (fun _ => nilFirst) (goodFrame 5) node = None.
Proof.
  apply (collect_spins_on_nil_responses 7 (fun _ => nilFirst) (goodFrame 5)
           node {[ "prover" ]} []).
  - reflexivity.
  - vm_compute. intros Hin. discriminate Hin.
  - vm_compute. discriminate.
  - intros n. split; [reflexivity|]. by exists [].
Defined.

Lemma sync_stays_below_maxFrame_witness :
  Forall (fun n => FrameNumber (goodFrame 5) < n <= 8)
    (requestedFrames
       (newCalls node (fst (sync threeFrames (goodFrame 5) 8 "peer1" node))))
  /\
  Forall (fun f => FrameNumber (goodFrame 5) < FrameNumber f <= 8)
    (insertedFrames
       (newCalls node (fst (sync threeFrames (goodFrame 5) 8 "peer1" node))))
  /\
  Z.of_nat
    (length
       (requestedFrames
          (newCalls node
             (fst (sync threeFrames (goodFrame 5) 8 "peer1" node)))))
  <= 8 - FrameNumber (goodFrame 5) /\
  (forall held (err : option error),
     snd (sync threeFrames (goodFrame 5) 8 "peer1" node)
     = Returns (Some held, err) ->
     FrameNumber (goodFrame 5) <= FrameNumber held <= 8).
Proof.
  apply (sync_stays_below_maxFrame threeFrames (goodFrame 5) 8 "peer1" node).
  - simpl. lia.
  - lia.
Defined.

(** A peer that cannot be dialled, and a peer whose second answer is a
    timeout. *)
Lemma sync_transport_failure_witness :
  snd (sync unreachable (goodFrame 5) 8 "peer1" node)
  = Returns (Some (goodFrame 5), Some (Wrap (ErrorString "no route") "sync"))
  /\
  snd (sync brokenStream (goodFrame 5) 8 "peer1" node)
  = Returns (Some (goodFrame 6),
             Some (Wrap (ErrorString "deadline exceeded") "sync")) /\
  uncooperativePeersMap (fst (sync brokenStream (goodFrame 5) 8 "peer1" node))
    !! "peer1"
  = Some (stampedAt 9000 (peer "peer1" 8)).
Proof.
  destruct (sync_transport_failure unreachable (goodFrame 5) 8 "peer1" node
              (peer "peer1" 8) (ErrorString "no route"))
    as (Hres & _).
  { vm_compute. reflexivity. }
  { left. reflexivity. }
  destruct (sync_transport_failure brokenStream (goodFrame 5) 8 "peer1" node
              (peer "peer1" 8) (ErrorString "deadline exceeded"))
    as (Hres' & _ & Hmoved & _).
  { vm_compute. reflexivity. }
  { right. split; [reflexivity|]. exists 1%nat.
    split; [reflexivity|]. vm_compute. lia. }
  split; [exact Hres|]. split; [exact Hres'|exact Hmoved].
Defined.

(** The peer's frame 6 carries no signature. *)
Lemma sync_panics_on_unsigned_frame_witness :
  snd (sync unsignedFirst (goodFrame 5) 8 "peer1" node) = Panics /\
  newCalls node (fst (sync unsignedFirst (goodFrame 5) 8 "peer1" node))
  = [CallGetDirectChannel "peer1";
     CallGetDataFrame "peer1" (uint64_add (FrameNumber (goodFrame 5)) 1);
     CallClose "peer1"] /\
  peerMap (fst (sync unsignedFirst (goodFrame 5) 8 "peer1" node))
  = peerMap node /\
  uncooperativePeersMap
    (fst (sync unsignedFirst (goodFrame 5) 8 "peer1" node))
  = uncooperativePeersMap node /\
  syncingStatus (fst (sync unsignedFirst (goodFrame 5) 8 "peer1" node))
  = SyncStatusNotSyncing.
Proof.
  apply (sync_panics_on_unsigned_frame unsignedFirst (goodFrame 5) 8 "peer1"
           node {| df_ClockFrame := Some (unsignedFrame 6); df_Proof := "" |}
           (unsignedFrame 6) []).
  - reflexivity.
  - reflexivity.
  - reflexivity.
  - split; [vm_compute; reflexivity|simpl; lia].
  - reflexivity.
Defined.

(** Two peers known; the one that is dialled cannot be reached. *)
Lemma sync_touches_only_its_peer_witness :
  peerMap (fst (sync unreachable (goodFrame 5) 8 "peer1"
                  (engine 0 1 twoPeers))) !! "peer2"
  = peerMap (engine 0 1 twoPeers) !! "peer2" /\
  uncooperativePeersMap
    (fst (sync unreachable (goodFrame 5) 8 "peer1" (engine 0 1 twoPeers)))
    !! "peer2"
  = uncooperativePeersMap (engine 0 1 twoPeers) !! "peer2" /\
  (is_Some (peerMap (engine 0 1 twoPeers) !! "peer1") ->
   is_Some
     (peerMap (fst (sync unreachable (goodFrame 5) 8 "peer1"
                      (engine 0 1 twoPeers))) !! "peer1") \/
   is_Some
     (uncooperativePeersMap
        (fst (sync unreachable (goodFrame 5) 8 "peer1"
                (engine 0 1 twoPeers))) !! "peer1")).
Proof.
  apply (sync_touches_only_its_peer unreachable (goodFrame 5) 8 "peer1"
           (engine 0 1 twoPeers) "peer2").
  discriminate.
Defined.

(** After the failed dial of ["peer1"], only ["peer2"] is offered. *)
Lemma demoted_peer_is_not_ahead_witness :
  Forall (fun c => PeerID c <> "peer1")
    [ {| PeerID := "peer2"; MaxFrame := 11 |} ].
Proof.
  apply (demoted_peer_is_not_ahead unreachable (goodFrame 5) 8 "peer1"
           (engine 0 1 twoPeers) (peer "peer1" 8) 5).
  - vm_compute. reflexivity.
  - reflexivity.
  - vm_compute. reflexivity.
Defined.

Lemma sync_inserts_only_verified_witness :
  true = true /\
  VerifyDataClockFrame (goodFrame 7) = None /\
  (exists key, producerKeyValue (goodFrame 7) = Returns key) /\
  In (CallVerifyDataClockFrame (goodFrame 7))
     (newCalls node (fst (sync threeFrames (goodFrame 5) 8 "peer1" node))).
Proof.
  apply (sync_inserts_only_verified threeFrames (goodFrame 5) 8 "peer1" node
           (goodFrame 7) true).
  vm_compute. tauto.
Defined.

(** An engine without a proving key keeps its two staged requests. *)
Lemma prove_materialize_failure_keeps_staging_witness :
  snd (prove 1000 (goodFrame 4) keyless)
  = Returns (None, Some (Wrap (ErrorString "no proving key") "prove")) /\
  stagedTransactions (fst (prove 1000 (goodFrame 4) keyless))
  = stagedTransactions keyless /\
  stagedTransactionsMx (fst (prove 1000 (goodFrame 4) keyless)) = false /\
  lastProven (fst (prove 1000 (goodFrame 4) keyless)) = lastProven keyless /\
  newCalls keyless (fst (prove 1000 (goodFrame 4) keyless))
  = [CallLock; CallGetDataClockFrame (FrameNumber (goodFrame 4));
     CallMaterializeApplicationFromFrame; CallUnlock].
Proof.
  apply (prove_materialize_failure_keeps_staging 1000 (goodFrame 4) keyless
           (ErrorString "no proving key")).
  - vm_compute. reflexivity.
  - vm_compute. reflexivity.
Defined.

(** The frame that the engine at 3 proves after frame 4. *)
Definition fifth : ClockFrame :=
  match snd (prove 1000 (goodFrame 4) (engine 3 1 ∅)) with
  | Returns (Some frame, _) => frame
  | _ => genesis
  end.

Lemma prove_success_trace_witness :
  lastProven (fst (prove 1000 (goodFrame 4) (engine 3 1 ∅)))
  = FrameNumber (goodFrame 4) /\
  stagedTransactions (fst (prove 1000 (goodFrame 4) (engine 3 1 ∅)))
  = Some emptyTokenRequests /\
  stagedTransactionsMx (fst (prove 1000 (goodFrame 4) (engine 3 1 ∅))) = false
  /\
  (516 <= String.length (Input fifth))%nat /\
  exists position,
    0 <= position < 16 /\
    newCalls (engine 3 1 ∅) (fst (prove 1000 (goodFrame 4) (engine 3 1 ∅)))
    = [CallLock; CallGetDataClockFrame (FrameNumber (goodFrame 4));
       CallMaterializeApplicationFromFrame;
       CallApplyTransitions (uint64_add (FrameNumber (goodFrame 4)) 1);
       CallUnlock; CallMaterializeStateFromApplication; CallCommitRaw;
       CallProveRaw position; CallProveDataClockFrame].
Proof.
  apply (prove_success_trace 1000 (goodFrame 4) (engine 3 1 ∅)
           (fst (prove 1000 (goodFrame 4) (engine 3 1 ∅))) fifth).
  - vm_compute. reflexivity.
  - vm_compute. reflexivity.
Defined.

End MoreScenarios.

Section ShortInputScenario.

Import Scenario Cases.

#[local] Existing Instances tokenApplication shortInputProver inclusionProver
  clockStore shake256.

(** A prover whose frame has an empty input: the frame is proven, the state
    is committed, and the caller gets a panic. *)
Lemma prove_panics_after_commit_witness :
  lastProven (fst (prove 1000 (goodFrame 4) (engine 3 1 ∅)))
  = FrameNumber (goodFrame 4) /\
  stagedTransactions (fst (prove 1000 (goodFrame 4) (engine 3 1 ∅)))
  = Some emptyTokenRequests /\
  stagedTransactionsMx (fst (prove 1000 (goodFrame 4) (engine 3 1 ∅))) = false
  /\
  List.last
    (newCalls (engine 3 1 ∅) (fst (prove 1000 (goodFrame 4) (engine 3 1 ∅))))
    CallLock
  = CallProveDataClockFrame /\
  (FrameNumber (goodFrame 4) <> 0 ->
   forall now',
     prove now' (goodFrame 4) (fst (prove 1000 (goodFrame 4) (engine 3 1 ∅)))
     = (fst (prove 1000 (goodFrame 4) (engine 3 1 ∅)),
        Returns (Some (goodFrame 4), None))).
Proof.
  apply (prove_panics_after_commit 1000 (goodFrame 4) (engine 3 1 ∅)).
  vm_compute. reflexivity.
Defined.

End ShortInputScenario.

Section MoreNumbers.

Import Scenario Cases P2P Overlay Bootstrap.

#[local] Existing Instances tokenApplication nodeConfig addresses.

(** The six peers of [registry], seen from head 5: the peer at 8 weighs 0.5,
    the peer at 11 weighs 1. *)
Lemma GetAheadPeers_weights_ordered_witness :
  Forall (fun w => float64_leb (Weight w) float64_zero = false)
    (weightedCandidates 5 registry) /\
  (forall w w',
     w ∈ weightedCandidates 5 registry -> w' ∈ weightedCandidates 5 registry ->
     MaxFrame (Candidate w) <= MaxFrame (Candidate w') ->
     float64_leb (Weight w) (Weight w') = true) /\
  (forall w,
     w ∈ weightedCandidates 5 registry ->
     Forall (fun w' => MaxFrame (Candidate w') <= MaxFrame (Candidate w))
       (weightedCandidates 5 registry) ->
     Weight w = float64_one).
Proof.
  apply (GetAheadPeers_weights_ordered 5 registry).
  - vm_compute. split; congruence.
  - intros k v Hk%elem_of_map_to_list. vm_compute in Hk.
    repeat (apply elem_of_cons in Hk as [Hk|Hk];
            [injection Hk as _ ->; vm_compute; split; congruence|]).
    by apply elem_of_nil in Hk.
Defined.

(** A score set to 7, raised by 4, set to 1 and lowered by 3 is [-2]. *)
Lemma GetPeerScore_history_witness :
  GetPeerScore
    (apply_ops (newBlossomSub 0)
       [OpSet "carol" 7; OpAdd "carol" 4; OpAdd "bob" 9; OpSet "carol" 1;
        OpAdd "carol" (-3)])
    "carol"
  = int64_wrap
      (exactScore (GetPeerScore (newBlossomSub 0) "carol")
         [OpSet "carol" 7; OpAdd "carol" 4; OpAdd "bob" 9; OpSet "carol" 1;
          OpAdd "carol" (-3)]
         "carol").
Proof.
  apply (GetPeerScore_history (newBlossomSub 0)
           [OpSet "carol" 7; OpAdd "carol" 4; OpAdd "bob" 9; OpSet "carol" 1;
            OpAdd "carol" (-3)] "carol").
  - vm_compute. split; congruence.
  - repeat constructor; vm_compute; congruence.
Defined.

(** The default high watermark, 192, on a machine whose default admits 128
    inbound connections: 1024 each way. *)
Lemma resourceManager_leaves_room_witness :
  3 * 192 < ConnsInbound (System (limitChanges 192 smallMachine)) <= 6 * 192 /\
  Conns (System (limitChanges 192 smallMachine)) = 2048.
Proof.
  destruct (resourceManager_leaves_room 192 smallMachine) as [Hroom _].
  - lia.
  - lia.
  - destruct Hroom as (Hin & _).
    + vm_compute. reflexivity.
    + split; [exact Hin|]. vm_compute. reflexivity.
Defined.

(** The node ["boot2"] on mainnet, configured with a peer that is not used;
    and the node ["me"] on network 1. *)
Lemma initDHT_mode_witness :
  Mode (initDHT true
          [ {| ID := "boot1"; Addrs := ["boot1"] |};
            {| ID := "boot2"; Addrs := ["boot2"] |} ]
          (Network (bare 0 ["other"])))
  = ModeServer /\
  Mode (initDHT false [ {| ID := "other"; Addrs := ["other"] |} ]
          (Network (bare 1 ["other"])))
  = ModeServer.
Proof.
  destruct (initDHT_mode "boot2" (bare 0 ["other"]) true
              [ {| ID := "boot1"; Addrs := ["boot1"] |};
                {| ID := "boot2"; Addrs := ["boot2"] |} ])
    as (_ & _ & Hmain).
  { vm_compute. reflexivity. }
  destruct (initDHT_mode "me" (bare 1 ["other"]) false
              [ {| ID := "other"; Addrs := ["other"] |} ])
    as (_ & Htest & _).
  { vm_compute. reflexivity. }
  split.
  - destruct Hmain as (_ & Hserver & _); [reflexivity|].
    apply Hserver. apply list_elem_of_In. simpl. tauto.
  - apply Htest. discriminate.
Defined.

End MoreNumbers.
